(** * NaturalSortNoPadding: natural ordering of frame names and the
      directory-to-video driver of [frame_to_video.py]

    The development has two parts.  The first embeds [natural_sort]
    (the key function [alphanum_key], its helper [convert], and the
    call [sorted(file_list, key=alphanum_key)]).  The second embeds the
    driver [create_video_from_frames] / [process_single_directory] as a
    state-and-exception monad over an explicit operating-system
    interface.

    Conventions.  A Python [str] is a Rocq [string]; its characters are
    the code points U+0000..U+00FF, on which [str.isdigit], [str.lower]
    and [int] are given exactly; names with code points above U+00FF are
    not covered.  Python exceptions are values of [exn], all of them
    subclasses of [Exception]; a computation that may raise returns a
    [result]. *)

From Stdlib Require Import List String Ascii ZArith NArith Bool Lia.
From Stdlib Require Import Permutation Sorted.
Import ListNotations.
Local Open Scope string_scope.
Local Open Scope Z_scope.

(** ** Exceptions and results *)

Inductive exn : Type :=
| ValueError
| TypeError
| ZeroDivisionError
| OverflowError
| UnicodeEncodeError
| UnicodeDecodeError
| FileNotFoundError
| OSError (msg : string).

Inductive result (A : Type) : Type :=
| Ok (a : A)
| Raise (e : exn).

Arguments Ok {A} a.
Arguments Raise {A} e.

Definition rbind {A B} (r : result A) (k : A -> result B) : result B :=
  match r with
  | Ok a => k a
  | Raise e => Raise e
  end.

Declare Scope result_scope.
Delimit Scope result_scope with result.
Notation "x <- r ;; k" := (rbind r (fun x => k))
  (at level 61, r at next level, right associativity) : result_scope.
Local Open Scope result_scope.

(** A list comprehension [[f(c) for c in l]]: elements are evaluated
    left to right and the first exception ends the evaluation. *)
Fixpoint comprehension {A B} (f : A -> result B) (l : list A) : result (list B) :=
  match l with
  | [] => Ok []
  | c :: l' =>
      y <- f c ;;
      ys <- comprehension f l' ;;
      Ok (y :: ys)
  end.

(** ** Python strings *)

Module PyStr.

Definition ord (c : ascii) : N := N_of_ascii c.

(** The regular-expression class [[0-9]]. *)
Definition is_ascii_digit (c : ascii) : bool :=
  ((48 <=? ord c) && (ord c <=? 57))%N.

(** [str.isdigit] on one character: Numeric_Type Digit or Decimal.  Below
    U+0100 these are the ten ASCII digits and the superscripts
    U+00B2, U+00B3 and U+00B9. *)
Definition char_isdigit (c : ascii) : bool :=
  is_ascii_digit c
  || (ord c =? 178)%N || (ord c =? 179)%N || (ord c =? 185)%N.

(** [str.lower] on one character: A-Z and U+00C0..U+00DE (except the
    multiplication sign U+00D7) move up by 32. *)
Definition char_lower (c : ascii) : ascii :=
  let n := ord c in
  if ((65 <=? n) && (n <=? 90)
      || (192 <=? n) && (n <=? 222) && negb (n =? 215))%N
  then ascii_of_N (n + 32)
  else c.

Fixpoint all_chars (p : ascii -> bool) (s : string) : bool :=
  match s with
  | EmptyString => true
  | String c s' => p c && all_chars p s'
  end.

(** [text.isdigit()]: at least one character, and all are digits. *)
Definition isdigit (text : string) : bool :=
  match text with
  | EmptyString => false
  | String _ _ => all_chars char_isdigit text
  end.

(** [text.lower()] *)
Fixpoint lower (text : string) : string :=
  match text with
  | EmptyString => EmptyString
  | String c s' => String (char_lower c) (lower s')
  end.

Definition digit_value (c : ascii) : Z := Z.of_N (ord c) - 48.

(** Base-ten value of a run of ASCII digits, most significant first. *)
Fixpoint decimal (acc : Z) (s : string) : Z :=
  match s with
  | EmptyString => acc
  | String c s' => decimal (10 * acc + digit_value c) s'
  end.

(** [int(text)], on the strings that pass [isdigit] (the only ones
    [convert] hands to it): ASCII digits give their base-ten value, of
    unbounded size; a superscript digit is not a valid literal.  The cap
    that recent CPython versions put on the number of digits (4300 by
    default, far beyond the length of a file name) is left out. *)
Definition int (text : string) : result Z :=
  match text with
  | EmptyString => Raise ValueError
  | String _ _ =>
      if all_chars is_ascii_digit text then Ok (decimal 0 text)
      else Raise ValueError
  end.

(** ASCII-only strings. *)
Definition char_is_ascii (c : ascii) : bool := (ord c <? 128)%N.
Definition is_ascii (s : string) : bool := all_chars char_is_ascii s.

(** Strings without any digit character: plain text. *)
Definition is_text (s : string) : bool :=
  all_chars (fun c => negb (char_isdigit c)) s.

(** [str] comparison: lexicographic on code points. *)
Fixpoint str_compare (a b : string) : comparison :=
  match a, b with
  | EmptyString, EmptyString => Eq
  | EmptyString, String _ _ => Lt
  | String _ _, EmptyString => Gt
  | String x a', String y b' =>
      match (ord x ?= ord y)%N with
      | Eq => str_compare a' b'
      | c => c
      end
  end.

Definition str_lt (a b : string) : bool :=
  match str_compare a b with Lt => true | _ => false end.

(** [re.split('([0-9]+)', s)]: the string is cut at every maximal run of
    ASCII digits and, the pattern being one capture group, the runs are
    kept.  The result is [t0; d1; t1; ...; dn; tn]: text pieces at even
    positions (the first and the last may be empty), digit runs at odd
    positions.  The definition conses one character onto the split of
    the rest. *)
Fixpoint re_split (s : string) : list string :=
  match s with
  | EmptyString => [EmptyString]
  | String c s' =>
      match re_split s' with
      | [] => []
      | t :: rest =>
          if is_ascii_digit c then
            match t, rest with
            | EmptyString, d :: rest' => EmptyString :: String c d :: rest'
            | _, _ => EmptyString :: String c EmptyString :: t :: rest
            end
          else String c t :: rest
      end
  end.

(** U+00B2 SUPERSCRIPT TWO, a digit for [str.isdigit] that [[0-9]] does
    not match and [int] does not accept. *)
Definition superscript_two : ascii := ascii_of_N 178.

End PyStr.

(** ** natural_sort *)

Module NaturalSort.
Import PyStr.

(** A key element: Python's dynamically typed [int] or [str]. *)
Inductive token : Type :=
| TInt (n : Z)
| TStr (s : string).

(** [convert(text)] *)
Definition convert (text : string) : result token :=
  if isdigit text then n <- int text ;; Ok (TInt n)
  else Ok (TStr (lower text)).

(** [alphanum_key(key)] *)
Definition alphanum_key (key : string) : result (list token) :=
  comprehension convert (re_split key).

(** [x == y] on key elements: an [int] never equals a [str]. *)
Definition token_eqb (x y : token) : bool :=
  match x, y with
  | TInt a, TInt b => (a =? b)%Z
  | TStr a, TStr b => String.eqb a b
  | _, _ => false
  end.

(** [x < y] on key elements: ordering an [int] against a [str] raises
    [TypeError]. *)
Definition token_lt (x y : token) : result bool :=
  match x, y with
  | TInt a, TInt b => Ok (a <? b)%Z
  | TStr a, TStr b => Ok (str_lt a b)
  | _, _ => Raise TypeError
  end.

(** [k1 < k2] on lists: the first position where the elements are not
    [==] decides with [<]; if there is none, the shorter list is smaller. *)
Fixpoint list_lt (k1 k2 : list token) : result bool :=
  match k1, k2 with
  | [], [] => Ok false
  | [], _ :: _ => Ok true
  | _ :: _, [] => Ok false
  | x :: k1', y :: k2' =>
      if token_eqb x y then list_lt k1' k2' else token_lt x y
  end.

(** [k1 == k2] on lists. *)
Fixpoint list_eqb (k1 k2 : list token) : bool :=
  match k1, k2 with
  | [], [] => true
  | x :: k1', y :: k2' => token_eqb x y && list_eqb k1' k2'
  | _, _ => false
  end.

(** [sorted(l, key=f)] decorates every element with its key, in order,
    then sorts the pairs by key with [<] alone, keeping elements with
    equal keys in their input order (the sort is stable).  The stable
    sort is given as insertion from the right: an element goes in front
    of the first one that is not smaller than it.  CPython's merge sort
    asks other questions of [<], which changes the result only if a
    comparison raises. *)
Section Sorted.
Variables K A : Type.
Variable lt : K -> K -> result bool.

Fixpoint insert (x : K * A) (l : list (K * A)) : result (list (K * A)) :=
  match l with
  | [] => Ok [x]
  | y :: l' =>
      b <- lt (fst y) (fst x) ;;
      if b then r <- insert x l' ;; Ok (y :: r)
      else Ok (x :: y :: l')
  end.

Fixpoint sort_pairs (l : list (K * A)) : result (list (K * A)) :=
  match l with
  | [] => Ok []
  | x :: l' => r <- sort_pairs l' ;; insert x r
  end.

Definition sorted (key : A -> result K) (l : list A) : result (list A) :=
  keys <- comprehension key l ;;
  r <- sort_pairs (combine keys l) ;;
  Ok (map snd r).

(** What the output of a sort satisfies: [x] stands before [y] only if
    [y < x] is false. *)
Definition in_order (x y : K * A) : Prop := lt (fst y) (fst x) = Ok false.
End Sorted.

Arguments insert {K A} lt x l.
Arguments sort_pairs {K A} lt l.
Arguments sorted {K A} lt key l.
Arguments in_order {K A} lt x y.

(** [natural_sort(file_list)] *)
Definition natural_sort (file_list : list string) : result (list string) :=
  sorted list_lt alphanum_key file_list.

(** [alphanum_key(a) < alphanum_key(b)], the question [sorted] asks. *)
Definition natural_lt (a b : string) : result bool :=
  ka <- alphanum_key a ;;
  kb <- alphanum_key b ;;
  list_lt ka kb.

(** The three-way outcome of comparing two names by their keys, read off
    the two questions [ka < kb] and [kb < ka]. *)
Definition natural_compare (a b : string) : result comparison :=
  ka <- alphanum_key a ;;
  kb <- alphanum_key b ;;
  ab <- list_lt ka kb ;;
  ba <- list_lt kb ka ;;
  Ok (if ab then Lt else if ba then Gt else Eq).

(** [alphanum_key(a) == k] *)
Definition has_key (k : list token) (a : string) : bool :=
  match alphanum_key a with
  | Ok ka => list_eqb k ka
  | Raise _ => false
  end.

(** *** Shapes of splits and keys *)

(** A non-empty run of ASCII digits. *)
Definition digit_run (d : string) : bool :=
  match d with
  | EmptyString => false
  | String _ _ => all_chars is_ascii_digit d
  end.

(** A piece without ASCII digits. *)
Definition text_piece (t : string) : bool :=
  all_chars (fun c => negb (is_ascii_digit c)) t.

(** Text pieces and digit runs in turn; [digits] tells which one is due. *)
Fixpoint pieces (digits : bool) (l : list string) : bool :=
  match l with
  | [] => true
  | t :: l' =>
      (if digits then digit_run t else text_piece t) && pieces (negb digits) l'
  end.

(** [str] and [int] elements in turn; [ints] tells which one is due. *)
Fixpoint alternates (ints : bool) (k : list token) : bool :=
  match k with
  | [] => true
  | TInt _ :: k' => ints && alternates false k'
  | TStr _ :: k' => negb ints && alternates true k'
  end.

Definition is_str (x : token) : bool :=
  match x with TStr _ => true | TInt _ => false end.

Definition is_int (x : token) : bool :=
  match x with TInt _ => true | TStr _ => false end.

Definition starts_with_digit (s : string) : bool :=
  match s with
  | EmptyString => false
  | String c _ => is_ascii_digit c
  end.

Fixpoint ends_with_digit (s : string) : bool :=
  match s with
  | EmptyString => false
  | String c EmptyString => is_ascii_digit c
  | String _ s' => ends_with_digit s'
  end.

End NaturalSort.

(** ** The driver: os, os.path, subprocess

    Paths follow [posixpath]. *)

Module Driver.
Import PyStr NaturalSort.

(** *** Pure string helpers *)

(** [s.startswith(p)] *)
Definition startswith (p s : string) : bool := String.prefix p s.

(** [s.endswith(suffix)] *)
Definition endswith (suffix s : string) : bool :=
  let n := String.length suffix in
  let m := String.length s in
  (n <=? m)%nat && String.eqb (String.substring (m - n) n s) suffix.

(** [s.endswith((x, y, ...))] *)
Definition endswith_any (suffixes : list string) (s : string) : bool :=
  existsb (fun x => endswith x s) suffixes.

Fixpoint mem_char (c : ascii) (chars : string) : bool :=
  match chars with
  | EmptyString => false
  | String x chars' => Ascii.eqb c x || mem_char c chars'
  end.

(** [s.rstrip(chars)] *)
Fixpoint rstrip (chars s : string) : string :=
  match s with
  | EmptyString => EmptyString
  | String c s' =>
      match rstrip chars s' with
      | EmptyString => if mem_char c chars then EmptyString else String c EmptyString
      | r => String c r
      end
  end.

(** [s.replace(old, new)] for a non-empty [old]: every occurrence found
    scanning from the left, without overlap, is replaced.  [skip] counts
    the characters of a matched occurrence still to be dropped. *)
Fixpoint replace_from (old new : string) (skip : nat) (s : string) : string :=
  match s with
  | EmptyString => EmptyString
  | String c s' =>
      match skip with
      | S k => replace_from old new k s'
      | O =>
          if String.prefix old s
          then new ++ replace_from old new (String.length old - 1) s'
          else String c (replace_from old new 0 s')
      end
  end.

Definition replace (old new s : string) : string := replace_from old new 0 s.

(** [os.path.join(a, b)] (POSIX) *)
Definition join (a b : string) : string :=
  if startswith "/" b then b
  else if String.eqb a "" || endswith "/" a then a ++ b
  else a ++ "/" ++ b.

Fixpoint has_sep (p : string) : bool :=
  match p with
  | EmptyString => false
  | String c p' => Ascii.eqb c "/"%char || has_sep p'
  end.

(** [os.path.basename(p)] (POSIX): what follows the last separator. *)
Fixpoint basename (p : string) : string :=
  match p with
  | EmptyString => EmptyString
  | String _ p' => if has_sep p then basename p' else p
  end.

(** *** What the program exchanges with its environment *)

(** The double that [1.0 / fps] evaluates to.  Only its origin is kept:
    [OneOver fps] is 1.0 divided by the double nearest to [fps]; the
    digits that are written for it are not needed. *)
Inductive pyfloat : Type :=
| OneOver (fps : Z).

(** The lines printed, kept structured. *)
Inductive message : Type :=
| MsgProcessing (frames_path output_video_path : string)
| MsgNoImages (frames_path : string)
| MsgSuccess (output_video_path : string)
| MsgError (frames_path : string)
| MsgFFmpegError (text : string)
| MsgFolderError (folder : string) (e : exn)
| MsgAllDone.

(** The two kinds of line of the list file. *)
Inductive line : Type :=
| FileLine (path : string)
| DurationLine (d : pyfloat).

(** The argument vector handed to ffmpeg, by its variable parts. *)
Record ffmpeg_command : Type := {
  cmd_input : string;        (* -i list_file_path *)
  cmd_size : string;         (* -s resolution *)
  cmd_rate : Z;              (* -r str(fps) *)
  cmd_output : string        (* output_video_path *)
}.

(** [subprocess.CompletedProcess].  The bytes of [stderr] are kept as
    what [.decode()] makes of them: a text, or [UnicodeDecodeError]. *)
Record completed_process : Type := {
  returncode : Z;
  stderr : result string
}.

Inductive event : Type :=
| EvMakedirs (path : string)
| EvPrint (m : message)
| EvOpen (path : string)
| EvWrite (path : string) (l : line)
| EvClose (path : string)
| EvRun (cmd : ffmpeg_command)
| EvRemove (path : string).

(** The environment: what each system call answers, and whether it
    raises.  [os_listdir] gives the names in whatever order the file
    system has them; [os_print] raises when standard output cannot take
    the text; [os_write] is also given what was done so far, since one
    call writes the same duration line again and again and a later write
    may fail where an earlier one did not; [os_run_writes] tells whether
    the encoder, when it runs, leaves a file at its output path. *)
Record os : Type := {
  os_makedirs : string -> result unit;
  os_listdir : string -> result (list string);
  os_isdir : string -> bool;
  os_print : message -> result unit;
  os_open_w : string -> result unit;
  os_write : list event -> string -> line -> result unit;
  os_close : string -> result unit;
  os_run : ffmpeg_command -> result completed_process;
  os_run_writes : ffmpeg_command -> bool;
  os_remove : string -> result unit
}.

(** The state the program changes: the files that it or its encoder has
    created and that are not removed, and everything it did, latest
    event first. *)
Record state : Type := {
  files : list string;
  trace : list event
}.

Definition M (A : Type) : Type := state -> result A * state.

Definition ret {A} (a : A) : M A := fun s => (Ok a, s).

Definition bind {A B} (m : M A) (k : A -> M B) : M B :=
  fun s =>
    match m s with
    | (Ok a, s') => k a s'
    | (Raise e, s') => (Raise e, s')
    end.

Definition lift {A} (r : result A) : M A := fun s => (r, s).

(** [try: m  except Exception as e: h(e)] *)
Definition try_except {A} (m : M A) (h : exn -> M A) : M A :=
  fun s =>
    match m s with
    | (Ok a, s') => (Ok a, s')
    | (Raise e, s') => h e s'
    end.

Declare Scope driver_scope.
Delimit Scope driver_scope with driver.
Notation "x <- m ;; k" := (bind m (fun x => k))
  (at level 61, m at next level, right associativity) : driver_scope.
Notation "m ;; k" := (bind m (fun _ => k))
  (at level 61, right associativity) : driver_scope.
Local Open Scope driver_scope.

Definition emit (e : event) : M unit :=
  fun s => (Ok tt, {| files := files s; trace := e :: trace s |}).

(** An operation that the environment may refuse: when it does nothing
    is recorded. *)
Definition attempt (r : result unit) (e : event) : M unit :=
  fun s =>
    match r with
    | Ok _ => emit e s
    | Raise x => (Raise x, s)
    end.

(** [print(...)] *)
Definition print (w : os) (m : message) : M unit :=
  attempt (os_print w m) (EvPrint m).

Definition makedirs (w : os) (path : string) : M unit :=
  emit (EvMakedirs path) ;; lift (os_makedirs w path).

Definition listdir (w : os) (path : string) : M (list string) :=
  lift (os_listdir w path).

Definition add_file (path : string) (fs : list string) : list string :=
  if in_dec string_dec path fs then fs else path :: fs.

(** [open(path, 'w')]: when it succeeds the file exists from then on. *)
Definition open_w (w : os) (path : string) : M unit :=
  fun s =>
    match os_open_w w path with
    | Ok _ => (Ok tt, {| files := add_file path (files s);
                         trace := EvOpen path :: trace s |})
    | Raise e => (Raise e, s)
    end.

(** [f.write(...)] *)
Definition write (w : os) (path : string) (l : line) : M unit :=
  fun s => attempt (os_write w (trace s) path l) (EvWrite path l) s.

(** Closing the file, as the end of the [with] block does. *)
Definition close (w : os) (path : string) : M unit :=
  attempt (os_close w path) (EvClose path).

(** [with open(path, 'w') as f: body].  The file is closed however the
    body ends; an exception of the closing replaces one of the body. *)
Definition with_open (w : os) (path : string) (body : M unit) : M unit :=
  fun s =>
    match open_w w path s with
    | (Raise e, s1) => (Raise e, s1)
    | (Ok _, s1) =>
        match body s1 with
        | (Ok _, s2) => close w path s2
        | (Raise e, s2) =>
            match close w path s2 with
            | (Ok _, s3) => (Raise e, s3)
            | (Raise e', s3) => (Raise e', s3)
            end
        end
    end.

(** [subprocess.run(cmd, stdout=PIPE, stderr=PIPE)]: a completed process
    whatever its exit status, or an exception when the program cannot be
    started.  A run may leave the output file. *)
Definition run (w : os) (cmd : ffmpeg_command) : M completed_process :=
  fun s =>
    match os_run w cmd with
    | Ok process =>
        (Ok process,
         {| files := if os_run_writes w cmd then add_file (cmd_output cmd) (files s)
                     else files s;
            trace := EvRun cmd :: trace s |})
    | Raise e => (Raise e, {| files := files s; trace := EvRun cmd :: trace s |})
    end.

(** [os.remove(path)] *)
Definition remove (w : os) (path : string) : M unit :=
  fun s =>
    if in_dec string_dec path (files s)
    then match os_remove w path with
         | Ok _ => (Ok tt, {| files := List.remove string_dec path (files s);
                              trace := EvRemove path :: trace s |})
         | Raise e => (Raise e, s)
         end
    else (Raise FileNotFoundError, s).

(** The least magnitude of an [int] that has no double: beyond the
    largest double by half a unit in its last place. *)
Definition float_overflow_bound : Z := 2 ^ 1024 - 2 ^ 970.

(** [1.0 / fps]: [fps] is first converted to a double. *)
Definition true_div_one (fps : Z) : result pyfloat :=
  if (float_overflow_bound <=? Z.abs fps)%Z then Raise OverflowError
  else if (fps =? 0)%Z then Raise ZeroDivisionError
  else Ok (OneOver fps).

(** [for x in l: body(x)] *)
Fixpoint for_each {A} (l : list A) (body : A -> M unit) : M unit :=
  match l with
  | [] => ret tt
  | x :: l' => body x ;; for_each l' body
  end.

(** *** process_single_directory *)

Definition image_suffixes : list string := [".png"; ".jpg"; ".jpeg"].

(** [if not output_filename: output_filename = basename(...)] *)
Definition resolve_output_filename (frames_path : string)
    (output_filename : option string) : string :=
  match output_filename with
  | None => basename (rstrip "/\" frames_path)
  | Some EmptyString => basename (rstrip "/\" frames_path)
  | Some name => name
  end.

Definition base_name_of (frames_path : string) (output_filename : option string)
  : string :=
  replace ".mp4" "" (resolve_output_filename frames_path output_filename).

Definition output_video_path_of (frames_path output_path : string)
    (output_filename : option string) : string :=
  join output_path (base_name_of frames_path output_filename ++ ".mp4").

Definition list_file_path_of (frames_path output_path : string)
    (output_filename : option string) : string :=
  join output_path (base_name_of frames_path output_filename ++ "_frames.txt").

(** The [ffmpeg_command] list of a call. *)
Definition ffmpeg_command_of (frames_path output_path : string)
    (output_filename : option string) (fps : Z) (resolution : string)
  : ffmpeg_command :=
  {| cmd_input := list_file_path_of frames_path output_path output_filename;
     cmd_size := resolution;
     cmd_rate := fps;
     cmd_output := output_video_path_of frames_path output_path output_filename |}.

(** The two lines written for one frame. *)
Definition write_frame (w : os) (list_file_path frames_path : string)
    (frame_duration : pyfloat) (frame : string) : M unit :=
  write w list_file_path (FileLine (join frames_path frame)) ;;
  write w list_file_path (DurationLine frame_duration).

Definition process_single_directory (w : os) (frames_path output_path : string)
    (output_filename : option string) (fps : Z) (resolution : string) : M unit :=
  let output_video_path := output_video_path_of frames_path output_path output_filename in
  print w (MsgProcessing frames_path output_video_path) ;;
  names <- listdir w frames_path ;;
  let frame_files := filter (fun f => endswith_any image_suffixes (lower f)) names in
  match frame_files with
  | [] => print w (MsgNoImages frames_path)
  | _ :: _ =>
      sorted_frames <- lift (natural_sort frame_files) ;;
      let list_file_path := list_file_path_of frames_path output_path output_filename in
      frame_duration <- lift (true_div_one fps) ;;
      with_open w list_file_path
        (for_each sorted_frames
           (write_frame w list_file_path frames_path frame_duration)) ;;
      let ffmpeg_command :=
        ffmpeg_command_of frames_path output_path output_filename fps resolution in
      process <- run w ffmpeg_command ;;
      remove w list_file_path ;;
      if (returncode process =? 0)%Z
      then print w (MsgSuccess output_video_path)
      else
        print w (MsgError frames_path) ;;
        text <- lift (stderr process) ;;
        print w (MsgFFmpegError text)
  end.

(** *** create_video_from_frames *)

Definition process_folder (w : os) (frames_path output_path : string)
    (fps : Z) (resolution : string) (folder : string) : M unit :=
  try_except
    (process_single_directory w (join frames_path folder) output_path
       (Some folder) fps resolution)
    (fun e => print w (MsgFolderError folder e)).

Definition create_video_from_frames (w : os) (frames_path output_path : string)
    (output_filename : option string) (fps : Z) (resolution : string)
    (recursive : bool) : M unit :=
  makedirs w output_path ;;
  (if recursive then
     names <- listdir w frames_path ;;
     let folders := filter (fun f => os_isdir w (join frames_path f)) names in
     match folders with
     | [] => process_single_directory w frames_path output_path None fps resolution
     | _ :: _ => for_each folders (process_folder w frames_path output_path fps resolution)
     end
   else
     process_single_directory w frames_path output_path output_filename fps resolution) ;;
  print w MsgAllDone.

(** *** main *)

(** The namespace [parser.parse_args()] returns. *)
Record args : Type := {
  arg_input : string;
  arg_output : string;
  arg_name : option string;
  arg_resolution : string;
  arg_fps : Z;
  arg_recursive : bool
}.

Definition main (w : os) (a : args) : M unit :=
  create_video_from_frames w (arg_input a) (arg_output a) (arg_name a)
    (arg_fps a) (arg_resolution a) (arg_recursive a).

Definition initial : state := {| files := []; trace := [] |}.

(** *** Reading a run *)

(** The directories on which [process_single_directory] was started, in
    the order of the calls, read off the trace: each call announces
    itself first. *)
Fixpoint started (tr : list event) : list string :=
  match tr with
  | [] => []
  | EvPrint (MsgProcessing p _) :: tr' => started tr' ++ [p]
  | _ :: tr' => started tr'
  end.

(** A computation every run of which is related to its start by [R]. *)
Definition steps (R : state -> state -> Prop) {A} (m : M A) : Prop :=
  forall s, R s (snd (m s)).

(** A computation in which no call of [process_single_directory] begins. *)
Definition quiet {A} (m : M A) : Prop :=
  forall s, started (trace (snd (m s))) = started (trace s).

(** A computation that neither creates nor removes a file other than
    those of [paths]. *)
Definition only_touches {A} (paths : list string) (m : M A) : Prop :=
  forall s p, ~ In p paths -> (In p (files (snd (m s))) <-> In p (files s)).

(** Strings made only of characters of [chars], and of none of them. *)
Definition only_chars (chars s : string) : bool :=
  all_chars (fun c => mem_char c chars) s.

Definition none_of (chars s : string) : bool :=
  all_chars (fun c => negb (mem_char c chars)) s.

(** How often the encoder was started, read off the trace. *)
Fixpoint runs (tr : list event) : nat :=
  match tr with
  | [] => 0
  | EvRun _ :: tr' => S (runs tr')
  | _ :: tr' => runs tr'
  end.

(** Every line of [ls] can be written in its turn, after the events
    [tr]. *)
Fixpoint writes_ok (w : os) (path : string) (tr : list event) (ls : list line)
  : Prop :=
  match ls with
  | [] => True
  | l :: ls' =>
      os_write w tr path l = Ok tt /\ writes_ok w path (EvWrite path l :: tr) ls'
  end.

(** The events of a call before its encoder is started. *)
Definition preparing (ev : event) : bool :=
  match ev with
  | EvPrint (MsgProcessing _ _) | EvPrint (MsgNoImages _) => true
  | EvOpen _ | EvWrite _ _ | EvClose _ => true
  | _ => false
  end.

(** The lines of the list file for the frames in order, and the events
    of writing them, latest first. *)
Definition lines_of (frames_path : string) (d : pyfloat) (frames : list string)
  : list line :=
  flat_map (fun frame => [FileLine (join frames_path frame); DurationLine d]) frames.

Definition written (path : string) (ls : list line) : list event :=
  rev (map (EvWrite path) ls).

(** What brings a call that begins after the events [tr] to its
    encoder: the announcement is printed, the directory is listed and
    holds an image name, the names sort to [sorted_frames], [1.0 / fps]
    has a value, and the list file is opened, every line written in its
    turn and the file closed. *)
Definition list_file_ready (w : os) (frames_path output_path : string)
    (output_filename : option string) (fps : Z) (tr : list event)
    (sorted_frames : list string) : Prop :=
  os_print w (MsgProcessing frames_path
                (output_video_path_of frames_path output_path output_filename))
  = Ok tt
  /\ (exists names f fs,
        os_listdir w frames_path = Ok names
        /\ filter (fun f => endswith_any image_suffixes (lower f)) names = f :: fs
        /\ natural_sort (f :: fs) = Ok sorted_frames)
  /\ fps <> 0%Z /\ (Z.abs fps < float_overflow_bound)%Z
  /\ os_open_w w (list_file_path_of frames_path output_path output_filename) = Ok tt
  /\ writes_ok w (list_file_path_of frames_path output_path output_filename)
       (EvOpen (list_file_path_of frames_path output_path output_filename)
        :: EvPrint (MsgProcessing frames_path
                      (output_video_path_of frames_path output_path
                         output_filename))
        :: tr)
       (lines_of frames_path (OneOver fps) sorted_frames)
  /\ os_close w (list_file_path_of frames_path output_path output_filename) = Ok tt.

(** Standard output takes the announcement of every directory and the
    report of every folder's exception. *)
Definition reports (w : os) : Prop :=
  (forall p o, os_print w (MsgProcessing p o) = Ok tt)
  /\ (forall folder e, os_print w (MsgFolderError folder e) = Ok tt).

End Driver.

(** ** Concrete environments *)

Module Scenarios.
Import PyStr Driver.

(** A root [in] with three subdirectories, listed by the file system as
    shotA, shot10, shot2.  shotA holds no image, shot10 cannot be read,
    shot2 holds two frames and a text file; a lone directory [frames]
    holds two frames.  Printing, writing, closing and removing succeed;
    [run] says what starting ffmpeg does, and a run leaves its output. *)
Definition studio (run : ffmpeg_command -> result completed_process) : os := {|
  os_makedirs := fun _ => Ok tt;
  os_listdir := fun path =>
    if String.eqb path "in" then Ok ["shotA"; "shot10"; "shot2"]
    else if String.eqb path "in/shotA" then Ok ["readme.txt"]
    else if String.eqb path "in/shot10" then Raise (OSError "permission denied")
    else if String.eqb path "in/shot2" then Ok ["f10.png"; "notes.txt"; "f9.PNG"]
    else if String.eqb path "frames" then Ok ["b10.png"; "b9.png"]
    else Raise FileNotFoundError;
  os_isdir := fun path =>
    String.eqb path "in/shotA" || String.eqb path "in/shot10"
    || String.eqb path "in/shot2";
  os_print := fun _ => Ok tt;
  os_open_w := fun _ => Ok tt;
  os_write := fun _ _ _ => Ok tt;
  os_close := fun _ => Ok tt;
  os_run := run;
  os_run_writes := fun _ => true;
  os_remove := fun _ => Ok tt
|}.

(** ffmpeg runs and exits with the given status. *)
Definition exits (code : Z) (cmd : ffmpeg_command) : result completed_process :=
  Ok {| returncode := code; stderr := Ok "" |}.

(** ffmpeg is not installed: [subprocess.run] raises. *)
Definition not_installed (cmd : ffmpeg_command) : result completed_process :=
  Raise FileNotFoundError.

Definition single (name : option string) (fps : Z) : args := {|
  arg_input := "frames"; arg_output := "out"; arg_name := name;
  arg_resolution := "256x256"; arg_fps := fps; arg_recursive := false
|}.

Definition batch (fps : Z) : args := {|
  arg_input := "in"; arg_output := "out"; arg_name := None;
  arg_resolution := "256x256"; arg_fps := fps; arg_recursive := true
|}.

(** Whether the text of a message is ASCII.  The success and the failure
    line begin with U+2713 and U+2717; the other lines are ASCII apart
    from the names they show.  (The texts of the exceptions that arise
    below are ASCII.) *)
Definition shows_only_ascii (m : message) : bool :=
  match m with
  | MsgProcessing p o => is_ascii p && is_ascii o
  | MsgNoImages p => is_ascii p
  | MsgSuccess _ => false
  | MsgError _ => false
  | MsgFFmpegError text => is_ascii text
  | MsgFolderError folder _ => is_ascii folder
  | MsgAllDone => true
  end.

(** The folder name shot followed by U+00E9. *)
Definition accented : string := "shot" ++ String (ascii_of_N 233) "".

(** A root [in] whose subdirectories are listed as shotA, the accented
    name, shot2; shot2 holds one frame, the others hold nothing.
    Standard output encodes ASCII only: printing any other text raises
    [UnicodeEncodeError]. *)
Definition ascii_stdout : os := {|
  os_makedirs := fun _ => Ok tt;
  os_listdir := fun path =>
    if String.eqb path "in" then Ok ["shotA"; accented; "shot2"]
    else if String.eqb path "in/shot2" then Ok ["f1.png"]
    else Ok [];
  os_isdir := fun path =>
    String.eqb path "in/shotA" || String.eqb path (join "in" accented)
    || String.eqb path "in/shot2";
  os_print := fun m =>
    if shows_only_ascii m then Ok tt else Raise UnicodeEncodeError;
  os_open_w := fun _ => Ok tt;
  os_write := fun _ _ _ => Ok tt;
  os_close := fun _ => Ok tt;
  os_run := exits 0;
  os_run_writes := fun _ => true;
  os_remove := fun _ => Ok tt
|}.

(** The frame name a followed by U+00E9 and .png. *)
Definition accented_frame : string := "a" ++ String (ascii_of_N 233) ".png".

(** A directory [frames] with the frames a1.png and the accented one,
    where the list file is opened with an encoding that takes ASCII only:
    writing a line that shows another character raises
    [UnicodeEncodeError]. *)
Definition ascii_list_file : os := {|
  os_makedirs := fun _ => Ok tt;
  os_listdir := fun path =>
    if String.eqb path "frames" then Ok ["a1.png"; accented_frame]
    else Raise FileNotFoundError;
  os_isdir := fun _ => false;
  os_print := fun _ => Ok tt;
  os_open_w := fun _ => Ok tt;
  os_write := fun _ _ l =>
    match l with
    | FileLine path => if is_ascii path then Ok tt else Raise UnicodeEncodeError
    | DurationLine _ => Ok tt
    end;
  os_close := fun _ => Ok tt;
  os_run := exits 0;
  os_run_writes := fun _ => true;
  os_remove := fun _ => Ok tt
|}.

End Scenarios.

Import PyStr NaturalSort Driver.

(** * Properties *)

(** ** Code points and string comparison *)

Lemma ord_inj (x y : ascii) : ord x = ord y -> x = y.
Proof.
  unfold ord. intros H.
  rewrite <- (ascii_N_embedding x), <- (ascii_N_embedding y). now rewrite H.
Qed.

Lemma str_compare_refl (a : string) : str_compare a a = Eq.
Proof.
  induction a as [|x a IH]; simpl; [reflexivity|].
  now rewrite N.compare_refl.
Qed.

Lemma str_compare_eq (a b : string) : str_compare a b = Eq -> a = b.
Proof.
  revert b. induction a as [|x a IH]; intros [|y b]; simpl; try discriminate; auto.
  destruct (ord x ?= ord y)%N eqn:E; try discriminate.
  intros H. apply N.compare_eq in E. apply ord_inj in E. f_equal; auto.
Qed.

Lemma str_compare_antisym (a b : string) :
  str_compare b a = CompOpp (str_compare a b).
Proof.
  revert b. induction a as [|x a IH]; intros [|y b]; simpl; auto.
  rewrite (N.compare_antisym (ord x) (ord y)).
  destruct (ord x ?= ord y)%N; simpl; auto.
Qed.

Lemma str_compare_trans (a b c : string) :
  str_compare a b = Lt -> str_compare b c = Lt -> str_compare a c = Lt.
Proof.
  revert b c. induction a as [|x a IH]; intros [|y b] [|z c]; simpl;
    try discriminate; auto.
  destruct (ord x ?= ord y)%N eqn:E1; try discriminate;
    destruct (ord y ?= ord z)%N eqn:E2; try discriminate; intros H1 H2.
  - apply N.compare_eq in E1, E2. rewrite E1, E2, N.compare_refl. eauto.
  - apply N.compare_eq in E1. now rewrite E1, E2.
  - apply N.compare_eq in E2. now rewrite <- E2, E1.
  - rewrite N.compare_lt_iff in E1, E2.
    assert (E : (ord x ?= ord z)%N = Lt) by (rewrite N.compare_lt_iff; lia).
    now rewrite E.
Qed.

Lemma str_lt_irrefl (a : string) : str_lt a a = false.
Proof. unfold str_lt. now rewrite str_compare_refl. Qed.

Lemma str_lt_trans (a b c : string) :
  str_lt a b = true -> str_lt b c = true -> str_lt a c = true.
Proof.
  unfold str_lt.
  destruct (str_compare a b) eqn:E1; try discriminate.
  destruct (str_compare b c) eqn:E2; try discriminate.
  now rewrite (str_compare_trans _ _ _ E1 E2).
Qed.

Lemma str_lt_asym (a b : string) : str_lt a b = true -> str_lt b a = false.
Proof.
  unfold str_lt. rewrite (str_compare_antisym a b).
  destruct (str_compare a b); simpl; auto; discriminate.
Qed.

Lemma str_lt_total (a b : string) :
  str_lt a b = false -> str_lt b a = false -> a = b.
Proof.
  unfold str_lt. rewrite (str_compare_antisym a b).
  destruct (str_compare a b) eqn:E; simpl; try discriminate.
  intros _ _. now apply str_compare_eq.
Qed.

(** ** Characters *)

Lemma ascii_digit_isdigit (c : ascii) :
  is_ascii_digit c = true -> char_isdigit c = true.
Proof. unfold char_isdigit. now intros ->. Qed.

Lemma isdigit_ascii (c : ascii) :
  char_is_ascii c = true -> char_isdigit c = is_ascii_digit c.
Proof.
  unfold char_is_ascii, char_isdigit. rewrite N.ltb_lt. intros H.
  replace (ord c =? 178)%N with false by (symmetry; apply N.eqb_neq; lia).
  replace (ord c =? 179)%N with false by (symmetry; apply N.eqb_neq; lia).
  replace (ord c =? 185)%N with false by (symmetry; apply N.eqb_neq; lia).
  now rewrite !orb_false_r.
Qed.

Lemma all_chars_impl (p q : ascii -> bool) (s : string) :
  (forall c, p c = true -> q c = true) ->
  all_chars p s = true -> all_chars q s = true.
Proof.
  intros Hpq. induction s as [|c s IH]; simpl; auto.
  rewrite !andb_true_iff. intros [H1 H2]. auto.
Qed.

(** ** re.split *)

Lemma re_split_nonempty (s : string) : re_split s <> [].
Proof.
  induction s as [|c s IH]; simpl; [discriminate|].
  destruct (re_split s) as [|t rest]; [contradiction|].
  destruct (is_ascii_digit c); [|discriminate].
  destruct t; [destruct rest|]; discriminate.
Qed.

(** Nothing is lost: the pieces concatenate to the string. *)
Lemma re_split_concat (s : string) : String.concat "" (re_split s) = s.
Proof.
  assert (G : forall l, String.concat "" l = fold_right String.append "" l).
  { induction l as [|x [|y l] IH]; simpl in *; auto.
    - induction x; simpl; congruence.
    - now rewrite IH. }
  rewrite G.
  induction s as [|c s IH]; simpl; auto.
  destruct (re_split s) as [|t rest] eqn:E; [now apply re_split_nonempty in E|].
  simpl in IH.
  destruct (is_ascii_digit c).
  - destruct t as [|x t]; [destruct rest as [|d rest]|]; simpl in *; now rewrite IH.
  - simpl. now rewrite IH.
Qed.

(** Pieces alternate, starting and ending with a text piece. *)
Lemma re_split_pieces (s : string) :
  pieces false (re_split s) = true /\ Nat.odd (List.length (re_split s)) = true.
Proof.
  induction s as [|c s [IH1 IH2]]; simpl; auto.
  destruct (re_split s) as [|t rest] eqn:E; [now apply re_split_nonempty in E|].
  simpl in IH1. apply andb_true_iff in IH1 as [Ht Hr].
  destruct (is_ascii_digit c) eqn:Hc.
  - destruct t as [|x t]; [destruct rest as [|d rest]|].
    + simpl. now rewrite Hc.
    + simpl in *. apply andb_true_iff in Hr as [Hd Hr].
      rewrite Hc, Hr. split; auto.
      destruct d; simpl in *; [discriminate|]. now rewrite Hd.
    + split.
      * cbn [pieces negb digit_run all_chars]. rewrite Hc. cbn [andb].
        now rewrite Ht, Hr.
      * cbn [List.length] in *. now rewrite Nat.odd_succ, Nat.even_succ.
  - split; auto. simpl. unfold text_piece in *. simpl. now rewrite Hc, Ht, Hr.
Qed.

Lemma re_split_all_chars (p : ascii -> bool) (s : string) :
  all_chars p s = true -> forallb (all_chars p) (re_split s) = true.
Proof.
  induction s as [|c s IH]; simpl; auto.
  rewrite andb_true_iff. intros [Hc Hs]. specialize (IH Hs).
  destruct (re_split s) as [|t rest]; auto.
  simpl in IH. apply andb_true_iff in IH as [Ht Hr].
  destruct (is_ascii_digit c).
  - destruct t as [|x t]; [destruct rest as [|d rest]|]; simpl in *.
    + now rewrite Hc.
    + apply andb_true_iff in Hr as [Hd Hr]. now rewrite Hc, Hd, Hr.
    + now rewrite Hc, Ht, Hr.
  - simpl. now rewrite Hc, Ht, Hr.
Qed.

(** A string without ASCII digits is a single piece. *)
Lemma re_split_text (t : string) : text_piece t = true -> re_split t = [t].
Proof.
  unfold text_piece. induction t as [|c t IH]; simpl; auto.
  rewrite andb_true_iff, negb_true_iff. intros [Hc Ht].
  now rewrite (IH Ht), Hc.
Qed.

Lemma re_split_head (s : string) :
  starts_with_digit s = false ->
  s = "" \/ exists c t rest, re_split s = String c t :: rest.
Proof.
  destruct s as [|c s]; simpl; auto. intros Hc. right.
  destruct (re_split s) as [|t rest] eqn:E; [now apply re_split_nonempty in E|].
  rewrite Hc. eauto.
Qed.

(** A digit run in front of a string that does not start with a digit. *)
Lemma re_split_digits (d s : string) :
  digit_run d = true -> starts_with_digit s = false ->
  re_split (d ++ s) = "" :: d :: re_split s.
Proof.
  intros Hd Hs. destruct d as [|c d]; [discriminate|].
  simpl in Hd. apply andb_true_iff in Hd as [Hc Hd].
  revert c Hc. induction d as [|c' d IH]; intros c Hc.
  - simpl. rewrite Hc.
    destruct (re_split_head s Hs) as [-> | (x & t & rest & ->)]; reflexivity.
  - simpl in Hd. apply andb_true_iff in Hd as [Hc' Hd].
    change (String c (String c' d) ++ s) with (String c (String c' d ++ s)).
    cbn [re_split]. rewrite (IH Hd c' Hc'). now rewrite Hc.
Qed.

(** Splitting distributes over [prefix ++ digits ++ suffix] when the digits
    are a whole run. *)
Lemma re_split_app (p d s : string) :
  ends_with_digit p = false -> digit_run d = true -> starts_with_digit s = false ->
  re_split (p ++ d ++ s) = (re_split p ++ d :: re_split s)%list.
Proof.
  intros Hp Hd Hs. induction p as [|c p IH].
  - simpl. now rewrite (re_split_digits d s Hd Hs).
  - assert (Hp' : ends_with_digit p = false) by (destruct p; auto).
    specialize (IH Hp').
    change (String c p ++ d ++ s) with (String c (p ++ d ++ s)).
    cbn [re_split]. rewrite IH.
    pose proof (re_split_concat p) as Hcat.
    destruct (re_split p) as [|t rest] eqn:E; [now apply re_split_nonempty in E|].
    cbn [app].
    destruct (is_ascii_digit c) eqn:Hc; [|reflexivity].
    destruct t as [|x t]; [|reflexivity].
    destruct rest as [|d0 rest]; [|reflexivity].
    simpl in Hcat. subst p. simpl in Hp. congruence.
Qed.

(** ** convert and alphanum_key *)

Lemma comprehension_app {A B} (f : A -> result B) (l1 l2 : list A) k1 k2 :
  comprehension f l1 = Ok k1 -> comprehension f l2 = Ok k2 ->
  comprehension f (l1 ++ l2)%list = Ok (k1 ++ k2)%list.
Proof.
  revert k1. induction l1 as [|x l1 IH]; simpl; intros k1 H1 H2.
  - now inversion H1.
  - destruct (f x) as [y|e]; simpl in *; [|discriminate].
    destruct (comprehension f l1) as [ys|e]; simpl in *; [|discriminate].
    inversion H1; subst. now rewrite (IH ys eq_refl H2).
Qed.

Lemma comprehension_length {A B} (f : A -> result B) (l : list A) k :
  comprehension f l = Ok k -> List.length k = List.length l.
Proof.
  revert k. induction l as [|x l IH]; simpl; intros k H.
  - now inversion H.
  - destruct (f x) as [y|e]; simpl in *; [|discriminate].
    destruct (comprehension f l) as [ys|e]; simpl in *; [|discriminate].
    inversion H; subst. simpl. now rewrite (IH ys).
Qed.

Lemma convert_digit_run (d : string) :
  digit_run d = true -> convert d = Ok (TInt (decimal 0 d)).
Proof.
  unfold convert, isdigit, int, digit_run. destruct d as [|c d]; [discriminate|].
  intros H. rewrite H.
  now rewrite (all_chars_impl _ char_isdigit _ ascii_digit_isdigit H).
Qed.

(** A text piece converts to a [str] whenever it converts at all. *)
Lemma convert_text_piece (t : string) (x : token) :
  text_piece t = true -> convert t = Ok x -> x = TStr (lower t).
Proof.
  unfold convert, isdigit, int, text_piece. destruct t as [|c t].
  - intros _ H. now inversion H.
  - intros Ht. destruct (all_chars char_isdigit (String c t)).
    + simpl in Ht. apply andb_true_iff in Ht as [Hc _].
      simpl. apply negb_true_iff in Hc. rewrite Hc. simpl. discriminate.
    + intros H. now inversion H.
Qed.

Lemma convert_text (t : string) :
  is_text t = true -> convert t = Ok (TStr (lower t)).
Proof.
  unfold convert, isdigit, is_text. destruct t as [|c t]; auto.
  simpl. rewrite andb_true_iff, negb_true_iff. now intros [-> _].
Qed.

Lemma convert_ascii_text (t : string) :
  text_piece t = true -> is_ascii t = true -> convert t = Ok (TStr (lower t)).
Proof.
  unfold convert, isdigit, is_ascii, text_piece. destruct t as [|c t]; auto.
  simpl. rewrite !andb_true_iff, negb_true_iff. intros [Hc _] [Ha _].
  now rewrite (isdigit_ascii c Ha), Hc.
Qed.

Lemma is_text_text_piece (t : string) : is_text t = true -> text_piece t = true.
Proof.
  apply all_chars_impl. intros c. rewrite !negb_true_iff.
  destruct (is_ascii_digit c) eqn:E; auto.
  now rewrite (ascii_digit_isdigit c E).
Qed.

Lemma is_text_no_digit_end (t : string) :
  is_text t = true -> ends_with_digit t = false /\ starts_with_digit t = false.
Proof.
  intros H. apply is_text_text_piece in H. unfold text_piece in H. split.
  - induction t as [|c t IH]; auto. simpl in H.
    apply andb_true_iff in H as [Hc Ht]. apply negb_true_iff in Hc.
    destruct t; simpl; auto.
  - destruct t; simpl in *; auto. apply andb_true_iff in H as [Hc _].
    now apply negb_true_iff in Hc.
Qed.

(** Converting pieces that alternate gives elements that alternate. *)
Lemma comprehension_alternates (b : bool) (l : list string) (k : list token) :
  pieces b l = true -> comprehension convert l = Ok k -> alternates b k = true.
Proof.
  revert b k. induction l as [|t l IH]; simpl; intros b k Hp H.
  - now inversion H.
  - apply andb_true_iff in Hp as [Ht Hl].
    destruct (convert t) as [x|e] eqn:Ex; simpl in H; [|discriminate].
    destruct (comprehension convert l) as [ys|e] eqn:Ey; simpl in H; [|discriminate].
    inversion H; subst. specialize (IH _ _ Hl eq_refl).
    destruct b; simpl in *.
    + rewrite (convert_digit_run t Ht) in Ex. inversion Ex; subst. exact IH.
    + rewrite (convert_text_piece t x Ht Ex). exact IH.
Qed.

(** Every key that [alphanum_key] returns starts with a [str], alternates
    [str] and [int], and has odd length (so it also ends with a [str]). *)
Lemma alphanum_key_shape (s : string) (k : list token) :
  alphanum_key s = Ok k ->
  alternates false k = true /\ Nat.odd (List.length k) = true.
Proof.
  unfold alphanum_key. intros H. destruct (re_split_pieces s) as [Hp Ho]. split.
  - exact (comprehension_alternates _ _ _ Hp H).
  - now rewrite (comprehension_length _ _ _ H).
Qed.

Lemma alternates_nth (b : bool) (k : list token) (i : nat) (x : token) :
  alternates b k = true -> nth_error k i = Some x ->
  is_int x = xorb b (Nat.odd i).
Proof.
  revert b i. induction k as [|y k IH]; intros b i Hk Hi.
  - destruct i; discriminate.
  - destruct i as [|i]; simpl in Hi.
    + injection Hi as ->. destruct x, b; simpl in *; auto; discriminate.
    + assert (Hk' : alternates (negb b) k = true)
        by (destruct y, b; simpl in *; auto; discriminate).
      rewrite (IH _ _ Hk' Hi), Nat.odd_succ, <- Nat.negb_odd.
      now destruct b, (Nat.odd i).
Qed.

(** By position: a returned key is not empty, holds a [str] at every
    even index and an [int] at every odd one, and its last index is
    even. *)
Lemma alphanum_key_positions (s : string) (k : list token) :
  alphanum_key s = Ok k ->
  k <> []
  /\ Nat.even (List.length k - 1) = true
  /\ forall i x, nth_error k i = Some x ->
       is_str x = Nat.even i /\ is_int x = Nat.odd i.
Proof.
  intros H. destruct (alphanum_key_shape s k H) as [Ha Ho]. split; [|split].
  - intros ->. discriminate.
  - destruct k as [|x k]; [discriminate|]. simpl List.length in *.
    rewrite Nat.sub_succ, Nat.sub_0_r. now rewrite Nat.odd_succ in Ho.
  - intros i x Hi. pose proof (alternates_nth false k i x Ha Hi) as G.
    simpl in G. split; auto. rewrite <- Nat.negb_odd, <- G. now destruct x.
Qed.

Lemma comprehension_ascii (b : bool) (l : list string) :
  pieces b l = true -> forallb is_ascii l = true ->
  exists k, comprehension convert l = Ok k.
Proof.
  revert b. induction l as [|t l IH]; simpl; intros b Hp Ha; eauto.
  apply andb_true_iff in Hp as [Ht Hl]. apply andb_true_iff in Ha as [Hat Hal].
  destruct (IH _ Hl Hal) as [ks ->].
  destruct b.
  - rewrite (convert_digit_run t Ht). simpl. eauto.
  - rewrite (convert_ascii_text t Ht Hat). simpl. eauto.
Qed.

(** On ASCII names the key function never raises. *)
Lemma alphanum_key_ascii (s : string) :
  is_ascii s = true -> exists k, alphanum_key s = Ok k.
Proof.
  intros H. unfold alphanum_key. destruct (re_split_pieces s) as [Hp _].
  apply (comprehension_ascii _ _ Hp). now apply re_split_all_chars.
Qed.

Lemma alphanum_key_text (t : string) :
  is_text t = true -> alphanum_key t = Ok [TStr (lower t)].
Proof.
  intros H. unfold alphanum_key.
  rewrite (re_split_text t (is_text_text_piece t H)). simpl.
  now rewrite (convert_text t H).
Qed.

(** The key of [prefix ++ digits ++ suffix], the digits being a whole run. *)
Lemma alphanum_key_app (p d s : string) (kp ks : list token) :
  ends_with_digit p = false -> digit_run d = true -> starts_with_digit s = false ->
  alphanum_key p = Ok kp -> alphanum_key s = Ok ks ->
  alphanum_key (p ++ d ++ s) = Ok (kp ++ TInt (decimal 0 d) :: ks)%list.
Proof.
  intros Hp Hd Hs Hkp Hks. unfold alphanum_key in *.
  rewrite (re_split_app p d s Hp Hd Hs).
  apply comprehension_app; auto.
  simpl. now rewrite (convert_digit_run d Hd), Hks.
Qed.

(** ** Comparing keys *)

Lemma token_eqb_eq (x y : token) : token_eqb x y = true <-> x = y.
Proof.
  destruct x as [a|a], y as [b|b]; simpl; split; try discriminate.
  - rewrite Z.eqb_eq. congruence.
  - intros H. inversion H. apply Z.eqb_refl.
  - rewrite String.eqb_eq. congruence.
  - intros H. inversion H. apply String.eqb_refl.
Qed.

Lemma token_eqb_refl (x : token) : token_eqb x x = true.
Proof. now apply token_eqb_eq. Qed.

Lemma token_eqb_sym (x y : token) : token_eqb x y = token_eqb y x.
Proof.
  destruct (token_eqb x y) eqn:E1, (token_eqb y x) eqn:E2; auto.
  - apply token_eqb_eq in E1. subst. now rewrite token_eqb_refl in E2.
  - apply token_eqb_eq in E2. subst. now rewrite token_eqb_refl in E1.
Qed.

Lemma token_lt_irrefl (x : token) : token_lt x x = Ok false.
Proof.
  destruct x; simpl; [now rewrite Z.ltb_irrefl | now rewrite str_lt_irrefl].
Qed.

Lemma token_lt_trans (x y z : token) :
  token_lt x y = Ok true -> token_lt y z = Ok true -> token_lt x z = Ok true.
Proof.
  destruct x as [a|a], y as [b|b], z as [c|c]; simpl; try discriminate;
    intros H1 H2; injection H1 as H1; injection H2 as H2; f_equal.
  - apply Z.ltb_lt. apply Z.ltb_lt in H1, H2. lia.
  - now apply (str_lt_trans a b c).
Qed.

Lemma token_lt_asym (x y : token) :
  token_lt x y = Ok true -> token_lt y x = Ok false.
Proof.
  destruct x as [a|a], y as [b|b]; simpl; try discriminate;
    intros H; injection H as H; f_equal.
  - apply Z.ltb_lt in H. apply Z.ltb_ge. lia.
  - now apply str_lt_asym.
Qed.

Lemma token_lt_neq (x y : token) : token_lt x y = Ok true -> token_eqb x y = false.
Proof.
  intros H. destruct (token_eqb x y) eqn:E; auto.
  apply token_eqb_eq in E. subst. rewrite token_lt_irrefl in H. discriminate.
Qed.

Lemma token_lt_total (x y : token) :
  token_lt x y = Ok false -> token_lt y x = Ok false -> x = y.
Proof.
  destruct x as [a|a], y as [b|b]; simpl; try discriminate;
    intros H1 H2; injection H1 as H1; injection H2 as H2; f_equal.
  - apply Z.ltb_ge in H1, H2. lia.
  - now apply str_lt_total.
Qed.

Lemma list_lt_irrefl (k : list token) : list_lt k k = Ok false.
Proof. induction k as [|x k IH]; simpl; auto. now rewrite token_eqb_refl. Qed.

Lemma list_lt_trans (k1 k2 k3 : list token) :
  list_lt k1 k2 = Ok true -> list_lt k2 k3 = Ok true -> list_lt k1 k3 = Ok true.
Proof.
  revert k2 k3. induction k1 as [|x k1 IH]; intros [|y k2] [|z k3]; simpl;
    try discriminate; auto.
  destruct (token_eqb x y) eqn:Exy; destruct (token_eqb y z) eqn:Eyz.
  - apply token_eqb_eq in Exy, Eyz. subst. rewrite token_eqb_refl. apply IH.
  - apply token_eqb_eq in Exy. subst. now rewrite Eyz.
  - apply token_eqb_eq in Eyz. subst. now rewrite Exy.
  - intros H1 H2. pose proof (token_lt_trans _ _ _ H1 H2) as H.
    now rewrite (token_lt_neq _ _ H).
Qed.

Lemma list_lt_asym (k1 k2 : list token) :
  list_lt k1 k2 = Ok true -> list_lt k2 k1 = Ok false.
Proof.
  revert k2. induction k1 as [|x k1 IH]; intros [|y k2]; simpl;
    try discriminate; auto.
  rewrite (token_eqb_sym y x).
  destruct (token_eqb x y); auto using token_lt_asym.
Qed.

(** Two lists that alternate alike are always comparable: [<] at a
    position meets two elements of one type. *)
Lemma list_lt_ok (b : bool) (k1 k2 : list token) :
  alternates b k1 = true -> alternates b k2 = true ->
  exists r, list_lt k1 k2 = Ok r.
Proof.
  revert b k2. induction k1 as [|x k1 IH]; intros b [|y k2]; simpl; eauto.
  destruct x as [n|s], y as [m|t]; destruct b; simpl; try discriminate;
    intros H1 H2.
  - destruct (n =? m)%Z; eauto.
  - destruct (String.eqb s t); eauto.
Qed.

Lemma list_lt_total (b : bool) (k1 k2 : list token) :
  alternates b k1 = true -> alternates b k2 = true ->
  list_lt k1 k2 = Ok false -> list_lt k2 k1 = Ok false -> k1 = k2.
Proof.
  revert b k2. induction k1 as [|x k1 IH]; intros b [|y k2]; simpl;
    try discriminate; auto.
  rewrite (token_eqb_sym y x).
  intros A1 A2.
  assert (A1' : alternates (negb b) k1 = true)
    by (destruct x, b; simpl in *; auto; discriminate).
  assert (A2' : alternates (negb b) k2 = true)
    by (destruct y, b; simpl in *; auto; discriminate).
  destruct (token_eqb x y) eqn:E.
  - apply token_eqb_eq in E. subst. intros H1 H2. f_equal. eauto.
  - intros H1 H2. rewrite (token_lt_total _ _ H1 H2) in E.
    now rewrite token_eqb_refl in E.
Qed.

(** Not being smaller is transitive on lists that alternate alike. *)
Lemma list_ge_trans (b : bool) (k1 k2 k3 : list token) :
  alternates b k1 = true -> alternates b k2 = true -> alternates b k3 = true ->
  list_lt k2 k1 = Ok false -> list_lt k3 k2 = Ok false -> list_lt k3 k1 = Ok false.
Proof.
  intros A1 A2 A3 H21 H32.
  destruct (list_lt_ok _ _ _ A3 A1) as [[|] H31]; auto.
  destruct (list_lt_ok _ _ _ A2 A3) as [[|] H23].
  - rewrite (list_lt_trans _ _ _ H23 H31) in H21. discriminate.
  - rewrite (list_lt_total _ _ _ A2 A3 H23 H32) in H21. congruence.
Qed.

(** ** sorted *)

Section SortedFacts.
Variables K A : Type.
Variable lt : K -> K -> result bool.

Lemma insert_perm (x : K * A) (l r : list (K * A)) :
  insert lt x l = Ok r -> Permutation (x :: l) r.
Proof.
  revert r. induction l as [|y l IH]; simpl; intros r H.
  - injection H as <-. apply Permutation_refl.
  - destruct (lt (fst y) (fst x)) as [[|]|e]; simpl in H; try discriminate.
    + destruct (insert lt x l) as [r'|e]; simpl in H; [|discriminate].
      injection H as <-. rewrite perm_swap. apply perm_skip. now apply IH.
    + injection H as <-. apply Permutation_refl.
Qed.

Lemma sort_pairs_perm (l r : list (K * A)) :
  sort_pairs lt l = Ok r -> Permutation l r.
Proof.
  revert r. induction l as [|x l IH]; simpl; intros r H.
  - injection H as <-. apply perm_nil.
  - destruct (sort_pairs lt l) as [r'|e]; simpl in H; [|discriminate].
    rewrite (IH r' eq_refl). now apply insert_perm.
Qed.

(** The keys on which the comparison behaves. *)
Variable good : K -> Prop.
Hypothesis lt_ok : forall a b, good a -> good b -> exists r, lt a b = Ok r.
Hypothesis lt_asym : forall a b, lt a b = Ok true -> lt b a = Ok false.
Hypothesis ge_trans : forall a b c, good a -> good b -> good c ->
  lt b a = Ok false -> lt c b = Ok false -> lt c a = Ok false.


Lemma insert_total (x : K * A) (l : list (K * A)) :
  good (fst x) -> Forall (fun p => good (fst p)) l -> exists r, insert lt x l = Ok r.
Proof.
  intros Hx. induction l as [|y l IH]; simpl; intros Hl; eauto.
  inversion Hl as [|? ? Hy Hl']; subst.
  destruct (lt_ok (fst y) (fst x) Hy Hx) as [[|] ->]; simpl; eauto.
  destruct (IH Hl') as [r ->]. simpl. eauto.
Qed.

Lemma sort_pairs_total (l : list (K * A)) :
  Forall (fun p => good (fst p)) l -> exists r, sort_pairs lt l = Ok r.
Proof.
  induction l as [|x l IH]; simpl; intros Hl; eauto.
  inversion Hl as [|? ? Hx Hl']; subst.
  destruct (IH Hl') as [r Hr]. rewrite Hr. simpl.
  apply insert_total; auto.
  now rewrite <- (sort_pairs_perm l r Hr).
Qed.

Lemma insert_sorted (x : K * A) (l r : list (K * A)) :
  good (fst x) -> Forall (fun p => good (fst p)) l -> StronglySorted (in_order lt) l ->
  insert lt x l = Ok r -> StronglySorted (in_order lt) r.
Proof.
  intros Hx. revert r. induction l as [|y l IH]; simpl; intros r Hl Hs H.
  - injection H as <-. repeat constructor.
  - inversion Hl as [|? ? Hy Hl']; subst.
    inversion Hs as [|? ? Hs' Hy']; subst.
    destruct (lt (fst y) (fst x)) as [[|]|e] eqn:E; simpl in H; try discriminate.
    + destruct (insert lt x l) as [r'|e] eqn:Er; simpl in H; [|discriminate].
      injection H as <-. constructor; [now apply IH|].
      rewrite <- (insert_perm x l r' Er). constructor; auto.
      now apply lt_asym.
    + injection H as <-. constructor; auto. constructor; [exact E|].
      rewrite Forall_forall in *. intros z Hz.
      unfold in_order in *. apply (ge_trans (fst x) (fst y) (fst z)); auto.
Qed.

Lemma sort_pairs_sorted (l r : list (K * A)) :
  Forall (fun p => good (fst p)) l -> sort_pairs lt l = Ok r -> StronglySorted (in_order lt) r.
Proof.
  revert r. induction l as [|x l IH]; simpl; intros r Hl H.
  - injection H as <-. constructor.
  - inversion Hl as [|? ? Hx Hl']; subst.
    destruct (sort_pairs lt l) as [r'|e] eqn:Er; simpl in H; [|discriminate].
    apply (insert_sorted x r' r); auto.
    now rewrite <- (sort_pairs_perm l r' Er).
Qed.

(** A list already in order is left as it is. *)
Lemma sort_pairs_fixed (l : list (K * A)) :
  StronglySorted (in_order lt) l -> sort_pairs lt l = Ok l.
Proof.
  induction l as [|x l IH]; simpl; intros Hs; auto.
  inversion Hs as [|? ? Hs' Hx]; subst.
  rewrite (IH Hs'). simpl.
  destruct l as [|y l]; simpl; auto.
  inversion Hx as [|? ? Hy _]; subst. unfold in_order in Hy. now rewrite Hy.
Qed.

Lemma sorted_nth (R : K * A -> K * A -> Prop) (l : list (K * A)) i j x y :
  StronglySorted R l -> (i < j)%nat ->
  nth_error l i = Some x -> nth_error l j = Some y -> R x y.
Proof.
  intros Hs. revert i j. induction Hs as [|z l Hs IH Hz]; intros i j Hij Hi Hj.
  - destruct i; discriminate.
  - destruct j as [|j]; [lia|]. simpl in Hj. destruct i as [|i]; simpl in Hi.
    + injection Hi as <-. rewrite Forall_forall in Hz. apply Hz.
      eapply nth_error_In; eauto.
    + apply (IH i j); auto. lia.
Qed.
End SortedFacts.

(** ** natural_sort *)

Section Decorate.
Variables K A : Type.
Variable key : A -> result K.

Lemma decorate_snd (l : list A) (ks : list K) :
  comprehension key l = Ok ks -> map snd (combine ks l) = l.
Proof.
  revert ks. induction l as [|x l IH]; simpl; intros ks H.
  - injection H as <-. reflexivity.
  - destruct (key x) as [k|e]; simpl in H; [|discriminate].
    destruct (comprehension key l) as [ks'|e]; simpl in H; [|discriminate].
    injection H as <-. simpl. now rewrite (IH ks').
Qed.

Lemma decorate_keyed (l : list A) (ks : list K) :
  comprehension key l = Ok ks ->
  Forall (fun p => key (snd p) = Ok (fst p)) (combine ks l).
Proof.
  revert ks. induction l as [|x l IH]; simpl; intros ks H.
  - injection H as <-. constructor.
  - destruct (key x) as [k|e] eqn:E; simpl in H; [|discriminate].
    destruct (comprehension key l) as [ks'|e]; simpl in H; [|discriminate].
    injection H as <-. simpl. constructor; auto.
Qed.

Lemma undecorate (r : list (K * A)) :
  Forall (fun p => key (snd p) = Ok (fst p)) r ->
  comprehension key (map snd r) = Ok (map fst r)
  /\ combine (map fst r) (map snd r) = r.
Proof.
  induction 1 as [|[k x] r Hx Hr [IH1 IH2]]; simpl; auto.
  simpl in Hx. rewrite Hx, IH1, IH2. auto.
Qed.
End Decorate.

Lemma natural_sort_unfold (l l' : list string) :
  natural_sort l = Ok l' ->
  exists r, sort_pairs list_lt r = Ok r
            /\ StronglySorted (in_order list_lt) r
            /\ Forall (fun p => alphanum_key (snd p) = Ok (fst p)) r
            /\ Permutation l (map snd r) /\ l' = map snd r.
Proof.
  unfold natural_sort, sorted. intros H.
  destruct (comprehension alphanum_key l) as [ks|e] eqn:Ek; simpl in H; [|discriminate].
  destruct (sort_pairs list_lt (combine ks l)) as [r|e] eqn:Er; simpl in H; [|discriminate].
  injection H as <-. exists r.
  pose proof (decorate_keyed _ _ alphanum_key l ks Ek) as Hk.
  pose proof (sort_pairs_perm _ _ list_lt _ _ Er) as Hp.
  assert (Hg : Forall (fun p : list token * string => alternates false (fst p) = true)
                 (combine ks l)).
  { eapply Forall_impl; [|exact Hk]. intros p Hp'. simpl in Hp'.
    now apply (alphanum_key_shape (snd p)). }
  assert (Hs : StronglySorted (in_order list_lt) r).
  { apply (sort_pairs_sorted _ _ list_lt (fun k => alternates false k = true))
      with (l := combine ks l); auto.
    - apply list_lt_asym.
    - apply list_ge_trans. }
  repeat split; auto.
  - now apply sort_pairs_fixed.
  - now rewrite <- Hp.
  - rewrite <- Hp. now rewrite (decorate_snd _ _ alphanum_key l ks Ek).
Qed.

(** What [natural_sort] returns is a rearrangement of its argument. *)
Lemma natural_sort_perm (l l' : list string) :
  natural_sort l = Ok l' -> Permutation l l'.
Proof.
  intros H. destruct (natural_sort_unfold l l' H) as (r & _ & _ & _ & Hp & ->).
  exact Hp.
Qed.

(** [natural_sort] raises only what a key raises: comparisons never do. *)
Lemma natural_sort_keys (l : list string) (ks : list (list token)) :
  comprehension alphanum_key l = Ok ks -> exists l', natural_sort l = Ok l'.
Proof.
  intros Ek. unfold natural_sort, sorted. rewrite Ek. simpl.
  pose proof (decorate_keyed _ _ alphanum_key l ks Ek) as Hk.
  assert (Hr : exists r, sort_pairs list_lt (combine ks l) = Ok r).
  { apply (sort_pairs_total (list token) string list_lt
             (fun k => alternates false k = true)).
    - intros a b. apply list_lt_ok.
    - eapply Forall_impl; [|exact Hk]. intros p Hp. simpl in Hp.
      now apply (alphanum_key_shape (snd p)). }
  destruct Hr as [r ->]. simpl. eauto.
Qed.

Lemma comprehension_total {A B} (f : A -> result B) (l : list A) :
  Forall (fun x => exists y, f x = Ok y) l -> exists ys, comprehension f l = Ok ys.
Proof.
  induction 1 as [|x l [y Hy] _ [ys IH]]; simpl; eauto.
  rewrite Hy, IH. simpl. eauto.
Qed.

(** On ASCII names [natural_sort] returns. *)
Lemma natural_sort_ascii (l : list string) :
  forallb is_ascii l = true -> exists l', natural_sort l = Ok l'.
Proof.
  intros H.
  destruct (comprehension_total alphanum_key l) as [ks Hks].
  - rewrite forallb_forall in H. apply Forall_forall. intros x Hx.
    apply alphanum_key_ascii. auto.
  - now apply (natural_sort_keys l ks).
Qed.

(** Sorting a sorted list changes nothing. *)
Lemma natural_sort_idem (l l' : list string) :
  natural_sort l = Ok l' -> natural_sort l' = Ok l'.
Proof.
  intros H. destruct (natural_sort_unfold l l' H) as (r & Hf & _ & Hk & _ & ->).
  destruct (undecorate _ _ alphanum_key r Hk) as [H1 H2].
  unfold natural_sort, sorted. rewrite H1. simpl. rewrite H2, Hf. reflexivity.
Qed.

(** In the output a name stands before another only if the other is not
    smaller. *)
Lemma natural_sort_in_order (l l' : list string) (i j : nat) (x y : string) :
  natural_sort l = Ok l' -> (i < j)%nat ->
  nth_error l' i = Some x -> nth_error l' j = Some y ->
  natural_lt y x = Ok false.
Proof.
  intros H Hij Hi Hj.
  destruct (natural_sort_unfold l l' H) as (r & _ & Hs & Hk & _ & ->).
  rewrite nth_error_map in Hi, Hj.
  destruct (nth_error r i) as [[kx x']|] eqn:Ei; [|discriminate].
  destruct (nth_error r j) as [[ky y']|] eqn:Ej; [|discriminate].
  simpl in Hi, Hj. injection Hi as ->. injection Hj as ->.
  pose proof (sorted_nth _ _ _ r i j _ _ Hs Hij Ei Ej) as Ho.
  rewrite Forall_forall in Hk.
  pose proof (Hk _ (nth_error_In _ _ Ei)) as Hx.
  pose proof (Hk _ (nth_error_In _ _ Ej)) as Hy.
  simpl in Hx, Hy. unfold natural_lt. rewrite Hy, Hx. exact Ho.
Qed.

(** ** Stability *)

Section Stable.
Variables K A : Type.
Variable lt : K -> K -> result bool.

(** A class of keys none of which is smaller than another. *)
Variable same : K -> bool.
Hypothesis same_not_lt :
  forall a b, same a = true -> same b = true -> lt a b = Ok false.

Lemma insert_filter (x : K * A) (l r : list (K * A)) :
  insert lt x l = Ok r ->
  filter (fun p => same (fst p)) r = filter (fun p => same (fst p)) (x :: l).
Proof.
  revert r. induction l as [|y l IH]; simpl; intros r H.
  - injection H as <-. reflexivity.
  - destruct (lt (fst y) (fst x)) as [[|]|e] eqn:E; simpl in H; try discriminate.
    + destruct (insert lt x l) as [r'|e]; simpl in H; [|discriminate].
      injection H as <-. simpl. rewrite (IH r' eq_refl). simpl.
      destruct (same (fst y)) eqn:Sy, (same (fst x)) eqn:Sx; auto.
      rewrite (same_not_lt _ _ Sy Sx) in E. discriminate.
    + injection H as <-. reflexivity.
Qed.

Lemma sort_pairs_filter (l r : list (K * A)) :
  sort_pairs lt l = Ok r ->
  filter (fun p => same (fst p)) r = filter (fun p => same (fst p)) l.
Proof.
  revert r. induction l as [|x l IH]; simpl; intros r H.
  - injection H as <-. reflexivity.
  - destruct (sort_pairs lt l) as [r'|e]; simpl in H; [|discriminate].
    rewrite (insert_filter x r' r H). simpl. now rewrite (IH r' eq_refl).
Qed.
End Stable.

Lemma list_eqb_eq (k1 k2 : list token) : list_eqb k1 k2 = true <-> k1 = k2.
Proof.
  revert k2. induction k1 as [|x k1 IH]; intros [|y k2]; simpl;
    try (split; [discriminate | congruence]); try tauto.
  rewrite andb_true_iff, token_eqb_eq, IH. split.
  - intros [-> ->]. reflexivity.
  - intros H. injection H as -> ->. auto.
Qed.

Lemma filter_keyed (k : list token) (r : list (list token * string)) :
  Forall (fun p => alphanum_key (snd p) = Ok (fst p)) r ->
  filter (has_key k) (map snd r) = map snd (filter (fun p => list_eqb k (fst p)) r).
Proof.
  induction 1 as [|[kx x] r Hx _ IH]; simpl; auto.
  simpl in Hx. unfold has_key at 1. rewrite Hx, IH.
  now destruct (list_eqb k kx).
Qed.

(** The sort is stable: the names that share a key come out in the order
    in which they went in. *)
Lemma natural_sort_stable (l l' : list string) (k : list token) :
  natural_sort l = Ok l' -> filter (has_key k) l' = filter (has_key k) l.
Proof.
  unfold natural_sort, sorted. intros H.
  destruct (comprehension alphanum_key l) as [ks|e] eqn:Ek; simpl in H; [|discriminate].
  destruct (sort_pairs list_lt (combine ks l)) as [r|e] eqn:Er; simpl in H; [|discriminate].
  injection H as <-.
  pose proof (decorate_keyed _ _ alphanum_key l ks Ek) as Hk.
  assert (Hr : Forall (fun p => alphanum_key (snd p) = Ok (fst p)) r)
    by now rewrite <- (sort_pairs_perm _ _ list_lt _ _ Er).
  rewrite (filter_keyed k r Hr).
  rewrite (sort_pairs_filter _ _ list_lt (list_eqb k)) with (l := combine ks l); auto.
  - rewrite <- (filter_keyed k _ Hk). now rewrite (decorate_snd _ _ alphanum_key l ks Ek).
  - intros a b Ha Hb. apply list_eqb_eq in Ha, Hb. subst. apply list_lt_irrefl.
Qed.

(** ** Names of the form text, digits, text *)

Lemma natural_lt_irrefl (a : string) (r : bool) : natural_lt a a = Ok r -> r = false.
Proof.
  unfold natural_lt. destruct (alphanum_key a) as [k|e]; simpl; [|discriminate].
  rewrite list_lt_irrefl. congruence.
Qed.

Lemma natural_sort_pair (a b : string) :
  natural_lt a b = Ok true ->
  natural_sort [a; b] = Ok [a; b] /\ natural_sort [b; a] = Ok [a; b].
Proof.
  unfold natural_lt, natural_sort, sorted. simpl.
  destruct (alphanum_key a) as [ka|e]; simpl; [|discriminate].
  destruct (alphanum_key b) as [kb|e]; simpl; [|discriminate].
  intros H. rewrite (list_lt_asym ka kb H), H. simpl. auto.
Qed.

Lemma natural_compare_lt (a b : string) :
  natural_lt a b = Ok true -> natural_compare a b = Ok Lt.
Proof.
  unfold natural_lt, natural_compare.
  destruct (alphanum_key a) as [ka|e]; simpl; [|discriminate].
  destruct (alphanum_key b) as [kb|e]; simpl; [|discriminate].
  intros H. now rewrite H, (list_lt_asym ka kb H).
Qed.

(** The key of a name made of text, one digit run, and a suffix that
    does not go on with a digit. *)
Lemma alphanum_key_numbered (p d s : string) (ks : list token) :
  is_text p = true -> digit_run d = true ->
  starts_with_digit s = false -> alphanum_key s = Ok ks ->
  alphanum_key (p ++ d ++ s)
  = Ok (TStr (lower p) :: TInt (decimal 0 d) :: ks).
Proof.
  intros Hp Hd Hs Hks.
  apply (alphanum_key_app p d s [TStr (lower p)] ks); auto.
  - now apply is_text_no_digit_end.
  - now apply alphanum_key_text.
Qed.

Lemma natural_lt_numbered (p d1 d2 s : string) (ks : list token) :
  is_text p = true -> digit_run d1 = true -> digit_run d2 = true ->
  starts_with_digit s = false -> alphanum_key s = Ok ks ->
  natural_lt (p ++ d1 ++ s) (p ++ d2 ++ s) = Ok (decimal 0 d1 <? decimal 0 d2).
Proof.
  intros Hp H1 H2 Hs Hks. unfold natural_lt.
  rewrite (alphanum_key_numbered p d1 s ks Hp H1 Hs Hks).
  rewrite (alphanum_key_numbered p d2 s ks Hp H2 Hs Hks). simpl.
  rewrite String.eqb_refl.
  destruct (decimal 0 d1 =? decimal 0 d2) eqn:E; auto.
  apply Z.eqb_eq in E. rewrite E, Z.ltb_irrefl. apply list_lt_irrefl.
Qed.

(** C1. Two names [p ++ d1 ++ s] and [p ++ d2 ++ s] with a shared text
    prefix [p], digit runs [d1] and [d2], and a shared suffix [s] (one
    that does not go on with a digit and has a key, as every ASCII suffix
    has) are ordered by the integer values of the runs, whatever the
    number of digits or leading zeros: when [d1] is worth less than [d2]
    the first name compares smaller, [natural_sort] puts it first
    whichever way the pair comes in, and in every list that
    [natural_sort] returns it stands before the second.  In particular
    frame9.png, frame10.png, frame22.png come out in that order. *)
Theorem natural_sort_numeric_order (p d1 d2 s : string) (ks : list token) :
  is_text p = true -> digit_run d1 = true -> digit_run d2 = true ->
  starts_with_digit s = false -> alphanum_key s = Ok ks ->
  decimal 0 d1 < decimal 0 d2 ->
  natural_compare (p ++ d1 ++ s) (p ++ d2 ++ s) = Ok Lt
  /\ natural_sort [p ++ d1 ++ s; p ++ d2 ++ s] = Ok [p ++ d1 ++ s; p ++ d2 ++ s]
  /\ natural_sort [p ++ d2 ++ s; p ++ d1 ++ s] = Ok [p ++ d1 ++ s; p ++ d2 ++ s]
  /\ (forall l l' i j,
        natural_sort l = Ok l' ->
        nth_error l' i = Some (p ++ d1 ++ s) ->
        nth_error l' j = Some (p ++ d2 ++ s) -> (i < j)%nat)
  /\ natural_sort ["frame22.png"; "frame9.png"; "frame10.png"]
     = Ok ["frame9.png"; "frame10.png"; "frame22.png"].
Proof.
  intros Hp H1 H2 Hs Hks Hlt.
  assert (L : natural_lt (p ++ d1 ++ s) (p ++ d2 ++ s) = Ok true).
  { rewrite (natural_lt_numbered p d1 d2 s ks) by assumption.
    f_equal. now apply Z.ltb_lt. }
  split; [now apply natural_compare_lt|].
  split; [now apply natural_sort_pair|].
  split; [now apply natural_sort_pair|].
  split; [|reflexivity].
  intros l l' i j Hsort Hi Hj.
  destruct (Nat.lt_trichotomy i j) as [Hij | [Hij | Hij]]; auto.
  - subst j. rewrite Hi in Hj. injection Hj as Hj. rewrite <- Hj in L.
    apply natural_lt_irrefl in L. discriminate.
  - pose proof (natural_sort_in_order l l' j i _ _ Hsort Hij Hj Hi) as G.
    rewrite L in G. discriminate.
Qed.

Lemma natural_sort_numeric_order_witness :
  natural_compare "frame9.png" "frame10.png" = Ok Lt.
Proof.
  exact (proj1 (natural_sort_numeric_order "frame" "9" "10" ".png" [TStr ".png"]
                  eq_refl eq_refl eq_refl eq_refl eq_refl eq_refl)).
Defined.

(** C8. For a text prefix [t], digit runs [d1], [d2] of the same integer
    value and a suffix [s] (one that does not go on with a digit and has
    a key), the keys of [t ++ d1 ++ s] and [t ++ d2 ++ s] are equal, with
    that value as the [int] at position 1; a leading zero in front of a
    run changes nothing; f007.png and f7.png carry the same numeric
    token 7. *)
Theorem leading_zeros_same_token (t d1 d2 s : string) (ks : list token) :
  is_text t = true -> digit_run d1 = true -> digit_run d2 = true ->
  starts_with_digit s = false -> alphanum_key s = Ok ks ->
  decimal 0 d1 = decimal 0 d2 ->
  (exists k1 k2,
      alphanum_key (t ++ d1 ++ s) = Ok k1 /\ alphanum_key (t ++ d2 ++ s) = Ok k2
      /\ nth_error k1 1 = Some (TInt (decimal 0 d1))
      /\ nth_error k2 1 = Some (TInt (decimal 0 d1))
      /\ k1 = k2)
  /\ natural_compare (t ++ d1 ++ s) (t ++ d2 ++ s) = Ok Eq
  /\ alphanum_key (t ++ String "0" d1 ++ s) = alphanum_key (t ++ d1 ++ s)
  /\ alphanum_key "f007.png" = Ok [TStr "f"; TInt 7; TStr ".png"]
  /\ alphanum_key "f7.png" = Ok [TStr "f"; TInt 7; TStr ".png"].
Proof.
  intros Ht H1 H2 Hs Hks Heq.
  pose proof (alphanum_key_numbered t d1 s ks Ht H1 Hs Hks) as K1.
  pose proof (alphanum_key_numbered t d2 s ks Ht H2 Hs Hks) as K2.
  split; [|split; [|split]].
  - exists (TStr (lower t) :: TInt (decimal 0 d1) :: ks),
           (TStr (lower t) :: TInt (decimal 0 d2) :: ks).
    rewrite Heq in *. repeat split; auto.
  - unfold natural_compare. rewrite K1, K2, Heq. simpl.
    now rewrite !String.eqb_refl, !Z.eqb_refl, list_lt_irrefl.
  - assert (H0 : digit_run (String "0" d1) = true).
    { destruct d1; [discriminate|]. simpl in *. exact H1. }
    rewrite (alphanum_key_numbered t (String "0" d1) s ks Ht H0 Hs Hks), K1.
    reflexivity.
  - split; reflexivity.
Qed.

Lemma leading_zeros_same_token_witness :
  natural_compare "f007.png" "f7.png" = Ok Eq.
Proof.
  exact (proj1 (proj2 (leading_zeros_same_token "f" "007" "7" ".png" [TStr ".png"]
                         eq_refl eq_refl eq_refl eq_refl eq_refl eq_refl))).
Defined.

(** ** The comparison as an order *)

Section Compare.
Variables (a b : string) (ka kb : list token).
Hypothesis Ha : alphanum_key a = Ok ka.
Hypothesis Hb : alphanum_key b = Ok kb.

Lemma natural_compare_ok : exists r, natural_compare a b = Ok r.
Proof.
  unfold natural_compare. rewrite Ha, Hb. simpl.
  destruct (alphanum_key_shape a ka Ha) as [Sa _].
  destruct (alphanum_key_shape b kb Hb) as [Sb _].
  destruct (list_lt_ok false ka kb Sa Sb) as [x ->].
  destruct (list_lt_ok false kb ka Sb Sa) as [y ->]. simpl. eauto.
Qed.

Lemma natural_compare_Lt : natural_compare a b = Ok Lt <-> list_lt ka kb = Ok true.
Proof.
  unfold natural_compare. rewrite Ha, Hb. simpl. split.
  - destruct (list_lt ka kb) as [[|]|e]; simpl; auto; try discriminate.
    destruct (list_lt kb ka) as [[|]|e]; simpl; discriminate.
  - intros H. now rewrite H, (list_lt_asym ka kb H).
Qed.

Lemma natural_compare_Gt : natural_compare a b = Ok Gt <-> list_lt kb ka = Ok true.
Proof.
  unfold natural_compare. rewrite Ha, Hb. simpl. split.
  - destruct (list_lt ka kb) as [[|]|e]; simpl; try discriminate;
      destruct (list_lt kb ka) as [[|]|e]; simpl; auto; discriminate.
  - intros H. now rewrite H, (list_lt_asym kb ka H).
Qed.

Lemma natural_compare_Eq : natural_compare a b = Ok Eq <-> ka = kb.
Proof.
  destruct (alphanum_key_shape a ka Ha) as [Sa _].
  destruct (alphanum_key_shape b kb Hb) as [Sb _].
  unfold natural_compare. rewrite Ha, Hb. simpl. split.
  - destruct (list_lt ka kb) as [[|]|e] eqn:E1; simpl; try discriminate;
      destruct (list_lt kb ka) as [[|]|e'] eqn:E2; simpl; try discriminate.
    intros _. exact (list_lt_total false ka kb Sa Sb E1 E2).
  - intros ->. now rewrite list_lt_irrefl.
Qed.
End Compare.

Lemma natural_compare_opp (a b : string) (ka kb : list token) (r : comparison) :
  alphanum_key a = Ok ka -> alphanum_key b = Ok kb ->
  natural_compare a b = Ok r -> natural_compare b a = Ok (CompOpp r).
Proof.
  intros Ha Hb H. destruct r; simpl.
  - apply (natural_compare_Eq b a kb ka Hb Ha). symmetry.
    now apply (natural_compare_Eq a b ka kb Ha Hb).
  - apply (natural_compare_Gt b a kb ka Hb Ha).
    now apply (natural_compare_Lt a b ka kb Ha Hb).
  - apply (natural_compare_Lt b a kb ka Hb Ha).
    now apply (natural_compare_Gt a b ka kb Ha Hb).
Qed.

(** C2, as the code has it.  On ASCII names the comparison that
    [alphanum_key] induces never raises and is a strict weak order: every
    pair gets one of less, equal, greater; equal means equal keys;
    swapping the names swaps less and greater; less is transitive and so
    is equal; a name is equal to itself.  Sorting returns, sorting its
    output again gives the same list, and names with one key keep the
    order in which they came. *)
Theorem natural_compare_strict_weak_order (a b c : string) :
  is_ascii a = true -> is_ascii b = true -> is_ascii c = true ->
  (exists r, natural_compare a b = Ok r)
  /\ (natural_compare a b = Ok Eq <-> alphanum_key a = alphanum_key b)
  /\ (forall r, natural_compare a b = Ok r -> natural_compare b a = Ok (CompOpp r))
  /\ (natural_compare a b = Ok Lt -> natural_compare b c = Ok Lt ->
      natural_compare a c = Ok Lt)
  /\ (natural_compare a b = Ok Eq -> natural_compare b c = Ok Eq ->
      natural_compare a c = Ok Eq)
  /\ natural_compare a a = Ok Eq
  /\ (forall l, forallb is_ascii l = true ->
        exists l', natural_sort l = Ok l' /\ natural_sort l' = Ok l'
                   /\ forall k, filter (has_key k) l' = filter (has_key k) l).
Proof.
  intros Aa Ab Ac.
  destruct (alphanum_key_ascii a Aa) as [ka Ha].
  destruct (alphanum_key_ascii b Ab) as [kb Hb].
  destruct (alphanum_key_ascii c Ac) as [kc Hc].
  split; [exact (natural_compare_ok a b ka kb Ha Hb)|].
  split.
  { rewrite (natural_compare_Eq a b ka kb Ha Hb), Ha, Hb. split; congruence. }
  split; [intros r; exact (natural_compare_opp a b ka kb r Ha Hb)|].
  split.
  { rewrite (natural_compare_Lt a b ka kb Ha Hb), (natural_compare_Lt b c kb kc Hb Hc),
      (natural_compare_Lt a c ka kc Ha Hc). apply list_lt_trans. }
  split.
  { rewrite (natural_compare_Eq a b ka kb Ha Hb), (natural_compare_Eq b c kb kc Hb Hc),
      (natural_compare_Eq a c ka kc Ha Hc). congruence. }
  split; [now apply (natural_compare_Eq a a ka ka Ha Ha)|].
  intros l Hl. destruct (natural_sort_ascii l Hl) as [l' Hs].
  exists l'. split; auto. split; [exact (natural_sort_idem l l' Hs)|].
  intros k. exact (natural_sort_stable l l' k Hs).
Qed.

Lemma natural_compare_strict_weak_order_witness :
  exists r, natural_compare "frame2.png" "Frame10.png" = Ok r.
Proof.
  exact (proj1 (natural_compare_strict_weak_order
                  "frame2.png" "Frame10.png" "frame9.png" eq_refl eq_refl eq_refl)).
Defined.

(** C2 as stated fails: the comparison is not a strict total order on
    names.  Two different names can have the same key, and then neither is
    smaller: letter case and leading zeros are not seen. *)
Lemma natural_compare_ties :
  natural_compare "A.png" "a.png" = Ok Eq /\ "A.png" <> "a.png"
  /\ natural_lt "A.png" "a.png" = Ok false /\ natural_lt "a.png" "A.png" = Ok false
  /\ natural_compare "f007.png" "f7.png" = Ok Eq /\ "f007.png" <> "f7.png".
Proof. repeat split; try reflexivity; discriminate. Qed.

(** ** Names with a digit outside [[0-9]] *)

(** C9, at a failing input.  The name made of U+00B2 followed by 1.png
    splits into three pieces; the first passes [isdigit], so [convert]
    hands it to [int], which raises: no key is produced. *)
Theorem alphanum_key_superscript :
  re_split (String superscript_two "1.png")
  = [String superscript_two ""; "1"; ".png"]
  /\ isdigit (String superscript_two "") = true
  /\ convert (String superscript_two "") = Raise ValueError
  /\ alphanum_key (String superscript_two "1.png") = Raise ValueError.
Proof. repeat split; reflexivity. Qed.

(** C10, at a failing input.  On a list that holds such a name
    [natural_sort] raises [ValueError] and returns no list at all. *)
Theorem natural_sort_superscript :
  natural_sort ["frame1.png"; String superscript_two "1.png"] = Raise ValueError
  /\ forall l', natural_sort [String superscript_two "1.png"] <> Ok l'.
Proof. split; [reflexivity | discriminate]. Qed.

(** ** The driver *)

Local Open Scope driver_scope.

(** *** Composing what single steps keep *)

Section Steps.
Variable R : state -> state -> Prop.
Hypothesis R_refl : forall s, R s s.
Hypothesis R_trans : forall s1 s2 s3, R s1 s2 -> R s2 s3 -> R s1 s3.

Lemma steps_ret {A} (a : A) : steps R (ret a).
Proof. intros s. apply R_refl. Qed.

Lemma steps_lift {A} (r : result A) : steps R (lift r).
Proof. intros s. apply R_refl. Qed.

Lemma steps_bind {A B} (m : M A) (k : A -> M B) :
  steps R m -> (forall a, steps R (k a)) -> steps R (bind m k).
Proof.
  unfold steps, bind. intros Hm Hk s. specialize (Hm s).
  destruct (m s) as [[a|e] s']; simpl in *; [|exact Hm].
  exact (R_trans _ _ _ Hm (Hk a s')).
Qed.

Lemma steps_try_except {A} (m : M A) (h : exn -> M A) :
  steps R m -> (forall e, steps R (h e)) -> steps R (try_except m h).
Proof.
  unfold steps, try_except. intros Hm Hh s. specialize (Hm s).
  destruct (m s) as [[a|e] s']; simpl in *; [exact Hm|].
  exact (R_trans _ _ _ Hm (Hh e s')).
Qed.

Lemma steps_attempt (r : result unit) (e : event) :
  steps R (emit e) -> steps R (attempt r e).
Proof.
  unfold steps, attempt. intros He s. destruct r as [[]|x]; [apply He|apply R_refl].
Qed.

Lemma steps_for_each {A} (l : list A) (body : A -> M unit) :
  (forall x, steps R (body x)) -> steps R (for_each l body).
Proof.
  intros Hb. induction l as [|x l IH]; simpl.
  - apply steps_ret.
  - apply steps_bind; [apply Hb|]. intros _. exact IH.
Qed.

Lemma steps_with_open (w : os) (path : string) (body : M unit) :
  steps R (open_w w path) -> steps R body -> steps R (close w path) ->
  steps R (with_open w path body).
Proof.
  unfold steps, with_open. intros Ho Hb Hc s. specialize (Ho s).
  destruct (open_w w path s) as [[[]|e] s1]; simpl in *; [|exact Ho].
  specialize (Hb s1). specialize (Hc (snd (body s1))).
  destruct (body s1) as [[[]|e] s2]; simpl in *.
  - exact (R_trans _ _ _ Ho (R_trans _ _ _ Hb Hc)).
  - destruct (close w path s2) as [[[]|e'] s3]; simpl in *;
      exact (R_trans _ _ _ Ho (R_trans _ _ _ Hb Hc)).
Qed.

(** Reporting the encoder's exit. *)
Lemma steps_report w (process : completed_process) (frames_path out : string) :
  (forall m, (forall p o, m <> MsgProcessing p o) -> steps R (print w m)) ->
  steps R (if returncode process =? 0
           then print w (MsgSuccess out)
           else
             print w (MsgError frames_path) ;;
             text <- lift (stderr process) ;;
             print w (MsgFFmpegError text)).
Proof.
  intros Hprint. destruct (returncode process =? 0).
  - apply Hprint. discriminate.
  - apply steps_bind; [apply Hprint; discriminate|]. intros _.
    apply steps_bind; [apply steps_lift|]. intros text.
    apply Hprint. discriminate.
Qed.

(** The rest of a call of [process_single_directory], once the
    directory is announced. *)
Lemma process_single_directory_announced w frames_path output_path name fps res s :
  os_print w (MsgProcessing frames_path
                (output_video_path_of frames_path output_path name)) = Ok tt ->
  (forall m, (forall p o, m <> MsgProcessing p o) -> steps R (print w m)) ->
  steps R (open_w w (list_file_path_of frames_path output_path name)) ->
  (forall l, steps R (write w (list_file_path_of frames_path output_path name) l)) ->
  steps R (close w (list_file_path_of frames_path output_path name)) ->
  steps R (run w (ffmpeg_command_of frames_path output_path name fps res)) ->
  steps R (remove w (list_file_path_of frames_path output_path name)) ->
  R {| files := files s;
       trace := EvPrint (MsgProcessing frames_path
                           (output_video_path_of frames_path output_path name))
                :: trace s |}
    (snd (process_single_directory w frames_path output_path name fps res s)).
Proof.
  intros Hpr Hprint Hopen Hwrite Hclose Hrun Hremove.
  unfold process_single_directory.
  match goal with
  | |- context [bind (print w ?m) ?k] => assert (Q : forall a, steps R (k a))
  end.
  { intros _. apply steps_bind; [apply steps_lift|]. intros names.
    destruct (filter _ names) as [|f fs].
    - apply Hprint. discriminate.
    - apply steps_bind; [apply steps_lift|]. intros sorted_frames.
      apply steps_bind; [apply steps_lift|]. intros frame_duration.
      apply steps_bind.
      { apply steps_with_open; [exact Hopen| |exact Hclose].
        apply steps_for_each. intros frame. unfold write_frame.
        apply steps_bind; [apply Hwrite|]. intros _. apply Hwrite. }
      intros _. apply steps_bind; [exact Hrun|]. intros process.
      apply steps_bind; [exact Hremove|]. intros _.
      apply steps_report. exact Hprint. }
  unfold bind at 1. unfold print at 1. unfold attempt. rewrite Hpr.
  exact (Q tt _).
Qed.
(** A whole call of [process_single_directory]. *)
Lemma process_single_directory_steps w frames_path output_path name fps res :
  (forall m, steps R (print w m)) ->
  steps R (open_w w (list_file_path_of frames_path output_path name)) ->
  (forall l, steps R (write w (list_file_path_of frames_path output_path name) l)) ->
  steps R (close w (list_file_path_of frames_path output_path name)) ->
  steps R (run w (ffmpeg_command_of frames_path output_path name fps res)) ->
  steps R (remove w (list_file_path_of frames_path output_path name)) ->
  steps R (process_single_directory w frames_path output_path name fps res).
Proof.
  intros Hprint Hopen Hwrite Hclose Hrun Hremove s.
  destruct (os_print w (MsgProcessing frames_path
                          (output_video_path_of frames_path output_path name)))
    as [[]|e] eqn:Hpr.
  - pose proof (Hprint (MsgProcessing frames_path
                          (output_video_path_of frames_path output_path name)) s)
      as H0.
    unfold print, attempt in H0. rewrite Hpr in H0.
    exact (R_trans _ _ _ H0
             (process_single_directory_announced w frames_path output_path name
                fps res s Hpr (fun m _ => Hprint m) Hopen Hwrite Hclose Hrun
                Hremove)).
  - unfold process_single_directory. unfold bind at 1. unfold print at 1.
    unfold attempt. rewrite Hpr. apply R_refl.
Qed.
End Steps.

(** *** Single steps *)

Lemma print_ok w m s :
  os_print w m = Ok tt ->
  print w m s = (Ok tt, {| files := files s; trace := EvPrint m :: trace s |}).
Proof. unfold print, attempt, emit. now intros ->. Qed.

Lemma print_raise w m e s : os_print w m = Raise e -> print w m s = (Raise e, s).
Proof. unfold print, attempt. now intros ->. Qed.

Lemma bind_ok {A B} (m : M A) (k : A -> M B) s a s' :
  m s = (Ok a, s') -> bind m k s = k a s'.
Proof. unfold bind. now intros ->. Qed.

Lemma bind_raise {A B} (m : M A) (k : A -> M B) s e s' :
  m s = (Raise e, s') -> bind m k s = (Raise e, s').
Proof. unfold bind. now intros ->. Qed.

Lemma remove_ok w path s :
  In path (files s) -> os_remove w path = Ok tt ->
  remove w path s
  = (Ok tt, {| files := List.remove string_dec path (files s);
               trace := EvRemove path :: trace s |}).
Proof.
  intros Hin Hrm. unfold remove.
  destruct (in_dec string_dec path (files s)) as [_|N]; [|contradiction].
  now rewrite Hrm.
Qed.

Lemma remove_raise w path s e :
  In path (files s) -> os_remove w path = Raise e -> remove w path s = (Raise e, s).
Proof.
  intros Hin Hrm. unfold remove.
  destruct (in_dec string_dec path (files s)) as [_|N]; [|contradiction].
  now rewrite Hrm.
Qed.

Lemma float_overflow_bound_pos : 0 < float_overflow_bound.
Proof. reflexivity. Qed.

Lemma true_div_one_zero : true_div_one 0 = Raise ZeroDivisionError.
Proof. reflexivity. Qed.

Lemma true_div_one_overflow (fps : Z) :
  float_overflow_bound <= Z.abs fps -> true_div_one fps = Raise OverflowError.
Proof.
  intros H. unfold true_div_one.
  destruct (float_overflow_bound <=? Z.abs fps) eqn:E; [reflexivity|].
  apply Z.leb_gt in E. lia.
Qed.

Lemma true_div_one_ok (fps : Z) :
  fps <> 0 -> Z.abs fps < float_overflow_bound -> true_div_one fps = Ok (OneOver fps).
Proof.
  intros H0 H. unfold true_div_one.
  destruct (float_overflow_bound <=? Z.abs fps) eqn:E; [apply Z.leb_le in E; lia|].
  destruct (fps =? 0) eqn:E0; [apply Z.eqb_eq in E0; contradiction|reflexivity].
Qed.

Lemma in_add_file (path : string) (fs : list string) : In path (add_file path fs).
Proof.
  unfold add_file. destruct (in_dec string_dec path fs); simpl; auto.
Qed.

Lemma in_add_file_other (path p : string) (fs : list string) :
  p <> path -> (In p (add_file path fs) <-> In p fs).
Proof.
  intros H. unfold add_file. destruct (in_dec string_dec path fs); simpl; [tauto|].
  split; [intros [E|G]; [congruence|auto] | auto].
Qed.

Lemma in_add_file_keeps (path p : string) (fs : list string) :
  In p fs -> In p (add_file path fs).
Proof.
  intros H. unfold add_file. destruct (in_dec string_dec path fs); simpl; auto.
Qed.

Lemma in_remove_other (path p : string) (fs : list string) :
  p <> path -> (In p (List.remove string_dec path fs) <-> In p fs).
Proof.
  intros H. split.
  - intros G. now apply in_remove in G.
  - intros G. now apply in_in_remove.
Qed.

(** *** Which steps begin no call *)

Lemma quiet_emit (e : event) :
  (forall p o, e <> EvPrint (MsgProcessing p o)) -> quiet (emit e).
Proof.
  intros H s. unfold emit. simpl.
  destruct e as [| [] | | | | |]; auto. now destruct (H frames_path output_video_path).
Qed.

Lemma quiet_print w m : (forall p o, m <> MsgProcessing p o) -> quiet (print w m).
Proof.
  intros H. unfold print.
  apply (steps_attempt (fun s s' => started (trace s') = started (trace s)));
    [reflexivity|].
  apply quiet_emit. intros p o E. injection E. apply H.
Qed.

Lemma quiet_open_w w path : quiet (open_w w path).
Proof. intros s. unfold open_w. now destruct (os_open_w w path) as [[]|e]. Qed.

Lemma quiet_write w path l : quiet (write w path l).
Proof.
  intros s. unfold write.
  apply (steps_attempt (fun s s' => started (trace s') = started (trace s)));
    [reflexivity|].
  apply quiet_emit. discriminate.
Qed.

Lemma quiet_close w path : quiet (close w path).
Proof.
  unfold close.
  apply (steps_attempt (fun s s' => started (trace s') = started (trace s)));
    [reflexivity|].
  apply quiet_emit. discriminate.
Qed.

Lemma quiet_run w cmd : quiet (run w cmd).
Proof. intros s. unfold run. now destruct (os_run w cmd). Qed.

Lemma quiet_remove w path : quiet (remove w path).
Proof.
  intros s. unfold remove. destruct (in_dec string_dec path (files s)); [|reflexivity].
  now destruct (os_remove w path) as [[]|e].
Qed.

(** A call of [process_single_directory] whose announcement is printed
    begins one call, that of its directory, whatever happens next; a call
    whose announcement cannot be printed ends there and leaves no
    trace. *)
Lemma process_single_directory_started w frames_path output_path name fps res s :
  os_print w (MsgProcessing frames_path
                (output_video_path_of frames_path output_path name)) = Ok tt ->
  started (trace (snd (process_single_directory w frames_path output_path name fps res s)))
  = (started (trace s) ++ [frames_path])%list.
Proof.
  intros Hpr.
  apply (process_single_directory_announced
           (fun s s' => started (trace s') = started (trace s))
           ltac:(reflexivity) ltac:(congruence) w frames_path output_path name fps res s Hpr).
  - apply quiet_print.
  - apply quiet_open_w.
  - apply quiet_write.
  - apply quiet_close.
  - apply quiet_run.
  - apply quiet_remove.
Qed.

Lemma process_single_directory_unannounced w frames_path output_path name fps res s e :
  os_print w (MsgProcessing frames_path
                (output_video_path_of frames_path output_path name)) = Raise e ->
  process_single_directory w frames_path output_path name fps res s = (Raise e, s).
Proof.
  intros Hpr. unfold process_single_directory. unfold bind at 1.
  now rewrite (print_raise _ _ _ _ Hpr).
Qed.

(** *** The per-folder boundary *)

(** An exception of the folder's processing is caught and handed to the
    report; what the report does is what the boundary does. *)
Lemma process_folder_caught w frames_path output_path fps res folder s e s1 :
  process_single_directory w (join frames_path folder) output_path (Some folder)
    fps res s = (Raise e, s1) ->
  process_folder w frames_path output_path fps res folder s
  = print w (MsgFolderError folder e) s1.
Proof. unfold process_folder, try_except. now intros ->. Qed.

(** When the report can be printed the boundary returns normally. *)
Lemma process_folder_ok w frames_path output_path fps res folder s :
  (forall e, os_print w (MsgFolderError folder e) = Ok tt) ->
  fst (process_folder w frames_path output_path fps res folder s) = Ok tt.
Proof.
  intros Hrep. unfold process_folder, try_except.
  destruct (process_single_directory _ _ _ _ _ _ s) as [[[]|e] s']; [reflexivity|].
  now rewrite (print_ok _ _ _ (Hrep e)).
Qed.

Lemma process_folder_started w frames_path output_path fps res folder s :
  os_print w (MsgProcessing (join frames_path folder)
                (output_video_path_of (join frames_path folder) output_path
                   (Some folder))) = Ok tt ->
  started (trace (snd (process_folder w frames_path output_path fps res folder s)))
  = (started (trace s) ++ [join frames_path folder])%list.
Proof.
  intros Hpr. unfold process_folder, try_except.
  pose proof (process_single_directory_started w (join frames_path folder)
                output_path (Some folder) fps res s Hpr) as H.
  destruct (process_single_directory _ _ _ _ _ _ s) as [[[]|e] s']; [exact H|].
  simpl in H. rewrite <- H. apply quiet_print. discriminate.
Qed.

(** With a standard output that takes announcements and reports, the
    loop over the folders runs to its end and starts every folder, in the
    order of the list. *)
Lemma for_each_folders w frames_path output_path fps res folders s :
  reports w ->
  exists s',
    for_each folders (process_folder w frames_path output_path fps res) s = (Ok tt, s')
    /\ started (trace s')
       = (started (trace s) ++ map (join frames_path) folders)%list.
Proof.
  intros [Han Hrep]. revert s. induction folders as [|folder folders IH]; intros s; simpl.
  - exists s. now rewrite app_nil_r.
  - unfold bind.
    pose proof (process_folder_ok w frames_path output_path fps res folder s
                  (Hrep folder)) as Hok.
    pose proof (process_folder_started w frames_path output_path fps res folder s
                  (Han _ _)) as Hst.
    destruct (process_folder _ _ _ _ _ folder s) as [r s1]. simpl in Hok, Hst. subst r.
    destruct (IH s1) as (s' & -> & Hs'). exists s'. split; auto.
    now rewrite Hs', Hst, <- app_assoc.
Qed.

(** Recursive mode with at least one subdirectory: after the loop only
    the closing message is left. *)
Lemma create_video_recursive w frames_path output_path name fps res names s :
  reports w ->
  os_makedirs w output_path = Ok tt ->
  os_listdir w frames_path = Ok names ->
  filter (fun f => os_isdir w (join frames_path f)) names <> [] ->
  exists s',
    create_video_from_frames w frames_path output_path name fps res true s
    = print w MsgAllDone s'
    /\ started (trace s')
       = (started (trace s)
          ++ map (join frames_path)
               (filter (fun f => os_isdir w (join frames_path f)) names))%list.
Proof.
  intros Hw Hmk Hls Hne.
  unfold create_video_from_frames, makedirs, listdir.
  unfold bind at 1 2 3 4. unfold emit at 1. unfold lift at 1 2.
  rewrite Hmk. cbv beta iota. rewrite Hls. cbv beta iota.
  destruct (filter _ names) as [|f fs] eqn:E; [contradiction|].
  destruct (for_each_folders w frames_path output_path fps res (f :: fs)
              {| files := files s; trace := EvMakedirs output_path :: trace s |} Hw)
    as (s' & Hrun & Hst).
  rewrite Hrun. exists s'. split; auto.
Qed.

(** *** Nothing is taken back from the trace *)

Lemma grows_refl (s : state) : exists evs, trace s = (evs ++ trace s)%list.
Proof. now exists []. Qed.

Lemma grows_trans (s1 s2 s3 : state) :
  (exists evs, trace s2 = (evs ++ trace s1)%list) ->
  (exists evs, trace s3 = (evs ++ trace s2)%list) ->
  exists evs, trace s3 = (evs ++ trace s1)%list.
Proof.
  intros [e1 H1] [e2 H2]. exists (e2 ++ e1)%list. now rewrite H2, H1, app_assoc.
Qed.

Lemma grows_emit (e : event) :
  steps (fun s s' => exists evs, trace s' = (evs ++ trace s)%list) (emit e).
Proof. intros s. now exists [e]. Qed.

Lemma grows_print w m :
  steps (fun s s' => exists evs, trace s' = (evs ++ trace s)%list) (print w m).
Proof. apply steps_attempt; [apply grows_refl|apply grows_emit]. Qed.

Lemma grows_open_w w path :
  steps (fun s s' => exists evs, trace s' = (evs ++ trace s)%list) (open_w w path).
Proof.
  intros s. unfold open_w. destruct (os_open_w w path) as [[]|e];
    [now exists [EvOpen path]|apply grows_refl].
Qed.

Lemma grows_write w path l :
  steps (fun s s' => exists evs, trace s' = (evs ++ trace s)%list) (write w path l).
Proof.
  intros s. unfold write. apply steps_attempt; [apply grows_refl|apply grows_emit].
Qed.

Lemma grows_close w path :
  steps (fun s s' => exists evs, trace s' = (evs ++ trace s)%list) (close w path).
Proof. apply steps_attempt; [apply grows_refl|apply grows_emit]. Qed.

Lemma grows_run w cmd :
  steps (fun s s' => exists evs, trace s' = (evs ++ trace s)%list) (run w cmd).
Proof. intros s. unfold run. destruct (os_run w cmd); now exists [EvRun cmd]. Qed.

Lemma grows_remove w path :
  steps (fun s s' => exists evs, trace s' = (evs ++ trace s)%list) (remove w path).
Proof.
  intros s. unfold remove.
  destruct (in_dec string_dec path (files s)); [|apply grows_refl].
  destruct (os_remove w path) as [[]|e]; [now exists [EvRemove path]|apply grows_refl].
Qed.

(** Printing changes no file. *)
Lemma files_kept_refl (s : state) : files s = files s.
Proof. reflexivity. Qed.

Lemma files_kept_trans (s1 s2 s3 : state) :
  files s2 = files s1 -> files s3 = files s2 -> files s3 = files s1.
Proof. congruence. Qed.

Lemma files_kept_print w m : steps (fun s s' => files s' = files s) (print w m).
Proof.
  apply (steps_attempt _ files_kept_refl). intros s. reflexivity.
Qed.

(** *** Writing the list file *)

Lemma written_app (path : string) (ls1 ls2 : list line) :
  written path (ls1 ++ ls2) = (written path ls2 ++ written path ls1)%list.
Proof. unfold written. now rewrite map_app, rev_app_distr. Qed.

Lemma write_ok w path l s :
  os_write w (trace s) path l = Ok tt ->
  write w path l s = (Ok tt, {| files := files s; trace := EvWrite path l :: trace s |}).
Proof. unfold write, attempt, emit. now intros ->. Qed.

Lemma write_raise w path l e s :
  os_write w (trace s) path l = Raise e -> write w path l s = (Raise e, s).
Proof. unfold write, attempt. now intros ->. Qed.

Lemma writes_ok_app w path tr (ls1 ls2 : list line) :
  writes_ok w path tr (ls1 ++ ls2)
  <-> writes_ok w path tr ls1 /\ writes_ok w path (written path ls1 ++ tr)%list ls2.
Proof.
  revert tr. induction ls1 as [|l ls1 IH]; intros tr; simpl.
  - tauto.
  - rewrite IH.
    change (l :: ls1) with ([l] ++ ls1)%list. rewrite written_app, <- app_assoc.
    simpl. tauto.
Qed.

(** Writes that never fail. *)
Lemma writes_ok_all w path tr (ls : list line) :
  (forall tr' l, os_write w tr' path l = Ok tt) -> writes_ok w path tr ls.
Proof.
  intros H. revert tr. induction ls as [|l ls IH]; intros tr; simpl; auto.
Qed.

(** The loop over the frames writes the lines in order and stops at the
    first one that cannot be written. *)
Lemma write_frames w path frames_path d frames s :
  exists done rest,
    lines_of frames_path d frames = (done ++ rest)%list
    /\ writes_ok w path (trace s) done
    /\ snd (for_each frames (write_frame w path frames_path d) s)
       = {| files := files s; trace := (written path done ++ trace s)%list |}
    /\ match fst (for_each frames (write_frame w path frames_path d) s) with
       | Ok _ => rest = []
       | Raise e =>
           exists l rest',
             rest = l :: rest'
             /\ os_write w (written path done ++ trace s)%list path l = Raise e
       end.
Proof.
  revert s. induction frames as [|frame frames IH]; intros s.
  - exists [], []. simpl. destruct s. repeat split; auto.
  - change (lines_of frames_path d (frame :: frames))
      with (FileLine (join frames_path frame) :: DurationLine d
            :: lines_of frames_path d frames).
    destruct (os_write w (trace s) path (FileLine (join frames_path frame)))
      as [[]|e] eqn:E1.
    2:{ assert (Hr : for_each (frame :: frames) (write_frame w path frames_path d) s
                     = (Raise e, s)).
        { cbn [for_each]. unfold bind at 1. unfold write_frame at 1. unfold bind at 1.
          now rewrite (write_raise _ _ _ _ _ E1). }
        rewrite Hr.
        exists [], (FileLine (join frames_path frame) :: DurationLine d
                    :: lines_of frames_path d frames).
        simpl. destruct s. repeat split; eauto. }
    destruct (os_write w (EvWrite path (FileLine (join frames_path frame)) :: trace s)
                path (DurationLine d)) as [[]|e] eqn:E2.
    2:{ assert (Hr : for_each (frame :: frames) (write_frame w path frames_path d) s
                     = (Raise e,
                        {| files := files s;
                           trace := EvWrite path (FileLine (join frames_path frame))
                                    :: trace s |})).
        { cbn [for_each]. unfold bind at 1. unfold write_frame at 1. unfold bind at 1.
          rewrite (write_ok _ _ _ _ E1).
          now rewrite (write_raise _ _ _ _
                         {| files := files s;
                            trace := EvWrite path (FileLine (join frames_path frame))
                                     :: trace s |} E2). }
        rewrite Hr.
        exists [FileLine (join frames_path frame)],
          (DurationLine d :: lines_of frames_path d frames).
        simpl. repeat split; eauto. }
    assert (Hr : for_each (frame :: frames) (write_frame w path frames_path d) s
                 = for_each frames (write_frame w path frames_path d)
                     {| files := files s;
                        trace := EvWrite path (DurationLine d)
                                 :: EvWrite path (FileLine (join frames_path frame))
                                 :: trace s |}).
    { cbn [for_each]. unfold bind at 1. unfold write_frame at 1. unfold bind at 1.
      rewrite (write_ok _ _ _ _ E1).
      now rewrite (write_ok _ _ _
                     {| files := files s;
                        trace := EvWrite path (FileLine (join frames_path frame))
                                 :: trace s |} E2). }
    rewrite Hr.
    match goal with |- context [for_each frames _ ?s1] => destruct (IH s1)
      as (done & rest & Hl & Hd & Hs & Hr') end.
    cbn [files trace] in Hd, Hs, Hr'.
    exists (FileLine (join frames_path frame) :: DurationLine d :: done), rest.
    split; [simpl; now rewrite Hl|]. split; [simpl; auto|].
    change (FileLine (join frames_path frame) :: DurationLine d :: done)
      with ([FileLine (join frames_path frame); DurationLine d] ++ done)%list.
    rewrite written_app, <- app_assoc. split; [exact Hs|exact Hr'].
Qed.

Lemma write_frames_ok w path frames_path d frames s :
  writes_ok w path (trace s) (lines_of frames_path d frames) ->
  for_each frames (write_frame w path frames_path d) s
  = (Ok tt, {| files := files s;
               trace := (written path (lines_of frames_path d frames) ++ trace s)%list |}).
Proof.
  intros Hw.
  destruct (write_frames w path frames_path d frames s)
    as (done & rest & Hl & Hd & Hs & Hr).
  destruct (for_each frames _ s) as [[[]|e] s1]; simpl in *.
  - subst rest. rewrite app_nil_r in Hl. now rewrite Hl, Hs.
  - destruct Hr as (l & rest' & -> & Hraise).
    rewrite Hl in Hw. apply writes_ok_app in Hw. destruct Hw as [_ [Hw _]].
    rewrite Hw in Hraise. discriminate.
Qed.

(** Writing the whole list file: opened, every line written, closed. *)
Lemma with_open_ok w path frames_path d frames s :
  os_open_w w path = Ok tt ->
  writes_ok w path (EvOpen path :: trace s) (lines_of frames_path d frames) ->
  os_close w path = Ok tt ->
  with_open w path (for_each frames (write_frame w path frames_path d)) s
  = (Ok tt,
     {| files := add_file path (files s);
        trace := (EvClose path :: written path (lines_of frames_path d frames)
                  ++ EvOpen path :: trace s)%list |}).
Proof.
  intros Hop Hwr Hcl. unfold with_open, open_w. rewrite Hop.
  rewrite (write_frames_ok w path frames_path d frames
             {| files := add_file path (files s); trace := EvOpen path :: trace s |}
             Hwr).
  unfold close, attempt, emit.
  now rewrite Hcl.
Qed.

(** ** The list file *)

Section Encode.
Variables (w : os) (frames_path output_path : string) (name : option string).
Variables (fps : Z) (res : string) (s : state).
Variables (names : list string) (f : string) (fs sorted_frames : list string).

Hypothesis Hpr :
  os_print w (MsgProcessing frames_path
                (output_video_path_of frames_path output_path name)) = Ok tt.
Hypothesis Hls : os_listdir w frames_path = Ok names.
Hypothesis Hfr :
  filter (fun f => endswith_any image_suffixes (lower f)) names = f :: fs.
Hypothesis Hso : natural_sort (f :: fs) = Ok sorted_frames.

(** Runs the call up to the division. *)
Ltac up_to_division :=
  unfold process_single_directory, listdir;
  unfold bind at 1; rewrite (print_ok _ _ _ Hpr);
  unfold bind at 1; unfold lift at 1; rewrite Hls; cbv beta iota; rewrite Hfr;
  unfold bind at 1; unfold lift at 1; rewrite Hso;
  unfold bind at 1; unfold lift at 1.

(** With [fps = 0] the call ends at [1.0 / fps], after the announcement
    and before anything is written or run. *)
Lemma process_single_directory_fps_zero :
  fps = 0 ->
  process_single_directory w frames_path output_path name fps res s
  = (Raise ZeroDivisionError,
     {| files := files s;
        trace := EvPrint (MsgProcessing frames_path
                            (output_video_path_of frames_path output_path name))
                 :: trace s |}).
Proof. intros ->. up_to_division. now rewrite true_div_one_zero. Qed.

(** An [fps] too large for a double ends the call at the same place. *)
Lemma process_single_directory_fps_overflow :
  float_overflow_bound <= Z.abs fps ->
  process_single_directory w frames_path output_path name fps res s
  = (Raise OverflowError,
     {| files := files s;
        trace := EvPrint (MsgProcessing frames_path
                            (output_video_path_of frames_path output_path name))
                 :: trace s |}).
Proof. intros H. up_to_division. now rewrite (true_div_one_overflow _ H). Qed.

Hypothesis Hfps : fps <> 0.
Hypothesis Hsmall : Z.abs fps < float_overflow_bound.
Hypothesis Hop :
  os_open_w w (list_file_path_of frames_path output_path name) = Ok tt.
Hypothesis Hwr :
  writes_ok w (list_file_path_of frames_path output_path name)
    (EvOpen (list_file_path_of frames_path output_path name)
     :: EvPrint (MsgProcessing frames_path
                   (output_video_path_of frames_path output_path name))
     :: trace s)
    (lines_of frames_path (OneOver fps) sorted_frames).
Hypothesis Hcl :
  os_close w (list_file_path_of frames_path output_path name) = Ok tt.

(** When the list file can be written, the call comes to the encoder
    with the file complete and closed. *)
Lemma list_file_written :
  process_single_directory w frames_path output_path name fps res s
  = (process <- run w (ffmpeg_command_of frames_path output_path name fps res) ;;
     remove w (list_file_path_of frames_path output_path name) ;;
     if returncode process =? 0
     then print w (MsgSuccess (output_video_path_of frames_path output_path name))
     else
       print w (MsgError frames_path) ;;
       text <- lift (stderr process) ;;
       print w (MsgFFmpegError text))
      {| files := add_file (list_file_path_of frames_path output_path name) (files s);
         trace :=
           (EvClose (list_file_path_of frames_path output_path name)
            :: written (list_file_path_of frames_path output_path name)
                 (lines_of frames_path (OneOver fps) sorted_frames)
            ++ [EvOpen (list_file_path_of frames_path output_path name);
                EvPrint (MsgProcessing frames_path
                           (output_video_path_of frames_path output_path name))]
            ++ trace s)%list |}.
Proof.
  up_to_division. rewrite (true_div_one_ok _ Hfps Hsmall).
  unfold bind at 1.
  rewrite (with_open_ok w (list_file_path_of frames_path output_path name)
             frames_path (OneOver fps) sorted_frames
             {| files := files s;
                trace := EvPrint (MsgProcessing frames_path
                                    (output_video_path_of frames_path output_path
                                       name)) :: trace s |}
             Hop Hwr Hcl).
  reflexivity.
Qed.

(** When [subprocess.run] raises, the call ends there and the list
    file stays. *)
Lemma list_file_left (e : exn) :
  os_run w (ffmpeg_command_of frames_path output_path name fps res) = Raise e ->
  exists s',
    process_single_directory w frames_path output_path name fps res s = (Raise e, s')
    /\ In (list_file_path_of frames_path output_path name) (files s')
    /\ trace s'
       = (EvRun (ffmpeg_command_of frames_path output_path name fps res)
          :: EvClose (list_file_path_of frames_path output_path name)
          :: written (list_file_path_of frames_path output_path name)
               (lines_of frames_path (OneOver fps) sorted_frames)
          ++ [EvOpen (list_file_path_of frames_path output_path name);
              EvPrint (MsgProcessing frames_path
                         (output_video_path_of frames_path output_path name))]
          ++ trace s)%list.
Proof.
  intros Hrun. rewrite list_file_written. unfold bind at 1. unfold run.
  rewrite Hrun. eexists. split; [reflexivity|]. simpl.
  split; [apply in_add_file|reflexivity].
Qed.

(** The state in which the encoder has returned. *)
Lemma encoder_returned (process : completed_process) :
  os_run w (ffmpeg_command_of frames_path output_path name fps res) = Ok process ->
  exists s1,
    process_single_directory w frames_path output_path name fps res s
    = (remove w (list_file_path_of frames_path output_path name) ;;
       if returncode process =? 0
       then print w (MsgSuccess (output_video_path_of frames_path output_path name))
       else
         print w (MsgError frames_path) ;;
         text <- lift (stderr process) ;;
         print w (MsgFFmpegError text)) s1
    /\ In (list_file_path_of frames_path output_path name) (files s1)
    /\ (forall p, p <> output_video_path_of frames_path output_path name ->
          p <> list_file_path_of frames_path output_path name ->
          (In p (files s1) <-> In p (files s)))
    /\ trace s1
       = (EvRun (ffmpeg_command_of frames_path output_path name fps res)
          :: EvClose (list_file_path_of frames_path output_path name)
          :: written (list_file_path_of frames_path output_path name)
               (lines_of frames_path (OneOver fps) sorted_frames)
          ++ [EvOpen (list_file_path_of frames_path output_path name);
              EvPrint (MsgProcessing frames_path
                         (output_video_path_of frames_path output_path name))]
          ++ trace s)%list.
Proof.
  intros Hrun. rewrite list_file_written. unfold bind at 1. unfold run.
  rewrite Hrun. eexists. split; [reflexivity|]. cbn [files trace].
  split; [|split; [|reflexivity]].
  - destruct (os_run_writes w _); [apply in_add_file_keeps|]; apply in_add_file.
  - intros p Hp1 Hp2. destruct (os_run_writes w _); cbn [cmd_output ffmpeg_command_of];
      rewrite ?in_add_file_other by assumption; tauto.
Qed.

(** When [subprocess.run] returns, with whatever exit status, and the
    file can be removed, the list file is gone after the call. *)
Lemma list_file_removed (process : completed_process) :
  os_run w (ffmpeg_command_of frames_path output_path name fps res) = Ok process ->
  os_remove w (list_file_path_of frames_path output_path name) = Ok tt ->
  ~ In (list_file_path_of frames_path output_path name)
      (files (snd (process_single_directory w frames_path output_path name fps res s)))
  /\ In (EvRemove (list_file_path_of frames_path output_path name))
       (trace (snd (process_single_directory w frames_path output_path name fps res s))).
Proof.
  intros Hrun Hrm.
  destruct (encoder_returned process Hrun) as (s1 & -> & Hin & _ & _).
  rewrite (bind_ok _ _ _ _ _ (remove_ok _ _ _ Hin Hrm)).
  match goal with
  | |- context [(if ?c then ?a else ?b) ?s2] =>
      pose proof (steps_report _ files_kept_refl files_kept_trans w process frames_path
                    (output_video_path_of frames_path output_path name)
                    (fun m _ => files_kept_print w m) s2) as G1;
      pose proof (steps_report _ grows_refl grows_trans w process frames_path
                    (output_video_path_of frames_path output_path name)
                    (fun m _ => grows_print w m) s2) as G2
  end.
  cbv beta in G1, G2. destruct G2 as [evs G2]. rewrite G1, G2. cbn [files trace]. split.
  - apply remove_In.
  - apply in_or_app. right. simpl. auto.
Qed.

(** When the encoder exits with a status other than 0 and standard error
    decodes, the call reports the failure and returns normally. *)
Lemma encoder_failure_reported (process : completed_process) (text : string) :
  os_run w (ffmpeg_command_of frames_path output_path name fps res) = Ok process ->
  returncode process <> 0 ->
  os_remove w (list_file_path_of frames_path output_path name) = Ok tt ->
  os_print w (MsgError frames_path) = Ok tt ->
  stderr process = Ok text ->
  os_print w (MsgFFmpegError text) = Ok tt ->
  exists fs' tr,
    process_single_directory w frames_path output_path name fps res s
    = (Ok tt,
       {| files := fs';
          trace := EvPrint (MsgFFmpegError text)
                   :: EvPrint (MsgError frames_path) :: tr |}).
Proof.
  intros Hrun Hrc Hrm Hp1 Hde Hp2.
  destruct (encoder_returned process Hrun) as (s1 & -> & Hin & _ & _).
  rewrite (bind_ok _ _ _ _ _ (remove_ok _ _ _ Hin Hrm)).
  destruct (returncode process =? 0) eqn:R; [apply Z.eqb_eq in R; contradiction|].
  unfold bind at 1. rewrite (print_ok _ _ _ Hp1).
  unfold bind at 1. unfold lift. rewrite Hde. rewrite (print_ok _ _ _ Hp2).
  cbn [files trace]. eauto.
Qed.
End Encode.

(** ** Order of the folders in recursive mode *)

(** C3, as the code has it.  In recursive mode with at least one
    immediate subdirectory, on a standard output that takes the
    announcements and the reports of exceptions,
    [process_single_directory] is called once for each subdirectory, in
    the order in which [os.listdir] returns their names; the names are
    not sorted. *)
Theorem recursive_order_is_listing_order w frames_path output_path name fps res
    names s :
  reports w ->
  os_makedirs w output_path = Ok tt ->
  os_listdir w frames_path = Ok names ->
  filter (fun f => os_isdir w (join frames_path f)) names <> [] ->
  started (trace (snd (create_video_from_frames w frames_path output_path name
                         fps res true s)))
  = (started (trace s)
     ++ map (join frames_path)
          (filter (fun f => os_isdir w (join frames_path f)) names))%list.
Proof.
  intros Hw Hmk Hls Hne.
  destruct (create_video_recursive w frames_path output_path name fps res names s
              Hw Hmk Hls Hne) as (s' & -> & Hst).
  rewrite <- Hst. apply quiet_print. discriminate.
Qed.

Lemma recursive_order_is_listing_order_witness :
  started (trace (snd (create_video_from_frames
                         (Scenarios.studio (Scenarios.exits 0))
                         "in" "out" None 20 "256x256" true initial)))
  = ["in/shotA"; "in/shot10"; "in/shot2"].
Proof.
  exact (recursive_order_is_listing_order (Scenarios.studio (Scenarios.exits 0))
           "in" "out" None 20 "256x256" ["shotA"; "shot10"; "shot2"] initial
           (conj (fun _ _ => eq_refl) (fun _ _ => eq_refl))
           eq_refl eq_refl ltac:(discriminate)).
Defined.

(** C3 as stated fails.  The file system lists shotA, shot10, shot2 and
    that is the order of processing; the natural-sort order of the three
    names is shot2, shot10, shotA, and the order the claim gives is shotA,
    shot2, shot10. *)
Lemma recursive_order_not_sorted :
  started (trace (snd (main (Scenarios.studio (Scenarios.exits 0))
                         (Scenarios.batch 20) initial)))
  = ["in/shotA"; "in/shot10"; "in/shot2"]
  /\ natural_sort ["shotA"; "shot10"; "shot2"] = Ok ["shot2"; "shot10"; "shotA"]
  /\ ["in/shotA"; "in/shot10"; "in/shot2"]
     <> map (join "in") ["shot2"; "shot10"; "shotA"]
  /\ ["in/shotA"; "in/shot10"; "in/shot2"]
     <> map (join "in") ["shotA"; "shot2"; "shot10"].
Proof. repeat split; try (vm_compute; reflexivity); discriminate. Qed.

(** ** Failures of single folders *)

(** What the per-folder boundary achieves when the report can be
    printed.  In recursive mode with at least one subdirectory, on a
    standard output that takes the announcements, the reports and the
    closing message, the call returns normally whatever happens inside
    the folders: the loop starts every subdirectory in turn and ends with
    the closing message; an exception raised while a folder is processed
    is caught and reported under the folder's name. *)
Lemma folder_failures_isolated w frames_path output_path name fps res names s :
  reports w ->
  os_print w MsgAllDone = Ok tt ->
  os_makedirs w output_path = Ok tt ->
  os_listdir w frames_path = Ok names ->
  filter (fun f => os_isdir w (join frames_path f)) names <> [] ->
  (exists s',
      create_video_from_frames w frames_path output_path name fps res true s
      = (Ok tt, s')
      /\ (exists tr, trace s' = EvPrint MsgAllDone :: tr)
      /\ started (trace s')
         = (started (trace s)
            ++ map (join frames_path)
                 (filter (fun f => os_isdir w (join frames_path f)) names))%list)
  /\ (forall folder s0 e s1,
        process_single_directory w (join frames_path folder) output_path
          (Some folder) fps res s0 = (Raise e, s1) ->
        process_folder w frames_path output_path fps res folder s0
        = (Ok tt, {| files := files s1;
                     trace := EvPrint (MsgFolderError folder e) :: trace s1 |})).
Proof.
  intros Hw Hdone Hmk Hls Hne. split.
  - destruct (create_video_recursive w frames_path output_path name fps res names s
                Hw Hmk Hls Hne) as (s' & -> & Hst).
    rewrite (print_ok _ _ _ Hdone). eexists. split; [reflexivity|].
    cbn [trace]. split; [eauto|exact Hst].
  - intros folder s0 e s1 H.
    rewrite (process_folder_caught _ _ _ _ _ _ _ _ _ H).
    apply print_ok. apply Hw.
Qed.

(** C7, at a failing input.  Standard output encodes ASCII only and the
    file system lists the folders shotA, shot followed by U+00E9, shot2.
    shotA is processed.  Announcing the second folder raises
    [UnicodeEncodeError]; the boundary catches it, but the report shows
    the folder's name again and raises the same exception, outside any
    [try].  That exception leaves the loop and ends the invocation: shot2,
    which holds a frame and whose messages could all be printed, is never
    processed, the encoder is never started, and the closing message is not
    printed. *)
Theorem report_failure_leaves_loop :
  filter (fun f => os_isdir Scenarios.ascii_stdout (join "in" f))
    ["shotA"; Scenarios.accented; "shot2"]
  = ["shotA"; Scenarios.accented; "shot2"]
  /\ main Scenarios.ascii_stdout (Scenarios.batch 20) initial
     = (Raise UnicodeEncodeError,
        {| files := [];
           trace := [EvPrint (MsgNoImages "in/shotA");
                     EvPrint (MsgProcessing "in/shotA" "out/shotA.mp4");
                     EvMakedirs "out"] |})
  /\ (forall s,
        process_single_directory Scenarios.ascii_stdout
          (join "in" Scenarios.accented) "out" (Some Scenarios.accented)
          20 "256x256" s
        = (Raise UnicodeEncodeError, s)
        /\ process_folder Scenarios.ascii_stdout "in" "out" 20 "256x256"
             Scenarios.accented s
           = (Raise UnicodeEncodeError, s))
  /\ started (trace (snd (main Scenarios.ascii_stdout (Scenarios.batch 20) initial)))
     = ["in/shotA"]
  /\ runs (trace (snd (main Scenarios.ascii_stdout (Scenarios.batch 20) initial)))
     = 0%nat
  /\ os_listdir Scenarios.ascii_stdout "in/shot2" = Ok ["f1.png"]
  /\ os_print Scenarios.ascii_stdout (MsgProcessing "in/shot2" "out/shot2.mp4")
     = Ok tt
  /\ os_print Scenarios.ascii_stdout
       (MsgFolderError "shot2" UnicodeEncodeError) = Ok tt.
Proof.
  split; [vm_compute; reflexivity|].
  split; [vm_compute; reflexivity|].
  split.
  { intros s.
    assert (H : process_single_directory Scenarios.ascii_stdout
                  (join "in" Scenarios.accented) "out" (Some Scenarios.accented)
                  20 "256x256" s = (Raise UnicodeEncodeError, s)).
    { apply process_single_directory_unannounced. vm_compute. reflexivity. }
    split; [exact H|].
    rewrite (process_folder_caught _ _ _ _ _ _ _ _ _ H).
    apply print_raise. vm_compute. reflexivity. }
  repeat split; vm_compute; reflexivity.
Qed.

(** In the scenario of the readable standard output the unreadable
    folder shot10 is reported and shot2, which comes after it, is still
    encoded; the encoder's failure there is reported too. *)
Example failure_then_next_folder :
  main (Scenarios.studio (Scenarios.exits 1)) (Scenarios.batch 20) initial
  = (Ok tt,
     {| files := ["out/shot2.mp4"];
        trace :=
          [EvPrint MsgAllDone;
           EvPrint (MsgFFmpegError "");
           EvPrint (MsgError "in/shot2");
           EvRemove "out/shot2_frames.txt";
           EvRun {| cmd_input := "out/shot2_frames.txt"; cmd_size := "256x256";
                    cmd_rate := 20; cmd_output := "out/shot2.mp4" |};
           EvClose "out/shot2_frames.txt";
           EvWrite "out/shot2_frames.txt" (DurationLine (OneOver 20));
           EvWrite "out/shot2_frames.txt" (FileLine "in/shot2/f10.png");
           EvWrite "out/shot2_frames.txt" (DurationLine (OneOver 20));
           EvWrite "out/shot2_frames.txt" (FileLine "in/shot2/f9.PNG");
           EvOpen "out/shot2_frames.txt";
           EvPrint (MsgProcessing "in/shot2" "out/shot2.mp4");
           EvPrint (MsgFolderError "shot10" (OSError "permission denied"));
           EvPrint (MsgProcessing "in/shot10" "out/shot10.mp4");
           EvPrint (MsgNoImages "in/shotA");
           EvPrint (MsgProcessing "in/shotA" "out/shotA.mp4");
           EvMakedirs "out"] |}).
Proof. vm_compute. reflexivity. Qed.

(** C4, at a failing input.  ffmpeg is not installed, so
    [subprocess.run] raises: the call ends with that exception, the list
    file it wrote is still there and no removal was attempted.  When the
    encoder runs and exits, with status 0 or not, the same call removes
    the file: only the video is left. *)
Theorem list_file_survives_exception :
  main (Scenarios.studio Scenarios.not_installed) (Scenarios.single None 20) initial
  = (Raise FileNotFoundError,
     {| files := ["out/frames_frames.txt"];
        trace :=
          [EvRun {| cmd_input := "out/frames_frames.txt"; cmd_size := "256x256";
                    cmd_rate := 20; cmd_output := "out/frames.mp4" |};
           EvClose "out/frames_frames.txt";
           EvWrite "out/frames_frames.txt" (DurationLine (OneOver 20));
           EvWrite "out/frames_frames.txt" (FileLine "frames/b10.png");
           EvWrite "out/frames_frames.txt" (DurationLine (OneOver 20));
           EvWrite "out/frames_frames.txt" (FileLine "frames/b9.png");
           EvOpen "out/frames_frames.txt";
           EvPrint (MsgProcessing "frames" "out/frames.mp4");
           EvMakedirs "out"] |})
  /\ files (snd (main (Scenarios.studio (Scenarios.exits 0))
                   (Scenarios.single None 20) initial)) = ["out/frames.mp4"]
  /\ files (snd (main (Scenarios.studio (Scenarios.exits 1))
                   (Scenarios.single None 20) initial)) = ["out/frames.mp4"].
Proof. repeat split; vm_compute; reflexivity. Qed.

(** ** Frame rate *)

(** Non-recursive mode: the output directory is made, the directory
    processed and the closing message printed. *)
Lemma create_video_single w frames_path output_path name fps res s :
  os_makedirs w output_path = Ok tt ->
  create_video_from_frames w frames_path output_path name fps res false s
  = (process_single_directory w frames_path output_path name fps res ;;
     print w MsgAllDone)
      {| files := files s; trace := EvMakedirs output_path :: trace s |}.
Proof.
  intros Hmk. unfold create_video_from_frames, makedirs.
  unfold bind at 1 2. unfold emit at 1. unfold lift at 1. now rewrite Hmk.
Qed.

(** C5, as the code has it.  Nothing checks [fps]: in non-recursive mode
    the output directory is made and a directory that holds at least one
    image whose names sort is announced, whatever [fps] is.  With
    [fps = 0] the division [1.0 / fps] then raises [ZeroDivisionError],
    and with an [fps] too large for a double it raises [OverflowError]:
    the invocation ends there, before a list file is written or the
    encoder run.  Every other [fps], negative ones included, passes the
    division, and when the list file can be written the encoder is
    started with that [fps] as its rate. *)
Theorem fps_reaches_division w a names f fs sorted_frames s :
  arg_recursive a = false ->
  os_makedirs w (arg_output a) = Ok tt ->
  os_print w (MsgProcessing (arg_input a)
                (output_video_path_of (arg_input a) (arg_output a) (arg_name a)))
  = Ok tt ->
  os_listdir w (arg_input a) = Ok names ->
  filter (fun f => endswith_any image_suffixes (lower f)) names = f :: fs ->
  natural_sort (f :: fs) = Ok sorted_frames ->
  (arg_fps a = 0 ->
   main w a s
   = (Raise ZeroDivisionError,
      {| files := files s;
         trace :=
           EvPrint (MsgProcessing (arg_input a)
                      (output_video_path_of (arg_input a) (arg_output a) (arg_name a)))
           :: EvMakedirs (arg_output a) :: trace s |}))
  /\ (float_overflow_bound <= Z.abs (arg_fps a) ->
      main w a s
      = (Raise OverflowError,
         {| files := files s;
            trace :=
              EvPrint (MsgProcessing (arg_input a)
                         (output_video_path_of (arg_input a) (arg_output a)
                            (arg_name a)))
              :: EvMakedirs (arg_output a) :: trace s |}))
  /\ (arg_fps a <> 0 -> Z.abs (arg_fps a) < float_overflow_bound ->
      os_open_w w (list_file_path_of (arg_input a) (arg_output a) (arg_name a))
      = Ok tt ->
      (forall tr l,
         os_write w tr (list_file_path_of (arg_input a) (arg_output a) (arg_name a)) l
         = Ok tt) ->
      os_close w (list_file_path_of (arg_input a) (arg_output a) (arg_name a))
      = Ok tt ->
      exists evs,
        trace (snd (main w a s))
        = (evs
           ++ EvRun (ffmpeg_command_of (arg_input a) (arg_output a) (arg_name a)
                       (arg_fps a) (arg_resolution a))
           :: EvClose (list_file_path_of (arg_input a) (arg_output a) (arg_name a))
           :: written (list_file_path_of (arg_input a) (arg_output a) (arg_name a))
                (lines_of (arg_input a) (OneOver (arg_fps a)) sorted_frames)
           ++ [EvOpen (list_file_path_of (arg_input a) (arg_output a) (arg_name a));
               EvPrint (MsgProcessing (arg_input a)
                          (output_video_path_of (arg_input a) (arg_output a)
                             (arg_name a)));
               EvMakedirs (arg_output a)]
           ++ trace s)%list).
Proof.
  intros Hrec Hmk Hpr Hls Hfr Hso. unfold main. rewrite Hrec.
  rewrite (create_video_single _ _ _ _ _ _ _ Hmk).
  split; [|split].
  - intros Hfps.
    apply bind_raise.
    exact (process_single_directory_fps_zero w (arg_input a) (arg_output a)
             (arg_name a) (arg_fps a) (arg_resolution a) _ names f fs sorted_frames
             Hpr Hls Hfr Hso Hfps).
  - intros Hfps.
    apply bind_raise.
    exact (process_single_directory_fps_overflow w (arg_input a) (arg_output a)
             (arg_name a) (arg_fps a) (arg_resolution a) _ names f fs sorted_frames
             Hpr Hls Hfr Hso Hfps).
  - intros Hfps Hsmall Hop Hwr Hcl.
    unfold bind at 1.
    rewrite (list_file_written w (arg_input a) (arg_output a) (arg_name a)
               (arg_fps a) (arg_resolution a) _ names f fs sorted_frames
               Hpr Hls Hfr Hso Hfps Hsmall Hop (writes_ok_all _ _ _ _ Hwr) Hcl).
    match goal with
    | |- context [bind (run w ?cmd) ?k ?s0] =>
        assert (G : exists evs,
                   trace (snd (bind (run w cmd) k s0))
                   = (evs ++ EvRun cmd :: trace s0)%list)
    end.
    { unfold bind at 1. unfold run.
      destruct (os_run w _) as [process|e]; [|now exists []].
      match goal with
      | |- context [bind (remove w ?p) ?k ?s1] =>
          destruct (steps_bind _ grows_trans (remove w p) k (grows_remove w p)
                      (fun _ => steps_report _ grows_refl grows_trans w process _ _
                                  (fun m _ => grows_print w m)) s1) as [evs Hevs]
      end.
      exists evs. exact Hevs. }
    destruct G as [evs G]. cbn [trace] in G.
    destruct (bind (run w _) _ _) as [[[]|e] s2]; cbn [snd] in G.
    + destruct (grows_print w MsgAllDone s2) as [evs' Hevs'].
      exists (evs' ++ evs)%list. rewrite Hevs', G.
      rewrite <- app_assoc. reflexivity.
    + exists evs. cbn [snd]. rewrite G. reflexivity.
Qed.

Lemma fps_reaches_division_witness :
  main (Scenarios.studio (Scenarios.exits 0)) (Scenarios.single None 0) initial
  = (Raise ZeroDivisionError,
     {| files := [];
        trace := [EvPrint (MsgProcessing "frames" "out/frames.mp4");
                  EvMakedirs "out"] |}).
Proof.
  exact (proj1 (fps_reaches_division (Scenarios.studio (Scenarios.exits 0))
                  (Scenarios.single None 0) ["b10.png"; "b9.png"]
                  "b10.png" ["b9.png"] ["b9.png"; "b10.png"] initial
                  eq_refl eq_refl eq_refl eq_refl eq_refl eq_refl) eq_refl).
Defined.

(** C5 as stated fails.  With [fps = 0] the invocation is not rejected
    before processing: the output directory is made and the directory is
    announced before the division raises.  With [fps = -5] nothing is
    rejected at all and the encoder is run with that rate. *)
Lemma fps_not_validated :
  main (Scenarios.studio (Scenarios.exits 0)) (Scenarios.single None 0) initial
  = (Raise ZeroDivisionError,
     {| files := [];
        trace := [EvPrint (MsgProcessing "frames" "out/frames.mp4");
                  EvMakedirs "out"] |})
  /\ fst (main (Scenarios.studio (Scenarios.exits 0))
            (Scenarios.single None (-5)) initial) = Ok tt
  /\ In (EvRun {| cmd_input := "out/frames_frames.txt"; cmd_size := "256x256";
                  cmd_rate := -5; cmd_output := "out/frames.mp4" |})
        (trace (snd (main (Scenarios.studio (Scenarios.exits 0))
                       (Scenarios.single None (-5)) initial))).
Proof.
  split; [vm_compute; reflexivity|]. split; [vm_compute; reflexivity|].
  vm_compute. tauto.
Qed.

(** ** The output name *)

(** C6, at failing inputs.  [replace] takes out every [.mp4], wherever it
    stands: the folder name take.mp4.old gives take.old.mp4 and the name
    clip.mp4.mp4 gives clip.mp4, where stripping one trailing suffix
    would give take.mp4.old.mp4 and clip.mp4.mp4.  On clip.mp4 the
    result is clip.mp4, as a single trailing strip would give. *)
Theorem mp4_removed_everywhere :
  base_name_of "in/take.mp4.old" (Some "take.mp4.old") = "take.old"
  /\ output_video_path_of "in/take.mp4.old" "out" (Some "take.mp4.old")
     = "out/take.old.mp4"
  /\ base_name_of "frames" (Some "clip.mp4.mp4") = "clip"
  /\ output_video_path_of "frames" "out" (Some "clip.mp4.mp4") = "out/clip.mp4"
  /\ output_video_path_of "frames" "out" (Some "clip.mp4") = "out/clip.mp4"
  /\ output_video_path_of "shots/clip.mp4/" "out" None = "out/clip.mp4".
Proof. repeat split; reflexivity. Qed.

(** * Further properties of natural_sort *)

(** ** What a returned list is *)

(** X1.  Whenever [natural_sort] returns, the list it returns is a
    rearrangement of its argument: the same names, each as often as it
    came in, and as many of them. *)
Theorem natural_sort_returns_permutation (l l' : list string) :
  natural_sort l = Ok l' ->
  Permutation l l' /\ List.length l' = List.length l.
Proof.
  intros H. destruct (natural_sort_unfold l l' H) as (r & _ & _ & _ & Hp & ->).
  split; [exact Hp|]. symmetry. now apply Permutation_length.
Qed.

Lemma natural_sort_returns_permutation_witness :
  Permutation ["b10.png"; "B9.png"; "a.png"] ["a.png"; "B9.png"; "b10.png"]
  /\ List.length ["a.png"; "B9.png"; "b10.png"]
     = List.length ["b10.png"; "B9.png"; "a.png"].
Proof.
  exact (natural_sort_returns_permutation
           ["b10.png"; "B9.png"; "a.png"] ["a.png"; "B9.png"; "b10.png"] eq_refl).
Defined.

(** X2.  A returned list is in order: a name that stands before another
    compares smaller than or equal to it, never greater. *)
Theorem natural_sort_output_ordered (l l' : list string) (i j : nat)
    (x y : string) :
  natural_sort l = Ok l' -> (i < j)%nat ->
  nth_error l' i = Some x -> nth_error l' j = Some y ->
  natural_compare x y = Ok Lt \/ natural_compare x y = Ok Eq.
Proof.
  intros H Hij Hi Hj.
  pose proof (natural_sort_in_order l l' i j x y H Hij Hi Hj) as G.
  unfold natural_lt in G. unfold natural_compare.
  destruct (alphanum_key y) as [ky|e] eqn:Ky; simpl in G; [|discriminate].
  destruct (alphanum_key x) as [kx|e] eqn:Kx; simpl in G; [|discriminate].
  simpl. rewrite G.
  destruct (alphanum_key_shape x kx Kx) as [Sx _].
  destruct (alphanum_key_shape y ky Ky) as [Sy _].
  destruct (list_lt_ok false kx ky Sx Sy) as [[|] ->]; simpl; auto.
Qed.

Lemma natural_sort_output_ordered_witness :
  natural_compare "B9.png" "b10.png" = Ok Lt
  \/ natural_compare "B9.png" "b10.png" = Ok Eq.
Proof.
  exact (natural_sort_output_ordered
           ["b10.png"; "B9.png"; "a.png"] ["a.png"; "B9.png"; "b10.png"] 1 2
           "B9.png" "b10.png" eq_refl ltac:(lia) eq_refl eq_refl).
Defined.

(** X3.  The sort is stable: in a returned list the names that share a
    key stand in the order in which they came in. *)
Theorem natural_sort_keeps_ties_in_order (l l' : list string) (k : list token) :
  natural_sort l = Ok l' -> filter (has_key k) l' = filter (has_key k) l.
Proof.
  intros H. destruct (natural_sort_unfold l l' H) as (r & _ & _ & Hr & _ & ->).
  revert H. unfold natural_sort, sorted.
  destruct (comprehension alphanum_key l) as [ks|e] eqn:Ek; simpl; [|discriminate].
  destruct (sort_pairs list_lt (combine ks l)) as [r'|e] eqn:Er; simpl; [|discriminate].
  intros H. injection H as H.
  assert (Hr' : Forall (fun p => alphanum_key (snd p) = Ok (fst p)) r').
  { rewrite <- (sort_pairs_perm _ _ list_lt _ _ Er).
    exact (decorate_keyed _ _ alphanum_key l ks Ek). }
  rewrite <- H, (filter_keyed k r' Hr').
  rewrite (sort_pairs_filter _ _ list_lt (list_eqb k)) with (l := combine ks l); auto.
  - rewrite <- (filter_keyed k _ (decorate_keyed _ _ alphanum_key l ks Ek)).
    now rewrite (decorate_snd _ _ alphanum_key l ks Ek).
  - intros a b Ha Hb. apply list_eqb_eq in Ha, Hb. subst. apply list_lt_irrefl.
Qed.

Lemma natural_sort_keeps_ties_in_order_witness :
  filter (has_key [TStr "f"; TInt 7; TStr ".png"]) ["F7.png"; "f007.png"; "f10.png"]
  = filter (has_key [TStr "f"; TInt 7; TStr ".png"]) ["f10.png"; "F7.png"; "f007.png"].
Proof.
  exact (natural_sort_keeps_ties_in_order
           ["f10.png"; "F7.png"; "f007.png"] ["F7.png"; "f007.png"; "f10.png"]
           [TStr "f"; TInt 7; TStr ".png"] eq_refl).
Defined.

(** X4.  Sorting is idempotent: a list that [natural_sort] returned is
    returned unchanged when sorted again. *)
Theorem natural_sort_idempotent (l l' : list string) :
  natural_sort l = Ok l' -> natural_sort l' = Ok l'.
Proof.
  intros H. destruct (natural_sort_unfold l l' H) as (r & Hf & _ & Hk & _ & ->).
  destruct (undecorate _ _ alphanum_key r Hk) as [H1 H2].
  unfold natural_sort, sorted. rewrite H1. simpl. rewrite H2, Hf. reflexivity.
Qed.

Lemma natural_sort_idempotent_witness :
  natural_sort ["a.png"; "B9.png"; "b10.png"] = Ok ["a.png"; "B9.png"; "b10.png"].
Proof.
  exact (natural_sort_idempotent
           ["b10.png"; "B9.png"; "a.png"] ["a.png"; "B9.png"; "b10.png"] eq_refl).
Defined.

(** X5.  On a list of ASCII names [natural_sort] never raises: it
    returns a rearrangement of the list. *)
Theorem natural_sort_ascii_returns (l : list string) :
  forallb is_ascii l = true ->
  exists l', natural_sort l = Ok l' /\ Permutation l l'.
Proof.
  intros H. destruct (natural_sort_ascii l H) as [l' Hs].
  exists l'. split; auto.
  destruct (natural_sort_unfold l l' Hs) as (r & _ & _ & _ & Hp & ->). exact Hp.
Qed.

Lemma natural_sort_ascii_returns_witness :
  exists l', natural_sort ["img_2.jpg"; "IMG_10.jpg"; "img_1.jpg"] = Ok l'
             /\ Permutation ["img_2.jpg"; "IMG_10.jpg"; "img_1.jpg"] l'.
Proof.
  exact (natural_sort_ascii_returns ["img_2.jpg"; "IMG_10.jpg"; "img_1.jpg"] eq_refl).
Defined.

(** ** When no key is produced *)

Lemma comprehension_raises {A B} (f : A -> result B) (l : list A) (e : exn) :
  comprehension f l = Raise e -> exists x, In x l /\ f x = Raise e.
Proof.
  induction l as [|x l IH]; simpl; [discriminate|].
  destruct (f x) as [y|e'] eqn:E; simpl.
  - destruct (comprehension f l) as [ys|e']; simpl; [discriminate|].
    intros H. destruct (IH H) as (z & Hz & Hf). eauto.
  - intros H. injection H as <-. eauto.
Qed.

Lemma comprehension_some_raise {A B} (f : A -> result B) (l : list A) (x : A)
    (e : exn) :
  In x l -> f x = Raise e -> exists e', comprehension f l = Raise e'.
Proof.
  induction l as [|y l IH]; simpl; [contradiction|].
  intros [-> | Hin] Hf.
  - rewrite Hf. simpl. eauto.
  - destruct (f y) as [b|e']; simpl; [|eauto].
    destruct (IH Hin Hf) as [e' ->]. simpl. eauto.
Qed.

Lemma convert_raises (t : string) (e : exn) :
  convert t = Raise e <-> e = ValueError /\ isdigit t = true /\ digit_run t = false.
Proof.
  unfold convert, int, digit_run, isdigit. destruct t as [|c t].
  - split; [discriminate | intros (_ & H & _); discriminate].
  - destruct (all_chars char_isdigit (String c t)).
    + destruct (all_chars is_ascii_digit (String c t)); simpl; split.
      * discriminate.
      * intros (_ & _ & H). discriminate.
      * intros H. injection H as <-. auto.
      * intros (-> & _). reflexivity.
    + split; [discriminate | intros (_ & H & _); discriminate].
Qed.

(** X6.  [alphanum_key] raises exactly on the names that have a piece,
    between the runs of ASCII digits, made only of digits in the sense of
    [str.isdigit] that are not ASCII digits; the exception is then
    [ValueError].  On every other name it returns a key. *)
Theorem alphanum_key_raises_iff (s : string) (e : exn) :
  alphanum_key s = Raise e
  <-> e = ValueError
      /\ exists t, In t (re_split s) /\ isdigit t = true /\ digit_run t = false.
Proof.
  unfold alphanum_key. split.
  - intros H. destruct (comprehension_raises convert _ e H) as (t & Ht & Hc).
    apply convert_raises in Hc as (-> & Hd & Hr). eauto.
  - intros (-> & t & Ht & Hd & Hr).
    assert (Hc : convert t = Raise ValueError) by (apply convert_raises; auto).
    destruct (comprehension_some_raise convert _ t ValueError Ht Hc) as [e' He'].
    rewrite He'. f_equal.
    destruct (comprehension_raises convert _ e' He') as (t' & _ & Hc').
    now apply convert_raises in Hc'.
Qed.

(** X7.  [natural_sort] raises exactly when the key of one of the names
    raises, and then with [ValueError]: comparing two keys never raises,
    in particular never because an [int] meets a [str]. *)
Theorem natural_sort_raises_iff (l : list string) (e : exn) :
  natural_sort l = Raise e
  <-> e = ValueError /\ exists name, In name l /\ alphanum_key name = Raise ValueError.
Proof.
  split.
  - intros H.
    destruct (comprehension alphanum_key l) as [ks|e'] eqn:Ek.
    + destruct (natural_sort_keys l ks Ek) as [l' Hl']. congruence.
    + assert (e' = e).
      { unfold natural_sort, sorted in H. rewrite Ek in H. simpl in H. congruence. }
      subst e'. destruct (comprehension_raises alphanum_key l e Ek) as (n & Hn & Hk).
      assert (e = ValueError) by (apply (alphanum_key_raises_iff n e); exact Hk).
      subst e. eauto.
  - intros (-> & n & Hn & Hk).
    destruct (comprehension_some_raise alphanum_key l n ValueError Hn Hk) as [e' He'].
    unfold natural_sort, sorted. rewrite He'. simpl. f_equal.
    destruct (comprehension_raises alphanum_key l e' He') as (n' & _ & Hk').
    now apply (alphanum_key_raises_iff n' e').
Qed.

(** ** Keys of ASCII names *)

(** X8.  For every ASCII name [alphanum_key] returns a key: it is not
    empty, has one element for each piece of the split, holds a [str] at
    every even index and an [int] at every odd one, and ends with a
    [str]. *)
Theorem alphanum_key_ascii_shape (s : string) :
  is_ascii s = true ->
  exists k,
    alphanum_key s = Ok k
    /\ k <> []
    /\ List.length k = List.length (re_split s)
    /\ Nat.even (List.length k - 1) = true
    /\ forall i x, nth_error k i = Some x ->
         is_str x = Nat.even i /\ is_int x = Nat.odd i.
Proof.
  intros H. destruct (alphanum_key_ascii s H) as [k Hk]. exists k.
  destruct (alphanum_key_positions s k Hk) as (H1 & H2 & H3).
  repeat split; auto; try apply H3; auto.
  exact (comprehension_length convert (re_split s) k Hk).
Qed.

Lemma alphanum_key_ascii_shape_witness :
  exists k,
    alphanum_key "shot2_frame010.png" = Ok k
    /\ k <> []
    /\ List.length k = List.length (re_split "shot2_frame010.png")
    /\ Nat.even (List.length k - 1) = true
    /\ forall i x, nth_error k i = Some x ->
         is_str x = Nat.even i /\ is_int x = Nat.odd i.
Proof. exact (alphanum_key_ascii_shape "shot2_frame010.png" eq_refl). Defined.

(** ** Letter case *)

Lemma char_lower_facts (c : ascii) :
  is_ascii_digit (char_lower c) = is_ascii_digit c
  /\ char_isdigit (char_lower c) = char_isdigit c
  /\ char_lower (char_lower c) = char_lower c.
Proof.
  destruct c as [[|] [|] [|] [|] [|] [|] [|] [|]]; vm_compute; auto.
Qed.

Lemma lower_idem (t : string) : lower (lower t) = lower t.
Proof.
  induction t as [|c t IH]; simpl; auto.
  destruct (char_lower_facts c) as (_ & _ & ->). now rewrite IH.
Qed.

Lemma all_chars_lower (p : ascii -> bool) (t : string) :
  (forall c, p (char_lower c) = p c) ->
  all_chars p (lower t) = all_chars p t.
Proof.
  intros Hp. induction t as [|c t IH]; simpl; auto. now rewrite Hp, IH.
Qed.

Lemma ascii_digits_lower (t : string) :
  all_chars is_ascii_digit t = true -> lower t = t.
Proof.
  induction t as [|c t IH]; simpl; auto.
  rewrite andb_true_iff. intros [Hc Ht]. rewrite (IH Ht). f_equal.
  revert Hc. destruct c as [[|] [|] [|] [|] [|] [|] [|] [|]]; vm_compute; auto;
    discriminate.
Qed.

Lemma convert_lower (t : string) : convert (lower t) = convert t.
Proof.
  unfold convert, isdigit, int.
  assert (D : all_chars char_isdigit (lower t) = all_chars char_isdigit t)
    by (apply all_chars_lower; intros c; apply char_lower_facts).
  assert (A : all_chars is_ascii_digit (lower t) = all_chars is_ascii_digit t)
    by (apply all_chars_lower; intros c; apply char_lower_facts).
  destruct t as [|c t]; auto.
  change (lower (String c t)) with (String (char_lower c) (lower t)) in *.
  rewrite D, A.
  destruct (all_chars char_isdigit (String c t)).
  - destruct (all_chars is_ascii_digit (String c t)) eqn:E; auto.
    change (String (char_lower c) (lower t)) with (lower (String c t)).
    now rewrite (ascii_digits_lower (String c t) E).
  - change (String (char_lower c) (lower t)) with (lower (String c t)).
    now rewrite lower_idem.
Qed.

Lemma re_split_lower (s : string) : re_split (lower s) = map lower (re_split s).
Proof.
  induction s as [|c s IH]; simpl; auto.
  rewrite IH. destruct (char_lower_facts c) as (-> & _ & _).
  destruct (re_split s) as [|t rest]; simpl; auto.
  destruct (is_ascii_digit c); auto.
  destruct t as [|x t]; simpl; auto.
  destruct rest as [|d rest]; simpl; auto.
Qed.

Lemma comprehension_map {A B C} (f : B -> result C) (g : A -> B) (l : list A) :
  comprehension f (map g l) = comprehension (fun x => f (g x)) l.
Proof. induction l as [|x l IH]; simpl; auto. now rewrite IH. Qed.

Lemma comprehension_ext {A B} (f g : A -> result B) (l : list A) :
  (forall x, f x = g x) -> comprehension f l = comprehension g l.
Proof. intros H. induction l as [|x l IH]; simpl; auto. now rewrite H, IH. Qed.

(** X9.  Keys do not see letter case: a name and its lowercase form
    have the same key (or both raise), so names that differ only in the
    case of their letters compare equal. *)
Theorem alphanum_key_ignores_case (s : string) :
  alphanum_key (lower s) = alphanum_key s.
Proof.
  unfold alphanum_key. rewrite re_split_lower, comprehension_map.
  apply comprehension_ext. apply convert_lower.
Qed.

(** ** Where names fall *)

Lemma comprehension_cons {A B} (f : A -> result B) (x : A) (l : list A)
    (k : list B) :
  comprehension f (x :: l) = Ok k ->
  exists y ys, k = y :: ys /\ f x = Ok y /\ comprehension f l = Ok ys.
Proof.
  simpl. destruct (f x) as [y|e]; simpl; [|discriminate].
  destruct (comprehension f l) as [ys|e]; simpl; [|discriminate].
  intros H. injection H as <-. eauto.
Qed.

(** The key of a name that begins with an ASCII digit begins with the
    empty [str] and an [int]. *)
Lemma alphanum_key_digit_head (c : ascii) (a : string) (k : list token) :
  is_ascii_digit c = true -> alphanum_key (String c a) = Ok k ->
  exists n rest, k = TStr "" :: TInt n :: rest.
Proof.
  intros Hc Hk. destruct (alphanum_key_shape _ _ Hk) as [Sk _].
  revert Hk. unfold alphanum_key. simpl re_split.
  destruct (re_split a) as [|t rest] eqn:E; [now apply re_split_nonempty in E|].
  rewrite Hc.
  assert (G : forall d l, comprehension convert ("" :: d :: l) = Ok k ->
              exists n r, k = TStr "" :: TInt n :: r).
  { intros d l H.
    apply comprehension_cons in H as (y & ys & -> & Hy & H).
    apply comprehension_cons in H as (z & zs & -> & _ & _).
    injection Hy as <-. simpl in Sk. destruct z; [eauto | discriminate]. }
  destruct t as [|x t]; [destruct rest as [|d rest]|]; apply G.
Qed.

(** The key of a name that begins with another character begins with a
    non-empty [str]. *)
Lemma alphanum_key_text_head (c : ascii) (a : string) (k : list token) :
  is_ascii_digit c = false -> alphanum_key (String c a) = Ok k ->
  exists t rest, k = TStr (String (char_lower c) t) :: rest.
Proof.
  intros Hc Hk. destruct (re_split_pieces (String c a)) as [Hp _].
  revert Hk Hp. unfold alphanum_key. simpl re_split.
  destruct (re_split a) as [|t rest] eqn:E; [now apply re_split_nonempty in E|].
  rewrite Hc. intros Hk Hp.
  apply comprehension_cons in Hk as (y & ys & -> & Hy & _).
  simpl in Hp. apply andb_true_iff in Hp as [Ht _].
  rewrite (convert_text_piece _ _ Ht Hy). simpl. eauto.
Qed.

(** X10.  Among names with characters up to U+00FF, the empty name
    comes first: it is smaller than every other name that has a key, and
    no name is smaller than it. *)
Theorem empty_name_sorts_first (a : string) (ka : list token) :
  alphanum_key a = Ok ka -> a <> "" ->
  natural_lt "" a = Ok true /\ natural_lt a "" = Ok false.
Proof.
  intros Hk Ha. unfold natural_lt. rewrite Hk.
  change (alphanum_key "") with (Ok [TStr ""]). simpl.
  destruct a as [|c a]; [contradiction|].
  destruct (is_ascii_digit c) eqn:Hc.
  - destruct (alphanum_key_digit_head c a ka Hc Hk) as (n & rest & ->). auto.
  - destruct (alphanum_key_text_head c a ka Hc Hk) as (t & rest & ->). auto.
Qed.

Lemma empty_name_sorts_first_witness :
  natural_lt "" "0.png" = Ok true /\ natural_lt "0.png" "" = Ok false.
Proof.
  exact (empty_name_sorts_first "0.png" [TStr ""; TInt 0; TStr ".png"]
           eq_refl ltac:(discriminate)).
Defined.

(** X11.  Among names with characters up to U+00FF, those that begin
    with an ASCII digit come before those that begin with any other
    character, whatever follows (both names having a key). *)
Theorem digit_names_before_text_names (a b : string) (ka kb : list token) :
  starts_with_digit a = true ->
  b <> "" -> starts_with_digit b = false ->
  alphanum_key a = Ok ka -> alphanum_key b = Ok kb ->
  natural_lt a b = Ok true /\ natural_lt b a = Ok false.
Proof.
  intros Ha Hb Hb' Hka Hkb. unfold natural_lt. rewrite Hka, Hkb. simpl.
  destruct a as [|c a]; [discriminate|]. destruct b as [|c' b]; [contradiction|].
  simpl in Ha, Hb'.
  destruct (alphanum_key_digit_head c a ka Ha Hka) as (n & rest & ->).
  destruct (alphanum_key_text_head c' b kb Hb' Hkb) as (t & rest' & ->). auto.
Qed.

Lemma digit_names_before_text_names_witness :
  natural_lt "9z.png" "a1.png" = Ok true /\ natural_lt "a1.png" "9z.png" = Ok false.
Proof.
  exact (digit_names_before_text_names "9z.png" "a1.png"
           [TStr ""; TInt 9; TStr "z.png"] [TStr "a"; TInt 1; TStr ".png"]
           eq_refl ltac:(discriminate) eq_refl eq_refl eq_refl).
Defined.

(** X12.  Names without any digit compare as their lowercase forms do,
    character by character. *)
Theorem text_names_compare_lowercase (a b : string) :
  is_text a = true -> is_text b = true ->
  natural_lt a b = Ok (str_lt (lower a) (lower b)).
Proof.
  intros Ha Hb. unfold natural_lt.
  rewrite (alphanum_key_text a Ha), (alphanum_key_text b Hb). simpl.
  destruct (String.eqb (lower a) (lower b)) eqn:E; auto.
  apply String.eqb_eq in E. rewrite E. now rewrite str_lt_irrefl.
Qed.

Lemma text_names_compare_lowercase_witness :
  natural_lt "Beta.png" "alpha.png" = Ok (str_lt (lower "Beta.png") (lower "alpha.png")).
Proof. exact (text_names_compare_lowercase "Beta.png" "alpha.png" eq_refl eq_refl). Defined.

(** ** The split *)

(** X13.  Splitting a name loses nothing and cuts it into text and
    digits in turn: the pieces concatenate back to the name, there is an
    odd number of them, those at even positions hold no ASCII digit and
    those at odd positions are non-empty runs of ASCII digits. *)
Theorem re_split_pieces_rejoin (s : string) :
  String.concat "" (re_split s) = s
  /\ Nat.odd (List.length (re_split s)) = true
  /\ forall i t, nth_error (re_split s) i = Some t ->
       if Nat.even i then text_piece t = true else digit_run t = true.
Proof.
  split; [apply re_split_concat|]. destruct (re_split_pieces s) as [Hp Ho].
  split; [exact Ho|].
  assert (G : forall l b i t, pieces b l = true -> nth_error l i = Some t ->
              if xorb b (Nat.even i) then text_piece t = true else digit_run t = true).
  { induction l as [|x l IH]; intros b i t Hl Hi; [destruct i; discriminate|].
    simpl in Hl. apply andb_true_iff in Hl as [Hx Hl].
    destruct i as [|i]; simpl in Hi.
    - injection Hi as <-. destruct b; simpl; auto.
    - specialize (IH _ _ _ Hl Hi). rewrite Nat.even_succ, <- Nat.negb_even.
      destruct b, (Nat.even i); simpl in *; auto. }
  intros i t Hi. specialize (G _ false i t Hp Hi). simpl in G.
  destruct (Nat.even i); auto.
Qed.

(** * Further properties of the driver *)

(** ** How a call can end *)

Lemma preparing_written (path : string) (ls : list line) :
  forallb preparing (written path ls) = true.
Proof.
  unfold written. induction ls as [|l ls IH]; [reflexivity|].
  simpl. rewrite forallb_app, IH. reflexivity.
Qed.

Lemma runs_app (tr1 tr2 : list event) :
  runs (tr1 ++ tr2) = (runs tr1 + runs tr2)%nat.
Proof.
  induction tr1 as [|[] tr1 IH]; simpl; auto.
Qed.

Lemma runs_preparing (evs : list event) :
  forallb preparing evs = true -> runs evs = 0%nat.
Proof.
  induction evs as [|[] evs IH]; simpl; auto; try discriminate.
  all: destruct m; try discriminate; auto.
Qed.

Lemma lift_eq {A} (r : result A) (s : state) : lift r s = (r, s).
Proof. reflexivity. Qed.

(** Writing the list file either succeeds as a whole or raises, and in
    both cases does nothing beyond opening, writing and closing. *)
Lemma with_open_cases w path frames_path d frames s :
  (os_open_w w path = Ok tt
   /\ writes_ok w path (EvOpen path :: trace s) (lines_of frames_path d frames)
   /\ os_close w path = Ok tt)
  \/ (~ (os_open_w w path = Ok tt
         /\ writes_ok w path (EvOpen path :: trace s)
              (lines_of frames_path d frames)
         /\ os_close w path = Ok tt)
      /\ exists e s' evs,
           with_open w path (for_each frames (write_frame w path frames_path d)) s
           = (Raise e, s')
           /\ trace s' = (evs ++ trace s)%list
           /\ forallb preparing evs = true).
Proof.
  destruct (os_open_w w path) as [[]|e] eqn:Hop.
  2:{ right. split; [intros [H _]; discriminate|].
      exists e, s, []. unfold with_open, open_w. rewrite Hop. auto. }
  destruct (write_frames w path frames_path d frames
              {| files := add_file path (files s); trace := EvOpen path :: trace s |})
    as (done & rest & Hl & Hd & Hs & Hr).
  cbn [files trace] in Hd, Hs, Hr.
  destruct (os_close w path) as [[]|e] eqn:Hcl;
    destruct (for_each frames _ _) as [[[]|e'] s2] eqn:Hbody; cbn [fst snd] in Hs, Hr.
  - left. subst rest. rewrite app_nil_r in Hl. rewrite Hl. auto.
  - right. destruct Hr as (l & rest' & -> & Hraise). split.
    { intros (_ & H & _). rewrite Hl in H. apply writes_ok_app in H.
      destruct H as [_ [H _]]. rewrite H in Hraise. discriminate. }
    exists e', {| files := files s2; trace := EvClose path :: trace s2 |},
      (EvClose path :: written path done ++ [EvOpen path])%list.
    unfold with_open, open_w. rewrite Hop, Hbody. unfold close, attempt, emit.
    rewrite Hcl. split; [reflexivity|]. subst s2. cbn [trace]. split.
    + simpl. now rewrite <- app_assoc.
    + simpl. rewrite forallb_app, preparing_written. reflexivity.
  - right. split; [intros (_ & _ & H); discriminate|].
    exists e, s2, (written path done ++ [EvOpen path])%list.
    unfold with_open, open_w. rewrite Hop, Hbody. unfold close, attempt.
    rewrite Hcl. split; [reflexivity|]. subst s2. cbn [trace]. split.
    + now rewrite <- app_assoc.
    + rewrite forallb_app, preparing_written. reflexivity.
  - right. split; [intros (_ & _ & H); discriminate|].
    exists e, s2, (written path done ++ [EvOpen path])%list.
    unfold with_open, open_w. rewrite Hop, Hbody. unfold close, attempt.
    rewrite Hcl. split; [reflexivity|]. subst s2. cbn [trace]. split.
    + now rewrite <- app_assoc.
    + rewrite forallb_app, preparing_written. reflexivity.
Qed.

(** A call either comes to its encoder with the list file complete, or
    ends before: then it started no encoder, removed nothing, and
    returned normally only after finding no image, with no file
    changed. *)
Lemma process_single_directory_cases w frames_path output_path name fps res s :
  (exists sorted_frames,
      list_file_ready w frames_path output_path name fps (trace s) sorted_frames
      /\ process_single_directory w frames_path output_path name fps res s
         = (process <- run w (ffmpeg_command_of frames_path output_path name fps res) ;;
            remove w (list_file_path_of frames_path output_path name) ;;
            if returncode process =? 0
            then print w (MsgSuccess (output_video_path_of frames_path output_path name))
            else
              print w (MsgError frames_path) ;;
              text <- lift (stderr process) ;;
              print w (MsgFFmpegError text))
             {| files := add_file (list_file_path_of frames_path output_path name)
                           (files s);
                trace :=
                  (EvClose (list_file_path_of frames_path output_path name)
                   :: written (list_file_path_of frames_path output_path name)
                        (lines_of frames_path (OneOver fps) sorted_frames)
                   ++ [EvOpen (list_file_path_of frames_path output_path name);
                       EvPrint (MsgProcessing frames_path
                                  (output_video_path_of frames_path output_path name))]
                   ++ trace s)%list |})
  \/ ((forall sorted_frames,
         ~ list_file_ready w frames_path output_path name fps (trace s) sorted_frames)
      /\ exists r s' evs,
           process_single_directory w frames_path output_path name fps res s = (r, s')
           /\ trace s' = (evs ++ trace s)%list
           /\ forallb preparing evs = true
           /\ (r = Ok tt -> files s' = files s)).
Proof.
  destruct (os_print w (MsgProcessing frames_path
                          (output_video_path_of frames_path output_path name)))
    as [[]|e] eqn:Hpr.
  2:{ right. split; [intros so (H & _); congruence|].
      exists (Raise e), s, [].
      rewrite (process_single_directory_unannounced _ _ _ _ _ _ _ _ Hpr). auto. }
  destruct (os_listdir w frames_path) as [names|e] eqn:Hls.
  2:{ right. split; [intros so (_ & (n & f & fs & H & _) & _); congruence|].
      exists (Raise e), {| files := files s;
                           trace := EvPrint (MsgProcessing frames_path
                                               (output_video_path_of frames_path
                                                  output_path name)) :: trace s |},
        [EvPrint (MsgProcessing frames_path
                    (output_video_path_of frames_path output_path name))].
      split; [|split; [reflexivity|split; [reflexivity|discriminate]]].
      unfold process_single_directory, listdir.
      rewrite (bind_ok _ _ _ _ _ (print_ok _ _ _ Hpr)).
      unfold bind at 1. unfold lift at 1. now rewrite Hls. }
  destruct (filter (fun f => endswith_any image_suffixes (lower f)) names)
    as [|f fs] eqn:Hfr.
  { right. split; [intros so (_ & (n & f & fs & H1 & H2 & _) & _); congruence|].
    assert (E : process_single_directory w frames_path output_path name fps res s
                = print w (MsgNoImages frames_path)
                    {| files := files s;
                       trace := EvPrint (MsgProcessing frames_path
                                           (output_video_path_of frames_path
                                              output_path name)) :: trace s |}).
    { unfold process_single_directory, listdir.
      rewrite (bind_ok _ _ _ _ _ (print_ok _ _ _ Hpr)).
      unfold bind at 1. unfold lift at 1. rewrite Hls. cbv beta iota.
      now rewrite Hfr. }
    rewrite E.
    destruct (os_print w (MsgNoImages frames_path)) as [[]|e] eqn:Hno.
    - rewrite (print_ok _ _ _ Hno). eexists _, _, [_; _].
      split; [reflexivity|]. repeat split.
    - rewrite (print_raise _ _ _ _ Hno). eexists _, _, [_].
      split; [reflexivity|]. repeat split; try discriminate. }
  assert (E : process_single_directory w frames_path output_path name fps res s
              = (sorted_frames <- lift (natural_sort (f :: fs)) ;;
                 frame_duration <- lift (true_div_one fps) ;;
                 with_open w (list_file_path_of frames_path output_path name)
                   (for_each sorted_frames
                      (write_frame w (list_file_path_of frames_path output_path name)
                         frames_path frame_duration)) ;;
                 process <- run w (ffmpeg_command_of frames_path output_path name
                                     fps res) ;;
                 remove w (list_file_path_of frames_path output_path name) ;;
                 if returncode process =? 0
                 then print w (MsgSuccess (output_video_path_of frames_path
                                             output_path name))
                 else
                   print w (MsgError frames_path) ;;
                   text <- lift (stderr process) ;;
                   print w (MsgFFmpegError text))
                  {| files := files s;
                     trace := EvPrint (MsgProcessing frames_path
                                         (output_video_path_of frames_path
                                            output_path name)) :: trace s |}).
  { unfold process_single_directory, listdir.
    rewrite (bind_ok _ _ _ _ _ (print_ok _ _ _ Hpr)).
    unfold bind at 1. unfold lift at 1. rewrite Hls. cbv beta iota.
    now rewrite Hfr. }
  rewrite E. clear E.
  destruct (natural_sort (f :: fs)) as [sorted_frames|e] eqn:Hso.
  2:{ right. split.
      { intros so (_ & (n & f' & fs' & H1 & H2 & H3) & _).
        rewrite Hls in H1. injection H1 as <-. rewrite Hfr in H2.
        injection H2 as <- <-. congruence. }
      eexists _, _, [_]. rewrite (bind_raise _ _ _ _ _ (lift_eq (Raise e) _)).
      split; [reflexivity|]. repeat split; try discriminate. }
  rewrite (bind_ok _ _ _ _ _ (lift_eq (Ok sorted_frames) _)). cbv beta.
  assert (Hsorted : forall so,
            list_file_ready w frames_path output_path name fps (trace s) so ->
            so = sorted_frames).
  { intros so (_ & (n & f' & fs' & H1 & H2 & H3) & _).
    rewrite Hls in H1. injection H1 as <-. rewrite Hfr in H2.
    injection H2 as <- <-. congruence. }
  destruct (Z.eq_dec fps 0) as [->|Hfps].
  { right. split; [intros so (_ & _ & H & _); now apply H|].
    eexists _, _, [_]. rewrite true_div_one_zero.
    rewrite (bind_raise _ _ _ _ _ (lift_eq (Raise ZeroDivisionError) _)).
    split; [reflexivity|]. repeat split; try discriminate. }
  destruct (Z_lt_le_dec (Z.abs fps) float_overflow_bound) as [Hsmall|Hbig].
  2:{ right. split; [intros so (_ & _ & _ & H & _); lia|].
      eexists _, _, [_]. rewrite (true_div_one_overflow _ Hbig).
      rewrite (bind_raise _ _ _ _ _ (lift_eq (Raise OverflowError) _)).
      split; [reflexivity|]. repeat split; try discriminate. }
  rewrite (true_div_one_ok _ Hfps Hsmall).
  rewrite (bind_ok _ _ _ _ _ (lift_eq (Ok (OneOver fps)) _)). cbv beta.
  destruct (with_open_cases w (list_file_path_of frames_path output_path name)
              frames_path (OneOver fps) sorted_frames
              {| files := files s;
                 trace := EvPrint (MsgProcessing frames_path
                                     (output_video_path_of frames_path output_path
                                        name)) :: trace s |})
    as [(Hop & Hwr & Hcl)|(Hnot & e & s' & evs & Hwith & Htr & Hev)].
  - left. exists sorted_frames. split.
    { unfold list_file_ready. repeat split; eauto 10. }
    rewrite (bind_ok _ _ _ _ _
               (with_open_ok w (list_file_path_of frames_path output_path name)
                  frames_path (OneOver fps) sorted_frames
                  {| files := files s;
                     trace := EvPrint (MsgProcessing frames_path
                                         (output_video_path_of frames_path
                                            output_path name)) :: trace s |}
                  Hop Hwr Hcl)).
    reflexivity.
  - right. split.
    { intros so Hready. pose proof (Hsorted so Hready) as ->.
      destruct Hready as (_ & _ & _ & _ & H1 & H2 & H3). apply Hnot. auto. }
    exists (Raise e), s',
      (evs ++ [EvPrint (MsgProcessing frames_path
                          (output_video_path_of frames_path output_path name))])%list.
    rewrite (bind_raise _ _ _ _ _ Hwith). split; [reflexivity|].
    cbn [trace] in Htr. rewrite Htr, <- app_assoc. split; [reflexivity|].
    split; [|discriminate]. rewrite forallb_app, Hev. reflexivity.
Qed.

(** From the encoder on: the run, then the removal, then the report. *)
Lemma encode_cases w (cmd : ffmpeg_command) (path frames_path out : string) s :
  In path (files s) ->
  exists later,
    trace (snd ((process <- run w cmd ;;
                 remove w path ;;
                 if returncode process =? 0
                 then print w (MsgSuccess out)
                 else
                   print w (MsgError frames_path) ;;
                   text <- lift (stderr process) ;;
                   print w (MsgFFmpegError text)) s))
    = (later ++ EvRun cmd :: trace s)%list
    /\ (later = []
        \/ exists report,
             later = (report ++ [EvRemove path])%list
             /\ (exists process, os_run w cmd = Ok process)
             /\ os_remove w path = Ok tt
             /\ (report = [] \/ report = [EvPrint (MsgSuccess out)]
                 \/ report = [EvPrint (MsgError frames_path)]
                 \/ exists text,
                      report = [EvPrint (MsgFFmpegError text);
                                EvPrint (MsgError frames_path)]))
    /\ (fst ((process <- run w cmd ;;
              remove w path ;;
              if returncode process =? 0
              then print w (MsgSuccess out)
              else
                print w (MsgError frames_path) ;;
                text <- lift (stderr process) ;;
                print w (MsgFFmpegError text)) s) = Ok tt ->
        ~ In path (files (snd ((process <- run w cmd ;;
                                remove w path ;;
                                if returncode process =? 0
                                then print w (MsgSuccess out)
                                else
                                  print w (MsgError frames_path) ;;
                                  text <- lift (stderr process) ;;
                                  print w (MsgFFmpegError text)) s)))).
Proof.
  intros Hin. unfold bind, run, remove, print, attempt, emit, lift.
  destruct (os_run w cmd) as [process|e] eqn:Hrun; cbn [fst snd trace files].
  2:{ exists []. split; [reflexivity|]. split; [auto|discriminate]. }
  match goal with
  | |- context [in_dec string_dec path ?l] =>
      destruct (in_dec string_dec path l) as [_|N];
      [|destruct N; destruct (os_run_writes w cmd);
        [apply in_add_file_keeps|]; exact Hin]
  end.
  destruct (os_remove w path) as [[]|e] eqn:Hrm; cbn [fst snd trace files].
  2:{ exists []. split; [reflexivity|]. split; [auto|discriminate]. }
  destruct (returncode process =? 0).
  - destruct (os_print w (MsgSuccess out)) as [[]|e]; cbn [fst snd trace files].
    + exists [EvPrint (MsgSuccess out); EvRemove path]. split; [reflexivity|].
      split; [|intros _; apply remove_In].
      right. exists [EvPrint (MsgSuccess out)]. eauto 10.
    + exists [EvRemove path]. split; [reflexivity|].
      split; [|discriminate]. right. exists []. eauto 10.
  - destruct (os_print w (MsgError frames_path)) as [[]|e]; cbn [fst snd trace files].
    2:{ exists [EvRemove path]. split; [reflexivity|].
        split; [|discriminate]. right. exists []. eauto 10. }
    destruct (stderr process) as [text|e]; cbn [fst snd trace files].
    2:{ exists [EvPrint (MsgError frames_path); EvRemove path].
        split; [reflexivity|]. split; [|discriminate].
        right. exists [EvPrint (MsgError frames_path)]. eauto 10. }
    destruct (os_print w (MsgFFmpegError text)) as [[]|e]; cbn [fst snd trace files].
    + exists [EvPrint (MsgFFmpegError text); EvPrint (MsgError frames_path);
              EvRemove path].
      split; [reflexivity|]. split; [|intros _; apply remove_In].
      right. exists [EvPrint (MsgFFmpegError text); EvPrint (MsgError frames_path)].
      eauto 10.
    + exists [EvPrint (MsgError frames_path); EvRemove path].
      split; [reflexivity|]. split; [|discriminate].
      right. exists [EvPrint (MsgError frames_path)]. eauto 10.
Qed.

(** ** The files a call touches *)

Lemma touches_refl (paths : list string) (s : state) :
  forall p, ~ In p paths -> (In p (files s) <-> In p (files s)).
Proof. tauto. Qed.

Lemma touches_trans (paths : list string) (s1 s2 s3 : state) :
  (forall p, ~ In p paths -> (In p (files s2) <-> In p (files s1))) ->
  (forall p, ~ In p paths -> (In p (files s3) <-> In p (files s2))) ->
  forall p, ~ In p paths -> (In p (files s3) <-> In p (files s1)).
Proof. intros H1 H2 p Hp. rewrite (H2 p Hp). exact (H1 p Hp). Qed.

Lemma touches_print (paths : list string) w m : only_touches paths (print w m).
Proof.
  intros s p _. unfold print, attempt, emit.
  destruct (os_print w m) as [[]|e]; simpl; tauto.
Qed.

Lemma touches_open_w (paths : list string) w path :
  In path paths -> only_touches paths (open_w w path).
Proof.
  intros Hin s p Hp. unfold open_w.
  destruct (os_open_w w path) as [[]|e]; simpl; [|tauto].
  apply in_add_file_other. intros ->. contradiction.
Qed.

Lemma touches_write (paths : list string) w path l : only_touches paths (write w path l).
Proof.
  intros s p _. unfold write, attempt, emit.
  destruct (os_write w (trace s) path l) as [[]|e]; simpl; tauto.
Qed.

Lemma touches_close (paths : list string) w path : only_touches paths (close w path).
Proof.
  intros s p _. unfold close, attempt, emit.
  destruct (os_close w path) as [[]|e]; simpl; tauto.
Qed.

Lemma touches_run (paths : list string) w cmd :
  In (cmd_output cmd) paths -> only_touches paths (run w cmd).
Proof.
  intros Hin s p Hp. unfold run.
  destruct (os_run w cmd) as [process|e]; simpl; [|tauto].
  destruct (os_run_writes w cmd); [|tauto].
  apply in_add_file_other. intros ->. contradiction.
Qed.

Lemma touches_remove (paths : list string) w path :
  In path paths -> only_touches paths (remove w path).
Proof.
  intros Hin s p Hp. unfold remove.
  destruct (in_dec string_dec path (files s)); [|simpl; tauto].
  destruct (os_remove w path) as [[]|e]; simpl; [|tauto].
  apply in_remove_other. intros ->. contradiction.
Qed.

Lemma process_single_directory_touches w frames_path output_path name fps res :
  only_touches [list_file_path_of frames_path output_path name;
                output_video_path_of frames_path output_path name]
    (process_single_directory w frames_path output_path name fps res).
Proof.
  apply (process_single_directory_steps
           (fun s s' =>
              forall p,
                ~ In p [list_file_path_of frames_path output_path name;
                        output_video_path_of frames_path output_path name] ->
                (In p (files s') <-> In p (files s)))
           (touches_refl _) (touches_trans _)).
  - intros m. apply touches_print.
  - apply touches_open_w. simpl. auto.
  - intros l. apply touches_write.
  - apply touches_close.
  - apply touches_run. simpl. auto.
  - apply touches_remove. simpl. auto.
Qed.

(** X15.  A call of [process_single_directory] creates and removes no
    file other than its own list file and the output video that its
    encoder writes, however the call ends. *)
Theorem process_single_directory_only_touches_its_files w frames_path output_path
    name fps res :
  only_touches [list_file_path_of frames_path output_path name;
                output_video_path_of frames_path output_path name]
    (process_single_directory w frames_path output_path name fps res).
Proof. apply process_single_directory_touches. Qed.

(** X16.  A call that returns normally leaves every file other than the
    output video as it found it, provided no file of the list file's name
    was there before: the list file it created is gone. *)
Theorem normal_return_leaves_no_list_file w frames_path output_path name fps res s :
  fst (process_single_directory w frames_path output_path name fps res s) = Ok tt ->
  ~ In (list_file_path_of frames_path output_path name) (files s) ->
  forall p,
    p <> output_video_path_of frames_path output_path name ->
    (In p (files (snd (process_single_directory w frames_path output_path name
                         fps res s)))
     <-> In p (files s)).
Proof.
  intros Hok Hnew p Hp.
  destruct (string_dec p (list_file_path_of frames_path output_path name))
    as [->|Hp'].
  2:{ apply process_single_directory_touches. simpl. intros [E|[E|[]]]; congruence. }
  split; [|intros H; contradiction]. intros H. exfalso. revert H.
  destruct (process_single_directory_cases w frames_path output_path name fps res s)
    as [(so & _ & E)|(_ & r & s' & evs & E & _ & _ & Hfiles)].
  - rewrite E in Hok |- *.
    match goal with
    | |- context [bind (run w ?cmd) _ ?s0] =>
        destruct (encode_cases w cmd (list_file_path_of frames_path output_path name)
                    frames_path (output_video_path_of frames_path output_path name)
                    s0 (in_add_file _ _)) as (later & _ & _ & H)
    end.
    exact (H Hok).
  - rewrite E in Hok |- *. cbn [fst snd] in *. now rewrite (Hfiles Hok).
Qed.

Lemma normal_return_leaves_no_list_file_witness :
  In "out/frames_frames.txt"
    (files (snd (process_single_directory
                   (Scenarios.studio (Scenarios.exits 1))
                   "frames" "out" None 20 "256x256" initial)))
  <-> In "out/frames_frames.txt" (files initial).
Proof.
  exact (normal_return_leaves_no_list_file (Scenarios.studio (Scenarios.exits 1))
           "frames" "out" None 20 "256x256" initial eq_refl
           ltac:(simpl; tauto) "out/frames_frames.txt" ltac:(discriminate)).
Defined.

(** ** The order of the steps of a call *)

(** X14.  Whatever the environment answers, a call of
    [process_single_directory] ends in one of two ways.  Either it ends
    before the encoder: all it did was announce the directory, say that
    it holds no image, or open, write and close the list file.  Or it
    started the encoder, once, right after announcing the directory,
    opening the list file, writing every line in order and closing it;
    after the encoder it did nothing more, or it removed the list file,
    which it does only when [subprocess.run] has returned, and after the
    removal reported nothing, success, or failure with or without the
    encoder's error text. *)
Theorem process_single_directory_endings w frames_path output_path name fps res s :
  let out := output_video_path_of frames_path output_path name in
  let lf := list_file_path_of frames_path output_path name in
  let cmd := ffmpeg_command_of frames_path output_path name fps res in
  let s' := snd (process_single_directory w frames_path output_path name fps res s) in
  (exists evs, trace s' = (evs ++ trace s)%list /\ forallb preparing evs = true)
  \/ (exists sorted_frames later,
        list_file_ready w frames_path output_path name fps (trace s) sorted_frames
        /\ trace s'
           = (later ++ [EvRun cmd; EvClose lf]
              ++ written lf (lines_of frames_path (OneOver fps) sorted_frames)
              ++ [EvOpen lf; EvPrint (MsgProcessing frames_path out)]
              ++ trace s)%list
        /\ (later = []
            \/ exists report,
                 later = (report ++ [EvRemove lf])%list
                 /\ (exists process, os_run w cmd = Ok process)
                 /\ os_remove w lf = Ok tt
                 /\ (report = [] \/ report = [EvPrint (MsgSuccess out)]
                     \/ report = [EvPrint (MsgError frames_path)]
                     \/ exists text,
                          report = [EvPrint (MsgFFmpegError text);
                                    EvPrint (MsgError frames_path)]))).
Proof.
  intros out lf cmd s'. subst out lf cmd s'.
  destruct (process_single_directory_cases w frames_path output_path name fps res s)
    as [(so & Hready & E)|(_ & r & s' & evs & E & Htr & Hev & _)].
  - right. exists so. rewrite E.
    match goal with
    | |- context [bind (run w ?cmd) _ ?s0] =>
        destruct (encode_cases w cmd (list_file_path_of frames_path output_path name)
                    frames_path (output_video_path_of frames_path output_path name)
                    s0 (in_add_file _ _)) as (later & Hlater & Hshape & _)
    end.
    exists later. split; [exact Hready|]. split; [|exact Hshape].
    rewrite Hlater. reflexivity.
  - left. rewrite E. exists evs. auto.
Qed.

Lemma runs_report (report : list event) (out frames_path path : string) :
  report = [] \/ report = [EvPrint (MsgSuccess out)]
  \/ report = [EvPrint (MsgError frames_path)]
  \/ (exists text, report = [EvPrint (MsgFFmpegError text);
                             EvPrint (MsgError frames_path)]) ->
  runs (report ++ [EvRemove path]) = 0%nat.
Proof. intros [->|[->|[->|[text ->]]]]; reflexivity. Qed.

(** X17.  A call starts the encoder at most once, and it starts it
    exactly when the announcement is printed, the directory can be listed
    and holds at least one image name, the names sort, [fps] is neither 0
    nor too large for a double, and the list file is opened, every line
    written and the file closed. *)
Theorem encoder_started_iff_ready w frames_path output_path name fps res s :
  let s' := snd (process_single_directory w frames_path output_path name fps res s) in
  (runs (trace s') = runs (trace s) \/ runs (trace s') = S (runs (trace s)))
  /\ (runs (trace s') = S (runs (trace s))
      <-> exists sorted_frames,
            list_file_ready w frames_path output_path name fps (trace s) sorted_frames).
Proof.
  intros s'. subst s'.
  destruct (process_single_directory_cases w frames_path output_path name fps res s)
    as [(so & Hready & E)|(Hnot & r & s' & evs & E & Htr & Hev & _)].
  - assert (G : runs (trace (snd (process_single_directory w frames_path output_path
                                    name fps res s))) = S (runs (trace s))).
    { rewrite E.
      match goal with
      | |- context [bind (run w ?cmd) _ ?s0] =>
          destruct (encode_cases w cmd (list_file_path_of frames_path output_path name)
                      frames_path (output_video_path_of frames_path output_path name)
                      s0 (in_add_file _ _)) as (later & -> & Hshape & _)
      end.
      rewrite runs_app. cbn [trace runs]. rewrite runs_app.
      rewrite (runs_preparing _ (preparing_written _ _)). cbn [runs app].
      destruct Hshape as [->|(report & -> & _ & _ & Hrep)]; [reflexivity|].
      now rewrite (runs_report _ _ _ _ Hrep). }
    split; [auto|]. split; [eauto|intros _; exact G].
  - rewrite E. cbn [snd]. rewrite Htr, runs_app, (runs_preparing _ Hev).
    split; [auto|]. split; [intros H; simpl in H; lia|].
    intros [so Hready]. destruct (Hnot so Hready).
Qed.

(** X18.  When nothing fails ([fps] is neither 0 nor too large for a
    double, every message is printed, the list file is opened, written and
    closed, the encoder exits with status 0 and the list file is removed),
    the list file gets two lines for each image name of the directory, and
    only for those: the names in natural order, each joined to the
    directory, each followed by the duration [1.0 / fps].  The encoder is
    run once on that file with the requested size and rate, the file is
    removed and success reported. *)
Theorem process_single_directory_encodes w frames_path output_path name fps res s
    names f fs sorted_frames process :
  os_print w (MsgProcessing frames_path
                (output_video_path_of frames_path output_path name)) = Ok tt ->
  os_listdir w frames_path = Ok names ->
  filter (fun f => endswith_any image_suffixes (lower f)) names = f :: fs ->
  natural_sort (f :: fs) = Ok sorted_frames ->
  fps <> 0 -> Z.abs fps < float_overflow_bound ->
  os_open_w w (list_file_path_of frames_path output_path name) = Ok tt ->
  (forall tr l,
     os_write w tr (list_file_path_of frames_path output_path name) l = Ok tt) ->
  os_close w (list_file_path_of frames_path output_path name) = Ok tt ->
  os_run w (ffmpeg_command_of frames_path output_path name fps res) = Ok process ->
  returncode process = 0 ->
  os_remove w (list_file_path_of frames_path output_path name) = Ok tt ->
  os_print w (MsgSuccess (output_video_path_of frames_path output_path name))
  = Ok tt ->
  process_single_directory w frames_path output_path name fps res s
  = (Ok tt,
     {| files :=
          List.remove string_dec (list_file_path_of frames_path output_path name)
            (if os_run_writes w (ffmpeg_command_of frames_path output_path name fps res)
             then add_file (output_video_path_of frames_path output_path name)
                    (add_file (list_file_path_of frames_path output_path name)
                       (files s))
             else add_file (list_file_path_of frames_path output_path name) (files s));
        trace :=
          ([EvPrint (MsgSuccess (output_video_path_of frames_path output_path name));
            EvRemove (list_file_path_of frames_path output_path name);
            EvRun (ffmpeg_command_of frames_path output_path name fps res);
            EvClose (list_file_path_of frames_path output_path name)]
           ++ written (list_file_path_of frames_path output_path name)
                (lines_of frames_path (OneOver fps) sorted_frames)
           ++ [EvOpen (list_file_path_of frames_path output_path name);
               EvPrint (MsgProcessing frames_path
                          (output_video_path_of frames_path output_path name))]
           ++ trace s)%list |})
  /\ Permutation
       (filter (fun f => endswith_any image_suffixes (lower f)) names)
       sorted_frames
  /\ (forall i j x y, (i < j)%nat ->
        nth_error sorted_frames i = Some x -> nth_error sorted_frames j = Some y ->
        natural_lt y x = Ok false).
Proof.
  intros Hpr Hls Hfr Hso Hfps Hsmall Hop Hwr Hcl Hrun Hcode Hrm Hsucc.
  split; [|split].
  - rewrite (list_file_written w frames_path output_path name fps res s names f fs
               sorted_frames Hpr Hls Hfr Hso Hfps Hsmall Hop
               (writes_ok_all _ _ _ _ Hwr) Hcl).
    unfold bind at 1. unfold run. rewrite Hrun.
    match goal with
    | |- bind (remove w ?p) _ ?s0 = _ =>
        assert (Hin : In p (files s0))
    end.
    { cbn [files]. destruct (os_run_writes w _);
        [apply in_add_file_keeps|]; apply in_add_file. }
    rewrite (bind_ok _ _ _ _ _ (remove_ok _ _ _ Hin Hrm)).
    rewrite Hcode. cbn [Z.eqb]. rewrite (print_ok _ _ _ Hsucc). reflexivity.
  - rewrite Hfr. exact (natural_sort_perm _ _ Hso).
  - intros i j x y Hij Hi Hj.
    exact (natural_sort_in_order _ _ i j x y Hso Hij Hi Hj).
Qed.

Lemma process_single_directory_encodes_witness :
  process_single_directory (Scenarios.studio (Scenarios.exits 0))
    "in/shot2" "out" (Some "shot2") 20 "256x256" initial
  = (Ok tt,
     {| files := ["out/shot2.mp4"];
        trace :=
          [EvPrint (MsgSuccess "out/shot2.mp4");
           EvRemove "out/shot2_frames.txt";
           EvRun {| cmd_input := "out/shot2_frames.txt"; cmd_size := "256x256";
                    cmd_rate := 20; cmd_output := "out/shot2.mp4" |};
           EvClose "out/shot2_frames.txt";
           EvWrite "out/shot2_frames.txt" (DurationLine (OneOver 20));
           EvWrite "out/shot2_frames.txt" (FileLine "in/shot2/f10.png");
           EvWrite "out/shot2_frames.txt" (DurationLine (OneOver 20));
           EvWrite "out/shot2_frames.txt" (FileLine "in/shot2/f9.PNG");
           EvOpen "out/shot2_frames.txt";
           EvPrint (MsgProcessing "in/shot2" "out/shot2.mp4")] |}).
Proof.
  exact (proj1 (process_single_directory_encodes
                  (Scenarios.studio (Scenarios.exits 0))
                  "in/shot2" "out" (Some "shot2") 20 "256x256" initial
                  ["f10.png"; "notes.txt"; "f9.PNG"] "f10.png" ["f9.PNG"]
                  ["f9.PNG"; "f10.png"] {| returncode := 0; stderr := Ok "" |}
                  eq_refl eq_refl eq_refl eq_refl ltac:(discriminate) eq_refl
                  eq_refl (fun _ _ => eq_refl) eq_refl eq_refl eq_refl eq_refl
                  eq_refl)).
Defined.

(** ** One invocation *)

(** X19.  In non-recursive mode nothing catches an exception of the
    directory's processing: it ends the invocation, and the closing
    message is not printed. *)
Theorem single_mode_exception_propagates w frames_path output_path name fps res
    s e s1 :
  os_makedirs w output_path = Ok tt ->
  process_single_directory w frames_path output_path name fps res
    {| files := files s; trace := EvMakedirs output_path :: trace s |}
  = (Raise e, s1) ->
  create_video_from_frames w frames_path output_path name fps res false s
  = (Raise e, s1).
Proof.
  intros Hmk Hpsd. rewrite (create_video_single _ _ _ _ _ _ _ Hmk).
  exact (bind_raise _ _ _ _ _ Hpsd).
Qed.

Lemma single_mode_exception_propagates_witness :
  create_video_from_frames (Scenarios.studio Scenarios.not_installed)
    "frames" "out" None 20 "256x256" false initial
  = (Raise FileNotFoundError,
     {| files := ["out/frames_frames.txt"];
        trace :=
          [EvRun {| cmd_input := "out/frames_frames.txt"; cmd_size := "256x256";
                    cmd_rate := 20; cmd_output := "out/frames.mp4" |};
           EvClose "out/frames_frames.txt";
           EvWrite "out/frames_frames.txt" (DurationLine (OneOver 20));
           EvWrite "out/frames_frames.txt" (FileLine "frames/b10.png");
           EvWrite "out/frames_frames.txt" (DurationLine (OneOver 20));
           EvWrite "out/frames_frames.txt" (FileLine "frames/b9.png");
           EvOpen "out/frames_frames.txt";
           EvPrint (MsgProcessing "frames" "out/frames.mp4");
           EvMakedirs "out"] |}).
Proof.
  exact (single_mode_exception_propagates (Scenarios.studio Scenarios.not_installed)
           "frames" "out" None 20 "256x256" initial FileNotFoundError _
           eq_refl eq_refl).
Defined.

(** X20.  Recursive mode on a directory without subdirectories does
    what non-recursive mode does without an explicit name: the directory
    itself is processed and a name given on the command line is
    ignored. *)
Theorem recursive_without_folders w frames_path output_path name fps res names s :
  os_listdir w frames_path = Ok names ->
  filter (fun f => os_isdir w (join frames_path f)) names = [] ->
  create_video_from_frames w frames_path output_path name fps res true s
  = create_video_from_frames w frames_path output_path None fps res false s.
Proof.
  intros Hls Hno. unfold create_video_from_frames, makedirs, listdir.
  unfold bind, emit, lift.
  destruct (os_makedirs w output_path) as [[]|e]; cbv beta iota; [|reflexivity].
  rewrite Hls. cbv beta iota. rewrite Hno. reflexivity.
Qed.

Lemma recursive_without_folders_witness :
  create_video_from_frames (Scenarios.studio (Scenarios.exits 0))
    "frames" "out" (Some "clip") 20 "256x256" true initial
  = create_video_from_frames (Scenarios.studio (Scenarios.exits 0))
      "frames" "out" None 20 "256x256" false initial.
Proof.
  exact (recursive_without_folders (Scenarios.studio (Scenarios.exits 0))
           "frames" "out" (Some "clip") 20 "256x256" ["b10.png"; "b9.png"] initial
           eq_refl eq_refl).
Defined.

(** X21.  In recursive mode [fps = 0] does not end the invocation: a
    folder that holds images is announced, the division raises, and the
    per-folder boundary reports [ZeroDivisionError] under the folder's
    name and returns, when standard output takes the two messages. *)
Theorem recursive_fps_zero_reported w frames_path output_path res folder s
    names f fs sorted_frames :
  os_print w (MsgProcessing (join frames_path folder)
                (output_video_path_of (join frames_path folder) output_path
                   (Some folder))) = Ok tt ->
  os_print w (MsgFolderError folder ZeroDivisionError) = Ok tt ->
  os_listdir w (join frames_path folder) = Ok names ->
  filter (fun f => endswith_any image_suffixes (lower f)) names = f :: fs ->
  natural_sort (f :: fs) = Ok sorted_frames ->
  process_folder w frames_path output_path 0 res folder s
  = (Ok tt,
     {| files := files s;
        trace :=
          EvPrint (MsgFolderError folder ZeroDivisionError)
          :: EvPrint (MsgProcessing (join frames_path folder)
                        (output_video_path_of (join frames_path folder) output_path
                           (Some folder)))
          :: trace s |}).
Proof.
  intros Hpr Hrep Hls Hfr Hso.
  rewrite (process_folder_caught _ _ _ _ _ _ _ _ _
             (process_single_directory_fps_zero w (join frames_path folder)
                output_path (Some folder) 0 res s names f fs sorted_frames
                Hpr Hls Hfr Hso eq_refl)).
  now rewrite (print_ok _ _ _ Hrep).
Qed.

Lemma recursive_fps_zero_reported_witness :
  process_folder (Scenarios.studio (Scenarios.exits 0)) "in" "out" 0 "256x256"
    "shot2" initial
  = (Ok tt,
     {| files := [];
        trace := [EvPrint (MsgFolderError "shot2" ZeroDivisionError);
                  EvPrint (MsgProcessing "in/shot2" "out/shot2.mp4")] |}).
Proof.
  exact (recursive_fps_zero_reported (Scenarios.studio (Scenarios.exits 0))
           "in" "out" "256x256" "shot2" initial
           ["f10.png"; "notes.txt"; "f9.PNG"] "f10.png" ["f9.PNG"]
           ["f9.PNG"; "f10.png"] eq_refl eq_refl eq_refl eq_refl eq_refl).
Defined.


(** ** Failures after the list file is opened *)

Lemma written_cons (path : string) (l : line) (ls : list line) (tr : list event) :
  (written path (l :: ls) ++ tr)%list = (written path ls ++ EvWrite path l :: tr)%list.
Proof.
  change (l :: ls) with ([l] ++ ls)%list. now rewrite written_app, <- app_assoc.
Qed.

Lemma first_failure_unique w path tr (done done' : list line) l rest rest' e :
  (done ++ l :: rest = done' ++ rest')%list ->
  writes_ok w path tr done ->
  os_write w (written path done ++ tr)%list path l = Raise e ->
  writes_ok w path tr done' ->
  (rest' = []
   \/ exists l0 r0 e0,
        rest' = l0 :: r0
        /\ os_write w (written path done' ++ tr)%list path l0 = Raise e0) ->
  done' = done /\ rest' = l :: rest.
Proof.
  revert done' tr. induction done as [|a done IH]; intros done' tr E Hd Hl Hd' Hr.
  - destruct done' as [|x done'']; simpl in E.
    + auto.
    + injection E as <- _. destruct Hd' as [H _]. simpl in Hl.
      rewrite H in Hl. discriminate.
  - destruct Hd as [Ha Hd]. destruct done' as [|x done'']; simpl in E.
    + destruct Hr as [->|(l0 & r0 & e0 & -> & Hl0)]; [discriminate|].
      injection E as <- _. simpl in Hl0. rewrite Ha in Hl0. discriminate.
    + injection E as <- E. destruct Hd' as [_ Hd'].
      rewrite written_cons in Hl.
      destruct (IH done'' (EvWrite path a :: tr) E Hd Hl Hd') as [-> ->]; auto.
      destruct Hr as [->|(l0 & r0 & e0 & -> & Hl0)]; [auto|].
      right. exists l0, r0, e0. split; [reflexivity|].
      now rewrite <- written_cons.
Qed.

(** The loop over the frames stops at the first line that cannot be
    written, with the lines before it written. *)
Lemma write_frames_stop w path frames_path d frames s done l rest e :
  lines_of frames_path d frames = (done ++ l :: rest)%list ->
  writes_ok w path (trace s) done ->
  os_write w (written path done ++ trace s)%list path l = Raise e ->
  for_each frames (write_frame w path frames_path d) s
  = (Raise e, {| files := files s; trace := (written path done ++ trace s)%list |}).
Proof.
  intros Hl Hd He.
  destruct (write_frames w path frames_path d frames s)
    as (done' & rest' & Hl' & Hd' & Hs & Hr).
  assert (G : done' = done /\ rest' = l :: rest).
  { apply (first_failure_unique w path (trace s) done done' l rest rest' e); auto.
    - now rewrite <- Hl.
    - destruct (fst (for_each frames _ s)) as [[]|e0]; [auto|].
      destruct Hr as (l0 & r0 & -> & H0). right. exists l0, r0, e0. auto. }
  destruct G as [-> ->].
  destruct (for_each frames _ s) as [[[]|e0] s1]; cbn [fst snd] in *.
  - discriminate.
  - destruct Hr as (l0 & r0 & E & H0). injection E as <- <-.
    rewrite He in H0. injection H0 as <-. now rewrite Hs.
Qed.

(** Writing the list file when a line cannot be written: the file is
    closed all the same, and the exception of the closing, if any,
    replaces that of the write. *)
Lemma with_open_stop w path frames_path d frames s done l rest e :
  os_open_w w path = Ok tt ->
  lines_of frames_path d frames = (done ++ l :: rest)%list ->
  writes_ok w path (EvOpen path :: trace s) done ->
  os_write w (written path done ++ EvOpen path :: trace s)%list path l = Raise e ->
  with_open w path (for_each frames (write_frame w path frames_path d)) s
  = match os_close w path with
    | Ok _ =>
        (Raise e,
         {| files := add_file path (files s);
            trace := (EvClose path :: written path done ++ EvOpen path :: trace s)%list |})
    | Raise e' =>
        (Raise e',
         {| files := add_file path (files s);
            trace := (written path done ++ EvOpen path :: trace s)%list |})
    end.
Proof.
  intros Hop Hl Hd He. unfold with_open, open_w. rewrite Hop.
  rewrite (write_frames_stop w path frames_path d frames
             {| files := add_file path (files s); trace := EvOpen path :: trace s |}
             done l rest e Hl Hd He).
  unfold close, attempt, emit. destruct (os_close w path) as [[]|e']; reflexivity.
Qed.

(** X25.  A line of the list file that cannot be written ends the call
    with an exception, after the file was created: the [with] block
    closes the file, the exception of the write (or that of the closing,
    if closing fails too) leaves the call, the encoder is not started and
    the list file is not removed. *)
Theorem write_failure_leaves_list_file w frames_path output_path name fps res s
    names f fs sorted_frames done l rest e :
  os_print w (MsgProcessing frames_path
                (output_video_path_of frames_path output_path name)) = Ok tt ->
  os_listdir w frames_path = Ok names ->
  filter (fun f => endswith_any image_suffixes (lower f)) names = f :: fs ->
  natural_sort (f :: fs) = Ok sorted_frames ->
  fps <> 0 -> Z.abs fps < float_overflow_bound ->
  os_open_w w (list_file_path_of frames_path output_path name) = Ok tt ->
  lines_of frames_path (OneOver fps) sorted_frames = (done ++ l :: rest)%list ->
  writes_ok w (list_file_path_of frames_path output_path name)
    (EvOpen (list_file_path_of frames_path output_path name)
     :: EvPrint (MsgProcessing frames_path
                   (output_video_path_of frames_path output_path name))
     :: trace s) done ->
  os_write w
    (written (list_file_path_of frames_path output_path name) done
     ++ EvOpen (list_file_path_of frames_path output_path name)
     :: EvPrint (MsgProcessing frames_path
                   (output_video_path_of frames_path output_path name))
     :: trace s)%list
    (list_file_path_of frames_path output_path name) l = Raise e ->
  process_single_directory w frames_path output_path name fps res s
  = match os_close w (list_file_path_of frames_path output_path name) with
    | Ok _ =>
        (Raise e,
         {| files := add_file (list_file_path_of frames_path output_path name)
                       (files s);
            trace :=
              (EvClose (list_file_path_of frames_path output_path name)
               :: written (list_file_path_of frames_path output_path name) done
               ++ [EvOpen (list_file_path_of frames_path output_path name);
                   EvPrint (MsgProcessing frames_path
                              (output_video_path_of frames_path output_path name))]
               ++ trace s)%list |})
    | Raise e' =>
        (Raise e',
         {| files := add_file (list_file_path_of frames_path output_path name)
                       (files s);
            trace :=
              (written (list_file_path_of frames_path output_path name) done
               ++ [EvOpen (list_file_path_of frames_path output_path name);
                   EvPrint (MsgProcessing frames_path
                              (output_video_path_of frames_path output_path name))]
               ++ trace s)%list |})
    end
  /\ In (list_file_path_of frames_path output_path name)
       (files (snd (process_single_directory w frames_path output_path name
                      fps res s)))
  /\ runs (trace (snd (process_single_directory w frames_path output_path name
                         fps res s)))
     = runs (trace s).
Proof.
  intros Hpr Hls Hfr Hso Hfps Hsmall Hop Hl Hd He.
  assert (E : process_single_directory w frames_path output_path name fps res s
              = match os_close w (list_file_path_of frames_path output_path name) with
                | Ok _ =>
                    (Raise e,
                     {| files := add_file (list_file_path_of frames_path output_path
                                             name) (files s);
                        trace :=
                          (EvClose (list_file_path_of frames_path output_path name)
                           :: written (list_file_path_of frames_path output_path name)
                                done
                           ++ [EvOpen (list_file_path_of frames_path output_path name);
                               EvPrint (MsgProcessing frames_path
                                          (output_video_path_of frames_path
                                             output_path name))]
                           ++ trace s)%list |})
                | Raise e' =>
                    (Raise e',
                     {| files := add_file (list_file_path_of frames_path output_path
                                             name) (files s);
                        trace :=
                          (written (list_file_path_of frames_path output_path name)
                             done
                           ++ [EvOpen (list_file_path_of frames_path output_path name);
                               EvPrint (MsgProcessing frames_path
                                          (output_video_path_of frames_path
                                             output_path name))]
                           ++ trace s)%list |})
                end).
  { unfold process_single_directory, listdir.
    rewrite (bind_ok _ _ _ _ _ (print_ok _ _ _ Hpr)).
    unfold bind at 1. unfold lift at 1. rewrite Hls. cbv beta iota. rewrite Hfr.
    unfold bind at 1. unfold lift at 1. rewrite Hso.
    unfold bind at 1. unfold lift at 1. rewrite (true_div_one_ok _ Hfps Hsmall).
    unfold bind at 1.
    rewrite (with_open_stop w (list_file_path_of frames_path output_path name)
               frames_path (OneOver fps) sorted_frames
               {| files := files s;
                  trace := EvPrint (MsgProcessing frames_path
                                      (output_video_path_of frames_path
                                         output_path name)) :: trace s |}
               done l rest e Hop Hl Hd He).
    cbn [files trace].
    destruct (os_close w _) as [[]|e']; reflexivity. }
  rewrite E. split; [reflexivity|].
  destruct (os_close w _) as [[]|e']; cbn [snd files trace]; (split; [apply in_add_file|]).
  - cbn [runs]. rewrite runs_app.
    now rewrite (runs_preparing _ (preparing_written _ _)).
  - rewrite runs_app. now rewrite (runs_preparing _ (preparing_written _ _)).
Qed.

Lemma write_failure_leaves_list_file_witness :
  process_single_directory Scenarios.ascii_list_file
    "frames" "out" None 20 "256x256" initial
  = (Raise UnicodeEncodeError,
     {| files := ["out/frames_frames.txt"];
        trace :=
          [EvClose "out/frames_frames.txt";
           EvWrite "out/frames_frames.txt" (DurationLine (OneOver 20));
           EvWrite "out/frames_frames.txt" (FileLine "frames/a1.png");
           EvOpen "out/frames_frames.txt";
           EvPrint (MsgProcessing "frames" "out/frames.mp4")] |}).
Proof.
  exact (proj1 (write_failure_leaves_list_file Scenarios.ascii_list_file
                  "frames" "out" None 20 "256x256" initial
                  ["a1.png"; Scenarios.accented_frame]
                  "a1.png" [Scenarios.accented_frame]
                  ["a1.png"; Scenarios.accented_frame]
                  [FileLine "frames/a1.png"; DurationLine (OneOver 20)]
                  (FileLine (join "frames" Scenarios.accented_frame))
                  [DurationLine (OneOver 20)] UnicodeEncodeError
                  eq_refl eq_refl eq_refl eq_refl ltac:(discriminate) eq_refl
                  eq_refl eq_refl
                  (conj eq_refl (conj eq_refl I))
                  eq_refl)).
Defined.

(** X26.  When the encoder exits with a status other than 0 and its
    error output cannot be decoded, the call ends with
    [UnicodeDecodeError] (or whatever decoding raises) after the list file
    was removed and the first line of the failure report printed; the
    encoder's error text is not printed. *)
Theorem undecodable_stderr_ends_call w frames_path output_path name fps res s
    names f fs sorted_frames process e :
  os_print w (MsgProcessing frames_path
                (output_video_path_of frames_path output_path name)) = Ok tt ->
  os_listdir w frames_path = Ok names ->
  filter (fun f => endswith_any image_suffixes (lower f)) names = f :: fs ->
  natural_sort (f :: fs) = Ok sorted_frames ->
  fps <> 0 -> Z.abs fps < float_overflow_bound ->
  os_open_w w (list_file_path_of frames_path output_path name) = Ok tt ->
  (forall tr l,
     os_write w tr (list_file_path_of frames_path output_path name) l = Ok tt) ->
  os_close w (list_file_path_of frames_path output_path name) = Ok tt ->
  os_run w (ffmpeg_command_of frames_path output_path name fps res) = Ok process ->
  returncode process <> 0 ->
  os_remove w (list_file_path_of frames_path output_path name) = Ok tt ->
  os_print w (MsgError frames_path) = Ok tt ->
  stderr process = Raise e ->
  exists s',
    process_single_directory w frames_path output_path name fps res s = (Raise e, s')
    /\ ~ In (list_file_path_of frames_path output_path name) (files s')
    /\ trace s'
       = ([EvPrint (MsgError frames_path);
           EvRemove (list_file_path_of frames_path output_path name);
           EvRun (ffmpeg_command_of frames_path output_path name fps res);
           EvClose (list_file_path_of frames_path output_path name)]
          ++ written (list_file_path_of frames_path output_path name)
               (lines_of frames_path (OneOver fps) sorted_frames)
          ++ [EvOpen (list_file_path_of frames_path output_path name);
              EvPrint (MsgProcessing frames_path
                         (output_video_path_of frames_path output_path name))]
          ++ trace s)%list.
Proof.
  intros Hpr Hls Hfr Hso Hfps Hsmall Hop Hwr Hcl Hrun Hrc Hrm Hp1 Hde.
  destruct (encoder_returned w frames_path output_path name fps res s names f fs
              sorted_frames Hpr Hls Hfr Hso Hfps Hsmall Hop
              (writes_ok_all _ _ _ _ Hwr) Hcl process Hrun)
    as (s1 & -> & Hin & _ & Htr).
  rewrite (bind_ok _ _ _ _ _ (remove_ok _ _ _ Hin Hrm)).
  destruct (returncode process =? 0) eqn:R; [apply Z.eqb_eq in R; contradiction|].
  rewrite (bind_ok _ _ _ _ _ (print_ok _ _ _ Hp1)).
  unfold bind at 1. unfold lift. rewrite Hde.
  eexists. split; [reflexivity|]. cbn [files trace]. split; [apply remove_In|].
  rewrite Htr. reflexivity.
Qed.

Lemma undecodable_stderr_ends_call_witness :
  exists s',
    process_single_directory
      (Scenarios.studio
         (fun _ => Ok {| returncode := 1; stderr := Raise UnicodeDecodeError |}))
      "frames" "out" None 20 "256x256" initial
    = (Raise UnicodeDecodeError, s')
    /\ ~ In "out/frames_frames.txt" (files s')
    /\ trace s'
       = [EvPrint (MsgError "frames");
          EvRemove "out/frames_frames.txt";
          EvRun {| cmd_input := "out/frames_frames.txt"; cmd_size := "256x256";
                   cmd_rate := 20; cmd_output := "out/frames.mp4" |};
          EvClose "out/frames_frames.txt";
          EvWrite "out/frames_frames.txt" (DurationLine (OneOver 20));
          EvWrite "out/frames_frames.txt" (FileLine "frames/b10.png");
          EvWrite "out/frames_frames.txt" (DurationLine (OneOver 20));
          EvWrite "out/frames_frames.txt" (FileLine "frames/b9.png");
          EvOpen "out/frames_frames.txt";
          EvPrint (MsgProcessing "frames" "out/frames.mp4")].
Proof.
  exact (undecodable_stderr_ends_call
           (Scenarios.studio
              (fun _ => Ok {| returncode := 1; stderr := Raise UnicodeDecodeError |}))
           "frames" "out" None 20 "256x256" initial
           ["b10.png"; "b9.png"] "b10.png" ["b9.png"] ["b9.png"; "b10.png"]
           {| returncode := 1; stderr := Raise UnicodeDecodeError |}
           UnicodeDecodeError
           eq_refl eq_refl eq_refl eq_refl ltac:(discriminate) eq_refl
           eq_refl (fun _ _ => eq_refl) eq_refl eq_refl ltac:(discriminate)
           eq_refl eq_refl eq_refl).
Defined.
(** ** Names of the files written *)

Lemma append_cancel (a x y : string) : a ++ x = a ++ y -> x = y.
Proof. induction a as [|c a IH]; simpl; auto. intros H. injection H as H. auto. Qed.

Lemma append_assoc (a b c : string) : (a ++ b) ++ c = a ++ b ++ c.
Proof. induction a as [|x a IH]; simpl; auto. now rewrite IH. Qed.

(** [join] puts the same thing in front of two names that begin alike. *)
Lemma join_common_prefix (a base : string) :
  exists pre,
    join a (base ++ ".mp4") = pre ++ base ++ ".mp4"
    /\ join a (base ++ "_frames.txt") = pre ++ base ++ "_frames.txt".
Proof.
  unfold join, startswith.
  destruct base as [|c base].
  - simpl. destruct (String.eqb a "" || endswith "/" a).
    + exists a. split; reflexivity.
    + exists (a ++ "/"). rewrite !append_assoc. split; reflexivity.
  - assert (P : forall x, String.prefix "" x = true) by (intros []; reflexivity).
    cbn [append String.prefix]. rewrite !P. destruct (ascii_dec "/" c).
    + exists "". split; reflexivity.
    + destruct (String.eqb a "" || endswith "/" a).
      * exists a. split; reflexivity.
      * exists (a ++ "/"). rewrite !append_assoc. split; reflexivity.
Qed.

(** X22.  The list file and the output video of a call never have the
    same path, so removing the list file never removes the video. *)
Theorem list_file_is_not_the_video (frames_path output_path : string)
    (name : option string) :
  list_file_path_of frames_path output_path name
  <> output_video_path_of frames_path output_path name.
Proof.
  unfold list_file_path_of, output_video_path_of.
  destruct (join_common_prefix output_path (base_name_of frames_path name))
    as (pre & -> & ->).
  intros H. apply append_cancel in H. apply append_cancel in H. discriminate.
Qed.

(** ** The .mp4 extension of a given name *)

Lemma replace_no_dot (n : string) :
  none_of "." n = true -> replace_from ".mp4" "" 0 n = n.
Proof.
  induction n as [|c n IH]; [reflexivity|]. intros H.
  unfold none_of in H. cbn [all_chars mem_char] in H.
  apply andb_true_iff in H as [Hc Hn]. rewrite orb_false_r, negb_true_iff in Hc.
  cbn [replace_from String.prefix]. destruct (ascii_dec "." c) as [E|E].
  - subst c. rewrite Ascii.eqb_refl in Hc. discriminate.
  - f_equal. now apply IH.
Qed.

Lemma replace_no_dot_mp4 (n : string) :
  none_of "." n = true -> replace_from ".mp4" "" 0 (n ++ ".mp4") = n.
Proof.
  induction n as [|c n IH]; [reflexivity|]. intros H.
  unfold none_of in H. cbn [all_chars mem_char] in H.
  apply andb_true_iff in H as [Hc Hn]. rewrite orb_false_r, negb_true_iff in Hc.
  change (String c n ++ ".mp4") with (String c (n ++ ".mp4")).
  cbn [replace_from String.prefix]. destruct (ascii_dec "." c) as [E|E].
  - subst c. rewrite Ascii.eqb_refl in Hc. discriminate.
  - f_equal. now apply IH.
Qed.

(** X23.  For a name without a dot it makes no difference whether it is
    given with the [.mp4] extension or without: the output video and the
    list file are the same. *)
Theorem mp4_extension_optional (frames_path output_path n : string) :
  n <> "" -> none_of "." n = true ->
  output_video_path_of frames_path output_path (Some (n ++ ".mp4"))
  = join output_path (n ++ ".mp4")
  /\ output_video_path_of frames_path output_path (Some n)
     = join output_path (n ++ ".mp4")
  /\ list_file_path_of frames_path output_path (Some (n ++ ".mp4"))
     = list_file_path_of frames_path output_path (Some n).
Proof.
  intros Hn Hd.
  assert (B1 : base_name_of frames_path (Some (n ++ ".mp4")) = n).
  { unfold base_name_of, resolve_output_filename, replace.
    destruct n as [|c n]; [contradiction|]. simpl append at 1.
    cbv beta iota. change (String c (n ++ ".mp4")) with (String c n ++ ".mp4").
    now apply replace_no_dot_mp4. }
  assert (B2 : base_name_of frames_path (Some n) = n).
  { unfold base_name_of, resolve_output_filename, replace.
    destruct n as [|c n]; [contradiction|]. now apply replace_no_dot. }
  unfold output_video_path_of, list_file_path_of. now rewrite B1, B2.
Qed.

Lemma mp4_extension_optional_witness :
  output_video_path_of "frames" "out" (Some "clip.mp4") = join "out" "clip.mp4"
  /\ output_video_path_of "frames" "out" (Some "clip") = join "out" "clip.mp4"
  /\ list_file_path_of "frames" "out" (Some "clip.mp4")
     = list_file_path_of "frames" "out" (Some "clip").
Proof.
  exact (mp4_extension_optional "frames" "out" "clip" ltac:(discriminate) eq_refl).
Defined.

(** ** The name taken from the directory *)

Lemma rstrip_only (chars t : string) :
  only_chars chars t = true -> rstrip chars t = "".
Proof.
  unfold only_chars. induction t as [|c t IH]; simpl; auto.
  rewrite andb_true_iff. intros [Hc Ht]. now rewrite (IH Ht), Hc.
Qed.

Lemma rstrip_none (chars x : string) :
  none_of chars x = true -> rstrip chars x = x.
Proof.
  unfold none_of. induction x as [|c x IH]; simpl; auto.
  rewrite andb_true_iff, negb_true_iff. intros [Hc Hx]. rewrite (IH Hx).
  destruct x; [now rewrite Hc | reflexivity].
Qed.

Lemma rstrip_app_kept (chars y x : string) :
  x <> "" -> rstrip chars x = x -> rstrip chars (y ++ x) = y ++ x.
Proof.
  intros Hx Hr. induction y as [|c y IH]; simpl; auto.
  rewrite IH. destruct (y ++ x) eqn:E; [|reflexivity].
  destruct y; simpl in E; [contradiction | discriminate].
Qed.

Lemma rstrip_app_tail (chars x t : string) :
  only_chars chars t = true -> rstrip chars (x ++ t) = rstrip chars x.
Proof.
  intros Ht. induction x as [|c x IH]; simpl.
  - now apply rstrip_only.
  - now rewrite IH.
Qed.

Lemma none_of_sep (x : string) : none_of "/\" x = true -> has_sep x = false.
Proof.
  unfold none_of. induction x as [|c x IH]; simpl; auto.
  rewrite andb_true_iff, negb_true_iff. intros [Hc Hx]. rewrite (IH Hx).
  destruct (Ascii.eqb c "/"); [discriminate | reflexivity].
Qed.

Lemma basename_no_sep (x : string) : has_sep x = false -> basename x = x.
Proof. destruct x as [|c x]; simpl; auto. now intros ->. Qed.

Lemma has_sep_app (y x : string) : has_sep (y ++ String "/" x) = true.
Proof.
  induction y as [|c y IH]; simpl; auto. rewrite IH. apply orb_true_r.
Qed.

Lemma basename_app (y x : string) :
  has_sep x = false -> basename (y ++ String "/" x) = x.
Proof.
  intros Hx. induction y as [|c y IH].
  - cbn [append basename has_sep]. rewrite Ascii.eqb_refl. cbn [orb].
    now apply basename_no_sep.
  - cbn [append basename has_sep]. now rewrite has_sep_app, orb_true_r.
Qed.

(** X24.  Without a name (none, or an empty one) the output is named
    after the last segment of the directory path: separators at the end
    of the path are dropped, and what stands before the segment does not
    matter. *)
Theorem output_named_after_directory (dir seg tail : string)
    (name : option string) :
  name = None \/ name = Some "" ->
  seg <> "" -> none_of "/\" seg = true -> only_chars "/\" tail = true ->
  resolve_output_filename (dir ++ "/" ++ seg ++ tail) name = seg
  /\ resolve_output_filename (seg ++ tail) name = seg.
Proof.
  intros Hname Hseg Hnone Htail.
  assert (R : resolve_output_filename (dir ++ "/" ++ seg ++ tail) name
              = basename (rstrip "/\" (dir ++ "/" ++ seg ++ tail))
              /\ resolve_output_filename (seg ++ tail) name
                 = basename (rstrip "/\" (seg ++ tail)))
    by (destruct Hname as [-> | ->]; auto).
  destruct R as [-> ->].
  pose proof (rstrip_none "/\" seg Hnone) as Hkeep.
  pose proof (none_of_sep seg Hnone) as Hsep.
  split.
  - replace (dir ++ "/" ++ seg ++ tail) with ((dir ++ "/" ++ seg) ++ tail)
      by now rewrite !append_assoc.
    rewrite (rstrip_app_tail "/\" _ tail Htail).
    replace (dir ++ "/" ++ seg) with ((dir ++ "/") ++ seg)
      by now rewrite !append_assoc.
    rewrite (rstrip_app_kept "/\" (dir ++ "/") seg Hseg Hkeep).
    rewrite append_assoc. change ("/" ++ seg) with (String "/" seg).
    now apply basename_app.
  - rewrite (rstrip_app_tail "/\" seg tail Htail), Hkeep.
    now apply basename_no_sep.
Qed.

Lemma output_named_after_directory_witness :
  resolve_output_filename ("/data/shots" ++ "/" ++ "take 7" ++ "//") None = "take 7"
  /\ resolve_output_filename ("take 7" ++ "//") None = "take 7".
Proof.
  exact (output_named_after_directory "/data/shots" "take 7" "//" None
           (or_introl eq_refl) ltac:(discriminate) eq_refl eq_refl).
Defined.
